(** * Pipeline-parallel scheduling solver: the constraint model of
      [simulator/simulator.py], embedded and verified.

    The Python class [Simulator] builds a z3 optimisation problem over
    integer start offsets.  The embedding has three layers:

    - [Py]: the few Python notions the code relies on (exceptions,
      [range], list indexing with negative indices, [for] loops,
      [itertools.permutations]);
    - [Z3]: the terms the code constructs through the z3 bindings, with
      their value under an assignment of the integer constants;
    - the class itself: a record for the object, one state-passing
      function per method. *)

From Stdlib Require Import ZArith List String Ascii Bool Lia Permutation.
From Stdlib Require Import DecimalString DecimalPos.
Import ListNotations.

Open Scope string_scope.
Open Scope list_scope.
Open Scope Z_scope.

(** ** Python *)

Module Py.

(** Exceptions the modelled code can raise. *)
Inductive exn : Type :=
| AssertionError (msg : string)
| IndexError
| KeyError (key : string)
| ZeroDivisionError.

Inductive result (A : Type) : Type :=
| Ok (a : A)
| Raise (e : exn).

Arguments Ok {A} a.
Arguments Raise {A} e.

Definition bind {A B} (m : result A) (k : A -> result B) : result B :=
  match m with
  | Ok a => k a
  | Raise e => Raise e
  end.

(** Values of the dynamically typed configuration entries that the
    constructor inspects.  ([bool], a subclass of [int] in Python, is left
    out of the model.) *)
Inductive value : Type :=
| PyInt (n : Z)
| PyFloat (mantissa exponent : Z)
| PyStr (s : string)
| PyNone.

Definition isinstance_int (v : value) : bool :=
  match v with
  | PyInt _ => true
  | _ => false
  end.

(** [range(start, stop, step)] for a non-zero step. *)
Definition range3 (start stop step : Z) : list Z :=
  let n :=
    if 0 <? step then (stop - start + step - 1) / step
    else (start - stop - step - 1) / (- step) in
  map (fun k => start + Z.of_nat k * step) (seq 0 (Z.to_nat n)).

Definition range (stop : Z) : list Z := range3 0 stop 1.
Definition range2 (start stop : Z) : list Z := range3 start stop 1.

(** [len(l)] *)
Definition len {A} (l : list A) : Z := Z.of_nat (List.length l).

(** [l[i]]: negative indices count from the end, anything outside
    [-len(l) .. len(l)-1] raises [IndexError]. *)
Definition getitem {A} (l : list A) (i : Z) : result A :=
  let j := if i <? 0 then len l + i else i in
  if j <? 0 then Raise IndexError
  else match nth_error l (Z.to_nat j) with
       | Some a => Ok a
       | None => Raise IndexError
       end.

(** [i // m] on integers. *)
Definition floordiv (i m : Z) : result Z :=
  if m =? 0 then Raise ZeroDivisionError else Ok (i / m).

(** [for x in l: body], the loop body acting on a state. *)
Fixpoint for_ {A S} (l : list A) (body : A -> S -> result S) (s : S)
  : result S :=
  match l with
  | [] => Ok s
  | x :: l' => bind (body x s) (for_ l' body)
  end.

(** [[e(x) for x in l]], where evaluating [e] may raise. *)
Fixpoint comprehension {A B} (e : A -> result B) (l : list A)
  : result (list B) :=
  match l with
  | [] => Ok []
  | x :: l' =>
      bind (e x) (fun b => bind (comprehension e l') (fun bs => Ok (b :: bs)))
  end.

(** [enumerate(l)] *)
Definition enumerate {A} (l : list A) : list (Z * A) :=
  combine (map Z.of_nat (seq 0 (List.length l))) l.

(** [itertools.permutations(l)]: all orderings of the positions of [l], in
    lexicographic order of the positions. *)
Fixpoint selections {A} (l : list A) : list (A * list A) :=
  match l with
  | [] => []
  | x :: l' => (x, l') :: map (fun s => (fst s, x :: snd s)) (selections l')
  end.

Fixpoint permutations_upto {A} (n : nat) (l : list A) : list (list A) :=
  match n with
  | O => [[]]
  | S n' =>
      flat_map (fun s => map (cons (fst s)) (permutations_upto n' (snd s)))
               (selections l)
  end.

Definition permutations {A} (l : list A) : list (list A) :=
  permutations_upto (List.length l) l.

(** [str(n)] for an integer. *)
Definition str (n : Z) : string := NilZero.string_of_int (Z.to_int n).

End Py.

Import Py.

Notation "x <- m ;; k" := (Py.bind m (fun x => k))
  (at level 100, m at next level, right associativity).

(** ** z3 terms *)

Module Z3.

(** An integer constant [z3.Int(name)] is identified by its name.  The
    code uses the names [f_{mb}_{i}], [b_{mb}_{i}] and [max_start_offset];
    a name of the first two kinds is kept as its two numbers. *)
Inductive const : Type :=
| f_ (mb i : Z)
| b_ (mb i : Z)
| max_start_offset.

Definition name (c : const) : string :=
  match c with
  | f_ mb i => ("f_" ++ Py.str mb ++ "_" ++ Py.str i)%string
  | b_ mb i => ("b_" ++ Py.str mb ++ "_" ++ Py.str i)%string
  | max_start_offset => "max_start_offset"
  end.

(** Integer and boolean terms, as built by the overloaded Python
    operators and by [z3.If], [z3.And], [z3.Or]. *)
#[warnings="-register-all"]
Inductive arith : Type :=
| Int (c : const)
| IntVal (n : Z)
| Add (a b : arith)
| If (c : boolref) (t e : arith)
with boolref : Type :=
| BoolVal (b : bool)
| Ge (a b : arith)
| Le (a b : arith)
| Gt (a b : arith)
| Lt (a b : arith)
| And (args : list boolref)
| Or (args : list boolref).

(** An assignment of the integer constants. *)
Definition assignment : Type := const -> Z.

Fixpoint eval (sigma : assignment) (a : arith) : Z :=
  match a with
  | Int c => sigma c
  | IntVal n => n
  | Add a b => eval sigma a + eval sigma b
  | If c t e => if holds sigma c then eval sigma t else eval sigma e
  end
with holds (sigma : assignment) (c : boolref) : bool :=
  match c with
  | BoolVal b => b
  | Ge a b => eval sigma b <=? eval sigma a
  | Le a b => eval sigma a <=? eval sigma b
  | Gt a b => eval sigma b <? eval sigma a
  | Lt a b => eval sigma a <? eval sigma b
  | And args => forallb (holds sigma) args
  | Or args => existsb (holds sigma) args
  end.

(** [z3.Optimize()]: the asserted constraints, in the order they were
    added, and the objectives to minimise. *)
Record Optimize : Type := mkOptimize {
  assertions : list boolref;
  objectives : list arith
}.

Definition new_Optimize : Optimize := mkOptimize [] [].

Definition add (c : boolref) (s : Optimize) : Optimize :=
  mkOptimize (assertions s ++ [c]) (objectives s).

Definition minimize (a : arith) (s : Optimize) : Optimize :=
  mkOptimize (assertions s) (objectives s ++ [a]).

(** The three results of [Optimize.check()]. *)
Inductive CheckSatResult : Type := sat | unsat | unknown.

Definition CheckSatResult_eqb (a b : CheckSatResult) : bool :=
  match a, b with
  | sat, sat | unsat, unsat | unknown, unknown => true
  | _, _ => false
  end.

(** [sigma] satisfies every asserted constraint. *)
Definition satisfies (sigma : assignment) (s : Optimize) : Prop :=
  forallb (holds sigma) (assertions s) = true.

End Z3.

Import Z3.

(** ** The class [Simulator] *)

(** The configuration dictionary.  The three entries that the constructor
    inspects at run time are dynamically typed; the other three are given
    the types the code uses them at. *)
Record Config : Type := mkConfig {
  pp_size : Z;
  num_microbatches : Z;
  max_activation_times : list Z;
  forward_execution_time : Py.value;
  backward_execution_time : Py.value;
  sequential_order_constraint_strategy : Py.value
}.

(** The attributes of a [Simulator] object. *)
Record Simulator : Type := mkSimulator {
  _pp_size : Z;
  _num_microbatches : Z;
  _max_activation_times : list Z;
  _forward_length : Z;
  _backward_length : Z;
  _sequential_order_constraint_strategy : string;
  _solver : Optimize;
  _forward_offsets : list (list arith);
  _backward_offsets : list (list arith)
}.

Definition set_solver (s : Optimize) (self : Simulator) : Simulator :=
  mkSimulator (_pp_size self) (_num_microbatches self)
    (_max_activation_times self) (_forward_length self)
    (_backward_length self) (_sequential_order_constraint_strategy self)
    s (_forward_offsets self) (_backward_offsets self).

Definition set_forward_offsets (o : list (list arith)) (self : Simulator)
  : Simulator :=
  mkSimulator (_pp_size self) (_num_microbatches self)
    (_max_activation_times self) (_forward_length self)
    (_backward_length self) (_sequential_order_constraint_strategy self)
    (_solver self) o (_backward_offsets self).

Definition set_backward_offsets (o : list (list arith)) (self : Simulator)
  : Simulator :=
  mkSimulator (_pp_size self) (_num_microbatches self)
    (_max_activation_times self) (_forward_length self)
    (_backward_length self) (_sequential_order_constraint_strategy self)
    (_solver self) (_forward_offsets self) o.

(** [self._solver.add(c)] *)
Definition solver_add (c : boolref) (self : Simulator) : Simulator :=
  set_solver (Z3.add c (_solver self)) self.

(** [self._solver.minimize(a)] *)
Definition solver_minimize (a : arith) (self : Simulator) : Simulator :=
  set_solver (Z3.minimize a (_solver self)) self.

(** [assert isinstance(v, int), msg], keeping the integer. *)
Definition assert_isinstance_int (v : Py.value) (msg : string)
  : Py.result Z :=
  match v with
  | PyInt n => Ok n
  | _ => Raise (AssertionError msg)
  end.

(** [assert v in names, msg], keeping the string. *)
Definition assert_in (v : Py.value) (names : list string) (msg : string)
  : Py.result string :=
  match v with
  | PyStr s => if existsb (String.eqb s) names then Ok s
               else Raise (AssertionError msg)
  | _ => Raise (AssertionError msg)
  end.

Definition __init__ (config : Config) : Py.result Simulator :=
  fl <- assert_isinstance_int (forward_execution_time config)
          "forward_execution_time must be int";;
  bl <- assert_isinstance_int (backward_execution_time config)
          "backward_execution_time must be int";;
  st <- assert_in (sequential_order_constraint_strategy config)
          ["strict"; "double_interleaving"; "full_interleaving"]
          "sequential order constraint strategy is not supported";;
  Ok (mkSimulator (pp_size config) (num_microbatches config)
        (max_activation_times config) fl bl st
        Z3.new_Optimize
        (map (fun _ => []) (Py.range (pp_size config)))
        (map (fun _ => []) (Py.range (pp_size config)))).

(** [offsets[i][mb]] *)
Definition getitem2 (offsets : list (list arith)) (i mb : Z)
  : Py.result arith :=
  row <- Py.getitem offsets i;;
  Py.getitem row mb.

(** The term [xs[i][mb] >= ys[j][mb] + d], left operand first. *)
Definition ge_plus (xs : list (list arith)) (i : Z)
    (ys : list (list arith)) (j : Z) (mb d : Z) : Py.result boolref :=
  lhs <- getitem2 xs i mb;;
  rhs <- getitem2 ys j mb;;
  Ok (Ge lhs (Add rhs (IntVal d))).

Definition _sequential_order_constraint_strict (self : Simulator)
  : Py.result Simulator :=
  Py.for_ (Py.range (_num_microbatches self)) (fun mb self =>
    (* forward stages sequential constraint *)
    self <- Py.for_ (Py.range2 1 (_pp_size self)) (fun i self =>
      c <- ge_plus (_forward_offsets self) i
                   (_forward_offsets self) (i - 1) mb (_forward_length self);;
      Ok (solver_add c self)) self;;
    (* backward stages sequential constraint *)
    self <- Py.for_ (Py.range3 (_pp_size self - 1) 0 (-1)) (fun i self =>
      c <- ge_plus (_backward_offsets self) (i - 1)
                   (_backward_offsets self) i mb (_backward_length self);;
      Ok (solver_add c self)) self;;
    (* forward-backward connection sequential constraint *)
    c <- ge_plus (_backward_offsets self) (_pp_size self - 1)
                 (_forward_offsets self) (_pp_size self - 1)
                 mb (_forward_length self);;
    Ok (solver_add c self)) self.

Definition _sequential_order_constraint_double_interleaving
    (self : Simulator) : Py.result Simulator :=
  Py.for_ (Py.range (_num_microbatches self)) (fun mb self =>
    (* down pipe *)
    d1 <- Py.comprehension (fun i =>
            ge_plus (_forward_offsets self) i
                    (_forward_offsets self) (i - 1) mb (_forward_length self))
            (Py.range2 1 (_pp_size self));;
    d2 <- Py.comprehension (fun i =>
            ge_plus (_backward_offsets self) (i - 1)
                    (_backward_offsets self) i mb (_backward_length self))
            (Py.range3 (_pp_size self - 1) 0 (-1));;
    d3 <- ge_plus (_backward_offsets self) (_pp_size self - 1)
                  (_forward_offsets self) (_pp_size self - 1)
                  mb (_forward_length self);;
    let down_case := And (d1 ++ d2 ++ [d3]) in
    (* up pipe *)
    u1 <- Py.comprehension (fun i =>
            ge_plus (_forward_offsets self) (i - 1)
                    (_forward_offsets self) i mb (_forward_length self))
            (Py.range3 (_pp_size self - 1) 0 (-1));;
    u2 <- Py.comprehension (fun i =>
            ge_plus (_backward_offsets self) i
                    (_backward_offsets self) (i - 1) mb
                    (_backward_length self))
            (Py.range2 1 (_pp_size self));;
    u3 <- ge_plus (_backward_offsets self) 0
                  (_forward_offsets self) 0 mb (_forward_length self);;
    let up_case := And (u1 ++ u2 ++ [u3]) in
    Ok (solver_add (Or [down_case; up_case]) self)) self.

(** The conjunction that the full-interleaving encoder builds for one
    permutation [perm] of the stages and one microbatch. *)
Definition full_interleaving_case (self : Simulator) (mb : Z)
    (perm : list Z) : Py.result boolref :=
  (* forward sequential order *)
  c1 <- Py.comprehension (fun i =>
          p <- Py.getitem perm (i + 1);;
          lhs <- getitem2 (_forward_offsets self) p mb;;
          q <- Py.getitem perm i;;
          rhs <- getitem2 (_forward_offsets self) q mb;;
          Ok (Ge lhs (Add rhs (IntVal (_forward_length self)))))
          (Py.range (Py.len perm - 1));;
  (* corresponding backward order *)
  c2 <- Py.comprehension (fun i =>
          p <- Py.getitem perm (i - 1);;
          lhs <- getitem2 (_backward_offsets self) p mb;;
          q <- Py.getitem perm i;;
          rhs <- getitem2 (_backward_offsets self) q mb;;
          Ok (Ge lhs (Add rhs (IntVal (_backward_length self)))))
          (Py.range3 (Py.len perm - 1) 0 (-1));;
  (* forward-backward connection order *)
  p <- Py.getitem perm (-1);;
  lhs <- getitem2 (_backward_offsets self) p mb;;
  q <- Py.getitem perm (-1);;
  rhs <- getitem2 (_forward_offsets self) q mb;;
  Ok (And (c1 ++ c2 ++ [Ge lhs (Add rhs (IntVal (_forward_length self)))])).

Definition _sequential_order_constraint_full_interleaving
    (self : Simulator) : Py.result Simulator :=
  Py.for_ (Py.range (_num_microbatches self)) (fun mb self =>
    cases <- Py.for_ (Py.permutations (Py.range (_pp_size self)))
               (fun perm cases =>
                  c <- full_interleaving_case self mb perm;;
                  Ok (cases ++ [c])) [];;
    (* add all possibilities to z3 constraints *)
    Ok (solver_add (Or cases) self)) self.

Definition _serial_computation_within_pipeline_constraint
    (self : Simulator) : Py.result Simulator :=
  Py.for_ (Py.range (_pp_size self)) (fun pp self =>
    fo <- Py.getitem (_forward_offsets self) pp;;
    bo <- Py.getitem (_backward_offsets self) pp;;
    let _pp_vars := fo ++ bo in
    Py.for_ (Py.enumerate _pp_vars) (fun i_ self =>
      let i := fst i_ in
      Py.for_ (Py.range2 (i + 1) (Py.len _pp_vars)) (fun j self =>
        qi <- Py.floordiv i (_num_microbatches self);;
        let _i_length :=
          if qi =? 0 then _forward_length self else _backward_length self in
        qj <- Py.floordiv j (_num_microbatches self);;
        let _j_length :=
          if qj =? 0 then _forward_length self else _backward_length self in
        vj <- Py.getitem _pp_vars j;;
        vi <- Py.getitem _pp_vars i;;
        vj' <- Py.getitem _pp_vars j;;
        vi' <- Py.getitem _pp_vars i;;
        Ok (solver_add
              (Or [Ge vj (Add vi (IntVal _i_length));
                   Le (Add vj' (IntVal _j_length)) vi'])
              self)) self) self) self.

(** The running [_actvaition_count]: a Python integer until the first
    z3 term is added to it, a z3 term from then on. *)
Inductive count : Type :=
| PyCount (n : Z)
| Z3Count (a : arith).

(** [count + term] *)
Definition count_add (c : count) (t : arith) : count :=
  match c with
  | PyCount n => Z3Count (Add (IntVal n) t)
  | Z3Count a => Z3Count (Add a t)
  end.

(** [count <= cap], as the solver receives it: a Python [bool] is cast to
    a z3 boolean value. *)
Definition count_le (c : count) (cap : Z) : boolref :=
  match c with
  | PyCount n => BoolVal (n <=? cap)
  | Z3Count a => Le a (IntVal cap)
  end.

Definition _pipeline_activation_accumulation_constraint
    (self : Simulator) : Py.result Simulator :=
  Py.for_ (Py.range (_pp_size self)) (fun pp self =>
    (* calculate the maximum activation value for this pp *)
    Py.for_ (Py.range (_num_microbatches self)) (fun mb self =>
      _backward_var <- getitem2 (_backward_offsets self) pp mb;;
      _actvaition_count <-
        Py.for_ (Py.range (_num_microbatches self))
          (fun other_mb _actvaition_count =>
             if other_mb =? mb then Ok _actvaition_count
             else
               b <- getitem2 (_backward_offsets self) pp other_mb;;
               f <- getitem2 (_forward_offsets self) pp other_mb;;
               Ok (count_add _actvaition_count
                     (If (And [Gt b _backward_var; Lt f _backward_var])
                         (IntVal 1) (IntVal 0))))
          (PyCount 1);;
      cap <- Py.getitem (_max_activation_times self) pp;;
      Ok (solver_add (count_le _actvaition_count cap) self)) self) self.

(** [offsets[i].append(x)]: the rows are distinct list objects, so only
    row [i] changes. *)
Fixpoint replace_nth {A} (n : nat) (x : A) (l : list A) : list A :=
  match l, n with
  | [], _ => []
  | _ :: l', O => x :: l'
  | y :: l', S n' => y :: replace_nth n' x l'
  end.

Definition append_at (offsets : list (list arith)) (i : Z) (x : arith)
  : Py.result (list (list arith)) :=
  row <- Py.getitem offsets i;;
  let j := if i <? 0 then Py.len offsets + i else i in
  Ok (replace_nth (Z.to_nat j) (row ++ [x]) offsets).

(** The first loop of [_build_constraints]: the offset variables and
    their sign constraints. *)
Definition declare_offsets (self : Simulator) : Py.result Simulator :=
  Py.for_ (Py.range (_pp_size self)) (fun i self =>
    Py.for_ (Py.range (_num_microbatches self)) (fun mb self =>
      fo <- append_at (_forward_offsets self) i (Int (f_ mb i));;
      let self := set_forward_offsets fo self in
      v <- getitem2 (_forward_offsets self) i (-1);;
      let self := solver_add (Ge v (IntVal 0)) self in
      bo <- append_at (_backward_offsets self) i (Int (b_ mb i));;
      let self := set_backward_offsets bo self in
      v <- getitem2 (_backward_offsets self) i (-1);;
      Ok (solver_add (Ge v (IntVal 0)) self)) self) self.

(** The strategy dispatch of [_build_constraints]. *)
Definition sequential_order_constraint (self : Simulator)
  : Py.result Simulator :=
  if String.eqb (_sequential_order_constraint_strategy self) "strict" then
    (* constraint 1-0 *)
    _sequential_order_constraint_strict self
  else if String.eqb (_sequential_order_constraint_strategy self)
            "double_interleaving" then
    (* constraint 1-1 *)
    _sequential_order_constraint_double_interleaving self
  else if String.eqb (_sequential_order_constraint_strategy self)
            "full_interleaving" then
    (* constraint 1-2 *)
    _sequential_order_constraint_full_interleaving self
  else Ok self.

Definition _build_constraints (self : Simulator) : Py.result Simulator :=
  self <- declare_offsets self;;
  self <- sequential_order_constraint self;;
  (* constraint 2: no overlapping of forward and backward within each
     pipeline *)
  self <- _serial_computation_within_pipeline_constraint self;;
  (* constraint 3: the accumulation count of activations does not exceed
     max_activation_times *)
  _pipeline_activation_accumulation_constraint self.

Definition _build_optimize_objectives (self : Simulator)
  : Py.result Simulator :=
  let max_var := Int max_start_offset in
  self <- Py.for_ (Py.range (_pp_size self)) (fun pp self =>
    row <- Py.getitem (_backward_offsets self) pp;;
    Py.for_ row (fun var self =>
      Ok (solver_add (Ge max_var var) self)) self) self;;
  Ok (solver_minimize max_var self).

(** [results.pop(key)] on a dictionary kept as an association list. *)
Fixpoint dict_pop (key : string) (d : list (string * Z))
  : Py.result (list (string * Z)) :=
  match d with
  | [] => Raise (KeyError key)
  | (k, v) :: d' =>
      if String.eqb k key then Ok d'
      else d'' <- dict_pop key d';; Ok ((k, v) :: d'')
  end.

(** What a call of [run] leaves behind: the lines printed, and the
    dictionary handed to the painter, if any. *)
Record Outcome : Type := mkOutcome {
  printed : list string;
  drawn : option (list (string * Z))
}.

(** [run], over the two solver calls it makes: [check] and [model] (the
    latter as the list of the constants and their values). *)
Definition run (check : Optimize -> CheckSatResult)
    (model : Optimize -> list (const * Z)) (self : Simulator)
  : Py.result Outcome :=
  (* 1. builds the solver constraints. *)
  self <- _build_constraints self;;
  (* 2. builds the solver optimize objectives. *)
  self <- _build_optimize_objectives self;;
  (* 3. runs the solver. *)
  let out := ["Z3 Solver Solving..."] in
  if CheckSatResult_eqb (check (_solver self)) sat then
    let out := out ++ ["Result: SAT"] in
    let results :=
      map (fun kv => (Z3.name (fst kv), snd kv)) (model (_solver self)) in
    results <- dict_pop "max_start_offset" results;;
    (* 4. draws the result. *)
    Ok (mkOutcome out (Some results))
  else
    Ok (mkOutcome (out ++ ["Result: UNSAT"]) None).

(** The optimisation problem that [run] hands to the solver: its steps
    1 and 2. *)
Definition encode (self : Simulator) : Py.result Optimize :=
  self <- _build_constraints self;;
  self <- _build_optimize_objectives self;;
  Ok (_solver self).

(** The same from a configuration: [Simulator(config)] followed by steps
    1 and 2 of [run]. *)
Definition encode_config (config : Config) : Py.result Optimize :=
  self <- __init__ config;;
  encode self.

(** The configuration of [main.py]. *)
Definition main_config : Config :=
  mkConfig 4 6 [4; 3; 2; 1] (PyInt 2) (PyInt 3) (PyStr "strict").


(** * Derived definitions used to state the results *)

(** Adding several constraints in a row. *)
Definition add_all (cs : list boolref) (self : Simulator) : Simulator :=
  set_solver
    (mkOptimize (assertions (_solver self) ++ cs)
                (objectives (_solver self)))
    self.

(** The three accepted strategies, and the configurations and freshly
    constructed objects they give rise to. *)
Inductive strategy : Type := strict | double_interleaving | full_interleaving.

Definition strategy_name (st : strategy) : string :=
  match st with
  | strict => "strict"
  | double_interleaving => "double_interleaving"
  | full_interleaving => "full_interleaving"
  end.

Definition config_of (P M : Z) (Cap : list Z) (Df Db : Z) (st : strategy)
  : Config :=
  mkConfig P M Cap (PyInt Df) (PyInt Db) (PyStr (strategy_name st)).

Definition fresh (P M : Z) (Cap : list Z) (Df Db : Z) (st : strategy)
  : Simulator :=
  mkSimulator P M Cap Df Db (strategy_name st) Z3.new_Optimize
    (map (fun _ => []) (Py.range P)) (map (fun _ => []) (Py.range P)).

(** The rows of offset variables while they are being declared: the rows
    of the stages below [i] are complete, row [i] holds the first [m]
    microbatches, the rows above are empty. *)
Definition partial_offsets (mk : Z -> Z -> const) (P M i m : Z)
  : list (list arith) :=
  map (fun i' =>
         map (fun mb => Int (mk mb i'))
             (Py.range (if i' <? i then M else if i' =? i then m else 0)))
      (Py.range P).

(** The rows once every variable is declared. *)
Definition offsets_of (mk : Z -> Z -> const) (P M : Z)
  : list (list arith) :=
  map (fun i => map (fun mb => Int (mk mb i)) (Py.range M)) (Py.range P).

Definition offsets_built (self : Simulator) : Prop :=
  _forward_offsets self
  = offsets_of f_ (_pp_size self) (_num_microbatches self)
  /\ _backward_offsets self
     = offsets_of b_ (_pp_size self) (_num_microbatches self).

(** The object once its variables are declared. *)
Definition declared (P M : Z) (Cap : list Z) (Df Db : Z) (st : strategy)
    (cs : list boolref) : Simulator :=
  mkSimulator P M Cap Df Db (strategy_name st) (mkOptimize cs [])
    (offsets_of f_ P M) (offsets_of b_ P M).

(** The terms of the constraints, stage first. *)
Definition F (i mb : Z) : arith := Int (f_ mb i).
Definition B (i mb : Z) : arith := Int (b_ mb i).

(** [a >= b + d] *)
Definition geq (a b : arith) (d : Z) : boolref := Ge a (Add b (IntVal d)).

Section Terms.

Variables (P M Df Db : Z) (Cap : list Z).

Definition sign_terms : list boolref :=
  flat_map (fun i =>
    flat_map (fun mb => [Ge (F i mb) (IntVal 0); Ge (B i mb) (IntVal 0)])
             (Py.range M))
    (Py.range P).

(** The chain of one microbatch through the stages in increasing order... *)
Definition down_terms (mb : Z) : list boolref :=
  map (fun i => geq (F i mb) (F (i - 1) mb) Df) (Py.range2 1 P)
  ++ map (fun i => geq (B (i - 1) mb) (B i mb) Db)
         (Py.range3 (P - 1) 0 (-1))
  ++ [geq (B (P - 1) mb) (F (P - 1) mb) Df].

(** ... in decreasing order... *)
Definition up_terms (mb : Z) : list boolref :=
  map (fun i => geq (F (i - 1) mb) (F i mb) Df) (Py.range3 (P - 1) 0 (-1))
  ++ map (fun i => geq (B i mb) (B (i - 1) mb) Db) (Py.range2 1 P)
  ++ [geq (B 0 mb) (F 0 mb) Df].

(** ... and in the order [perm]. *)
Definition at_ (perm : list Z) (k : Z) : Z := nth (Z.to_nat k) perm 0.

Definition perm_terms (perm : list Z) (mb : Z) : list boolref :=
  map (fun k => geq (F (at_ perm (k + 1)) mb) (F (at_ perm k) mb) Df)
      (Py.range (Py.len perm - 1))
  ++ map (fun k => geq (B (at_ perm (k - 1)) mb) (B (at_ perm k) mb) Db)
         (Py.range3 (Py.len perm - 1) 0 (-1))
  ++ [geq (B (last perm 0) mb) (F (last perm 0) mb) Df].

Definition order_terms (st : strategy) : list boolref :=
  match st with
  | strict => flat_map down_terms (Py.range M)
  | double_interleaving =>
      map (fun mb => Or [And (down_terms mb); And (up_terms mb)])
          (Py.range M)
  | full_interleaving =>
      map (fun mb =>
             Or (map (fun perm => And (perm_terms perm mb))
                     (Py.permutations (Py.range P))))
          (Py.range M)
  end.

(** The blocks of stage [pp] in the order of [_pp_vars], and the length
    the code attributes to the block at position [k]. *)
Definition stage_vars (pp : Z) : list arith :=
  map (F pp) (Py.range M) ++ map (B pp) (Py.range M).

Definition length_at (k : Z) : Z := if k / M =? 0 then Df else Db.

Definition pair_term (vars : list arith) (i j : Z) : boolref :=
  Or [Ge (nth (Z.to_nat j) vars (IntVal 0))
         (Add (nth (Z.to_nat i) vars (IntVal 0)) (IntVal (length_at i)));
      Le (Add (nth (Z.to_nat j) vars (IntVal 0)) (IntVal (length_at j)))
         (nth (Z.to_nat i) vars (IntVal 0))].

Definition overlap_terms : list boolref :=
  flat_map (fun pp =>
    flat_map (fun i =>
      map (pair_term (stage_vars pp) i)
          (Py.range2 (i + 1) (Py.len (stage_vars pp))))
      (Py.range (Py.len (stage_vars pp))))
    (Py.range P).

(** The summand of [other_mb] in the activation count of [mb]. *)
Definition straddles (pp mb other_mb : Z) : arith :=
  If (And [Gt (B pp other_mb) (B pp mb); Lt (F pp other_mb) (B pp mb)])
     (IntVal 1) (IntVal 0).

Definition count_step (pp mb : Z) (c : count) (other_mb : Z) : count :=
  if other_mb =? mb then c else count_add c (straddles pp mb other_mb).

Definition count_term (pp mb : Z) : count :=
  fold_left (count_step pp mb) (Py.range M) (PyCount 1).

Definition activation_terms : list boolref :=
  flat_map (fun pp =>
    flat_map (fun mb =>
      [count_le (count_term pp mb) (nth (Z.to_nat pp) Cap 0)])
      (Py.range M))
    (Py.range P).

Definition objective_terms : list boolref :=
  flat_map (fun pp =>
    flat_map (fun mb => [Ge (Int max_start_offset) (B pp mb)]) (Py.range M))
    (Py.range P).

(** Everything [_build_constraints] asserts, in order. *)
Definition constraint_terms (st : strategy) : list boolref :=
  sign_terms ++ order_terms st ++ overlap_terms ++ activation_terms.

End Terms.

(** The problem handed to the solver for a well-formed configuration. *)
Definition problem (P M : Z) (Cap : list Z) (Df Db : Z) (st : strategy)
  : Optimize :=
  mkOptimize (constraint_terms P M Df Db Cap st ++ objective_terms P M)
             [Int max_start_offset].

(** ** The schedule an assignment stands for *)

Section Schedule.

Variable sigma : assignment.

(** Start offsets of the forward and backward block of microbatch [mb] at
    stage [i]. *)
Definition fwd (i mb : Z) : Z := sigma (f_ mb i).
Definition bwd (i mb : Z) : Z := sigma (b_ mb i).

(** [sigma] satisfies every term of a list. *)
Definition all_hold (cs : list boolref) : Prop :=
  forallb (holds sigma) cs = true.

(** The value of the running activation count. *)
Definition count_value (c : count) : Z :=
  match c with
  | PyCount n => n
  | Z3Count a => eval sigma a
  end.

(** The assignment with another value for the objective variable. *)
Definition set_max (v : Z) : assignment :=
  fun c =>
    match c with
    | max_start_offset => v
    | _ => sigma c
    end.

Variables (P M Df Db : Z) (Cap : list Z).

(** Microbatch [mb] goes through the stages in the order [perm]: forward
    along [perm], backward along its reverse, turning round at its last
    stage. *)
Definition chain (perm : list Z) (mb : Z) : Prop :=
  (forall k, 0 <= k < Py.len perm - 1 ->
     fwd (at_ perm k) mb + Df <= fwd (at_ perm (k + 1)) mb)
  /\ (forall k, 0 < k <= Py.len perm - 1 ->
        bwd (at_ perm k) mb + Db <= bwd (at_ perm (k - 1)) mb)
  /\ fwd (last perm 0) mb + Df <= bwd (last perm 0) mb.

Definition ordered (st : strategy) (mb : Z) : Prop :=
  match st with
  | strict => chain (Py.range P) mb
  | double_interleaving =>
      chain (Py.range P) mb \/ chain (rev (Py.range P)) mb
  | full_interleaving =>
      exists perm, Permutation (Py.range P) perm /\ chain perm mb
  end.

(** Blocks of a stage, their start and their duration. *)
Inductive direction : Type := forward | backward.

Definition block : Type := (direction * Z)%type.

Definition start (pp : Z) (b : block) : Z :=
  match fst b with
  | forward => fwd pp (snd b)
  | backward => bwd pp (snd b)
  end.

Definition duration (b : block) : Z :=
  match fst b with
  | forward => Df
  | backward => Db
  end.

(** The two blocks do not overlap in time. *)
Definition disjoint (pp : Z) (b1 b2 : block) : Prop :=
  start pp b1 + duration b1 <= start pp b2
  \/ start pp b2 + duration b2 <= start pp b1.

(** The block is running at instant [t]: it occupies the half-open
    interval from its start to its start plus its duration. *)
Definition occupies (pp : Z) (b : block) (t : Z) : Prop :=
  start pp b <= t < start pp b + duration b.

(** The number of activations held at stage [pp] when the backward block
    of [mb] starts: one for [mb] itself, and one for every other
    microbatch whose backward block starts strictly later and whose
    forward block starts strictly earlier. *)
Definition straddling (pp mb other : Z) : bool :=
  negb (other =? mb)
  && (bwd pp mb <? bwd pp other)
  && (fwd pp other <? bwd pp mb).

Definition activation_count (pp mb : Z) : Z :=
  1 + Z.of_nat (List.length (filter (straddling pp mb) (Py.range M))).

(** The schedule respects every constraint of the model. *)
Definition feasible (st : strategy) : Prop :=
  (forall pp mb, 0 <= pp < P -> 0 <= mb < M ->
     0 <= fwd pp mb /\ 0 <= bwd pp mb)
  /\ (forall mb, 0 <= mb < M -> ordered st mb)
  /\ (forall pp b1 b2, 0 <= pp < P ->
        0 <= snd b1 < M -> 0 <= snd b2 < M -> b1 <> b2 ->
        disjoint pp b1 b2)
  /\ (forall pp mb, 0 <= pp < P -> 0 <= mb < M ->
        activation_count pp mb <= nth (Z.to_nat pp) Cap 0).

(** The completion time of the backward block that finishes last. *)
Definition maximum (l : list Z) : Z :=
  match l with
  | [] => 0
  | x :: l' => fold_left Z.max l' x
  end.

Definition backward_starts : list Z :=
  flat_map (fun pp => map (bwd pp) (Py.range M)) (Py.range P).

Definition makespan : Z :=
  maximum (map (fun s => s + Db) backward_starts).

(** The completion time of the block, forward or backward, that finishes
    last. *)
Definition block_finishes : list Z :=
  flat_map (fun pp =>
              map (fun mb => fwd pp mb + Df) (Py.range M)
              ++ map (fun mb => bwd pp mb + Db) (Py.range M))
           (Py.range P).

Definition schedule_makespan : Z := maximum block_finishes.

End Schedule.

(** [sigma] is a solution of the optimisation problem [s]: it satisfies
    the constraints, and no assignment that does has a smaller value of
    the objective. *)
Definition optimal (sigma : assignment) (s : Optimize) : Prop :=
  Z3.satisfies sigma s
  /\ forall sigma', Z3.satisfies sigma' s ->
       Forall (fun a => eval sigma a <= eval sigma' a) (objectives s).

(** The variable of a block, and the constraint that keeps two blocks of
    a stage apart: the second starts once the first is over, or is over
    when the first starts. *)
Definition block_var (pp : Z) (b : block) : arith :=
  match fst b with
  | forward => F pp (snd b)
  | backward => B pp (snd b)
  end.

Definition disjoint_term (Df Db pp : Z) (first second : block) : boolref :=
  Or [Ge (block_var pp second)
         (Add (block_var pp first) (IntVal (duration Df Db first)));
      Le (Add (block_var pp second) (IntVal (duration Df Db second)))
         (block_var pp first)].

(** The block at position [k] of [_pp_vars], and back. *)
Definition block_at (M k : Z) : block :=
  if k <? M then (forward, k) else (backward, k - M).

Definition position (M : Z) (b : block) : Z :=
  match fst b with
  | forward => snd b
  | backward => M + snd b
  end.

(** ** The ordering constraints in the words of the specification *)

(** The integers [a, a+1, ..., b]. *)
Definition interval (a b : Z) : list Z :=
  map (fun k => a + Z.of_nat k) (seq 0 (Z.to_nat (b + 1 - a))).

(** Strict order: per microbatch, forward offset at stage [i] >= forward
    offset at stage [i-1] + Df for i = 1..P-1; backward offset at stage
    [i-1] >= backward offset at stage [i] + Db for i = P-1..1; backward
    offset at stage [P-1] >= forward offset at stage [P-1] + Df. *)
Definition spec_strict_terms (P M Df Db : Z) : list boolref :=
  flat_map (fun mb =>
    map (fun i => Ge (Int (f_ mb i)) (Add (Int (f_ mb (i - 1))) (IntVal Df)))
        (interval 1 (P - 1))
    ++ map (fun i =>
              Ge (Int (b_ mb (i - 1))) (Add (Int (b_ mb i)) (IntVal Db)))
           (rev (interval 1 (P - 1)))
    ++ [Ge (Int (b_ mb (P - 1))) (Add (Int (f_ mb (P - 1))) (IntVal Df))])
    (interval 0 (M - 1)).

(** A traversal of the stages in a given order: the forward pass follows
    the order, the backward pass the reverse order, and the turn from
    forward to backward is at the last stage of the order. *)
Fixpoint adjacent (order : list Z) : list (Z * Z) :=
  match order with
  | a :: (b :: _) as rest => (a, b) :: adjacent rest
  | _ => []
  end.

Definition traversal_terms (Df Db : Z) (order : list Z) (mb : Z)
  : list boolref :=
  map (fun ab => geq (F (snd ab) mb) (F (fst ab) mb) Df) (adjacent order)
  ++ map (fun ab => geq (B (fst ab) mb) (B (snd ab) mb) Db)
         (rev (adjacent order))
  ++ [geq (B (last order 0) mb) (F (last order 0) mb) Df].

(** The strategies from the tightest to the loosest. *)
Definition rank (st : strategy) : nat :=
  match st with
  | strict => 0
  | double_interleaving => 1
  | full_interleaving => 2
  end.

(** ** Configuration errors in the words of the specification *)

Definition is_strategy_name (v : Py.value) : bool :=
  match v with
  | PyStr s =>
      existsb (String.eqb s)
              ["strict"; "double_interleaving"; "full_interleaving"]
  | _ => false
  end.

Definition is_positive_int (v : Py.value) : bool :=
  match v with
  | PyInt n => 0 <? n
  | _ => false
  end.

(** An invalid strategy name, a duration that is not a positive integer,
    or a capacity array whose length is not the stage count. *)
Definition configuration_error (config : Config) : Prop :=
  is_strategy_name (sequential_order_constraint_strategy config) = false
  \/ is_positive_int (forward_execution_time config) = false
  \/ is_positive_int (backward_execution_time config) = false
  \/ Py.len (max_activation_times config) <> pp_size config.

(** Two such configurations. *)
Definition zero_duration_config : Config :=
  mkConfig 2 2 [1; 1] (PyInt 0) (PyInt (-1)) (PyStr "strict").

Definition long_capacity_config : Config :=
  mkConfig 2 2 [1; 1; 7] (PyInt 1) (PyInt 1) (PyStr "strict").

Definition short_capacity_config : Config :=
  mkConfig 2 2 [1] (PyInt 1) (PyInt 1) (PyStr "strict").

(** The object of [main.py] once its variables are declared, and a
    single-stage, single-microbatch object. *)
Definition main_declared : Simulator :=
  declared 4 6 [4; 3; 2; 1] 2 3 strict [].

Definition single_declared (st : strategy) : Simulator :=
  declared 1 1 [1] 1 1 st [].

(** A schedule for one stage and one microbatch: forward at 0, backward
    at 1. *)
Definition single_schedule : assignment :=
  fun c =>
    match c with
    | f_ _ _ => 0
    | b_ _ _ => 1
    | max_start_offset => 1
    end.

(** The schedule that runs the microbatches one after the other: each
    gets a window of [P * (Df + Db)] time units, goes forward through the
    stages 0..P-1 and comes back. *)
Definition serial_schedule (P M Df Db : Z) : assignment :=
  fun c =>
    match c with
    | f_ mb i => mb * (P * (Df + Db)) + i * Df
    | b_ mb i => mb * (P * (Df + Db)) + P * Df + (P - 1 - i) * Db
    | max_start_offset => (M - 1) * (P * (Df + Db)) + P * Df + (P - 1) * Db
    end.

(** The forward and backward blocks of the microbatches 0..M-1, and the
    time a list of blocks takes when they run one at a time. *)
Definition stage_blocks (M : Z) : list block :=
  map (pair forward) (Py.range M) ++ map (pair backward) (Py.range M).

Definition total_duration (Df Db : Z) (l : list block) : Z :=
  fold_right (fun b acc => duration Df Db b + acc) 0 l.

(** The object while its variables are being declared. *)
Definition declaring (P M : Z) (Cap : list Z) (Df Db : Z) (st : strategy)
    (cs : list boolref) (i m : Z) : Simulator :=
  mkSimulator P M Cap Df Db (strategy_name st) (mkOptimize cs [])
    (partial_offsets f_ P M i m) (partial_offsets b_ P M i m).

(** * The painter *)

(** ** Exceptions and results of the drawing code *)

Module Gui.

(** The drawing code raises exceptions that the simulator does not:
    [ValueError] ([max] of nothing, an unpacking of the wrong length,
    [int] of a string that is no number), [KeyError] on a dictionary
    keyed by canvas items, and the [TclError] of tkinter. *)
Inductive exn : Type :=
| Builtin (e : Py.exn)
| ValueError
| ItemKeyError (key : Z)
| TclError.

Inductive result (A : Type) : Type :=
| Ok (a : A)
| Raise (e : exn).

Arguments Ok {A} a.
Arguments Raise {A} e.

Definition bind {A B} (m : result A) (k : A -> result B) : result B :=
  match m with
  | Ok a => k a
  | Raise e => Raise e
  end.

(** A result of the simulator's code, seen from the drawing code. *)
Definition lift {A} (m : Py.result A) : result A :=
  match m with
  | Py.Ok a => Ok a
  | Py.Raise e => Raise (Builtin e)
  end.

Fixpoint for_ {A S} (l : list A) (body : A -> S -> result S) (s : S)
  : result S :=
  match l with
  | [] => Ok s
  | x :: l' => bind (body x s) (for_ l' body)
  end.

(** [max(l)] *)
Definition max (l : list Z) : result Z :=
  match l with
  | [] => Raise ValueError
  | x :: l' => Ok (fold_left Z.max l' x)
  end.

(** A dictionary keyed by integers, in insertion order: [d[k] = v],
    [d[k]] and [k in d]. *)
Fixpoint setitem {V} (k : Z) (v : V) (d : list (Z * V)) : list (Z * V) :=
  match d with
  | [] => [(k, v)]
  | (k', v') :: d' =>
      if k' =? k then (k, v) :: d' else (k', v') :: setitem k v d'
  end.

Fixpoint getitem {V} (d : list (Z * V)) (k : Z) : result V :=
  match d with
  | [] => Raise (ItemKeyError k)
  | (k', v) :: d' => if k' =? k then Ok v else getitem d' k
  end.

Definition contains {V} (d : list (Z * V)) (k : Z) : bool :=
  existsb (fun kv => fst kv =? k) d.

End Gui.

Notation "x <~ m ;; k" := (Gui.bind m (fun x => k))
  (at level 100, m at next level, right associativity).

(** ** Strings *)

Module Str.

(** [s.startswith(prefix)] *)
Definition startswith (s prefix : string) : bool := String.prefix prefix s.

(** [s.split(sep)] for a separator of one character. *)
Fixpoint split (s : string) (sep : ascii) : list string :=
  match s with
  | EmptyString => [EmptyString]
  | String c s' =>
      if Ascii.eqb c sep then EmptyString :: split s' sep
      else match split s' sep with
           | piece :: pieces => String c piece :: pieces
           | [] => [String c EmptyString]
           end
  end.

(** [int(s)] for a string of ASCII characters: blanks around the number
    are dropped, a sign may come first, and the digits may be grouped
    by single underscores.  (As for [Py.str], the number of digits is not
    limited.) *)
Definition isspace (c : ascii) : bool :=
  let n := nat_of_ascii c in
  ((9 <=? n) && (n <=? 13) || (n =? 32))%nat.

Fixpoint lstrip (s : string) : string :=
  match s with
  | EmptyString => EmptyString
  | String c s' => if isspace c then lstrip s' else s
  end.

Definition digit (c : ascii) : option Z :=
  let n := Z.of_nat (nat_of_ascii c) in
  if (48 <=? n) && (n <=? 57) then Some (n - 48) else None.

(** The digits at the head of [s] after the value [acc] read so far,
    and what follows them; [pending] tells that the last character was an
    underscore. *)
Fixpoint digits (s : string) (acc : Z) (pending : bool)
  : Gui.result (Z * string) :=
  match s with
  | EmptyString =>
      if pending then Gui.Raise Gui.ValueError
      else Gui.Ok (acc, EmptyString)
  | String c s' =>
      match digit c with
      | Some d => digits s' (10 * acc + d) false
      | None =>
          if pending then Gui.Raise Gui.ValueError
          else if Ascii.eqb c "_" then digits s' acc true
          else Gui.Ok (acc, s)
      end
  end.

Definition int (s : string) : Gui.result Z :=
  let s := lstrip s in
  let (sign, s) :=
    match s with
    | String "-" s' => (-1, s')
    | String "+" s' => (1, s')
    | _ => (1, s)
    end in
  match s with
  | EmptyString => Gui.Raise Gui.ValueError
  | String c _ =>
      match digit c with
      | None => Gui.Raise Gui.ValueError
      | Some _ =>
          r <~ digits s 0 false;;
          match lstrip (snd r) with
          | EmptyString => Gui.Ok (sign * fst r)
          | String _ _ => Gui.Raise Gui.ValueError
          end
      end
  end.

End Str.

(** ** The tkinter canvas *)

Module Tk.

(** The two kinds of items that the painter creates, with the options it
    sets or reads; an option left out at the creation has the default of
    tkinter: a black outline, no fill and no tag for a rectangle, black
    for a text.  Coordinates are kept as the integers they are given as. *)
Inductive item : Type :=
| rectangle (x0 y0 x1 y1 : Z) (outline fill : string) (tags : list string)
| text (x y : Z) (txt fill : string).

(** A canvas: its size and its items in the order of their creation.  The
    identifier of an item is its position in that order, from 1. *)
Record Canvas : Type := mkCanvas {
  width : Z;
  height : Z;
  items : list item
}.

(** [tk.Canvas(root, width=w, height=h)] *)
Definition new_Canvas (w h : Z) : Canvas := mkCanvas w h [].

(** [canvas.create_rectangle(...)], [canvas.create_text(...)]: the new
    item's identifier and the canvas with the item. *)
Definition create (it : item) (canvas : Canvas) : Z * Canvas :=
  (Py.len (items canvas) + 1,
   mkCanvas (width canvas) (height canvas) (items canvas ++ [it])).

Definition lookup (canvas : Canvas) (id : Z) : option item :=
  if id <=? 0 then None else nth_error (items canvas) (Z.to_nat (id - 1)).

Definition update (id : Z) (it : item) (canvas : Canvas) : Canvas :=
  mkCanvas (width canvas) (height canvas)
    (replace_nth (Z.to_nat (id - 1)) it (items canvas)).

(** [canvas.itemconfig(id, fill=colour)]; nothing happens when the canvas
    has no such item. *)
Definition itemconfig_fill (id : Z) (colour : string) (canvas : Canvas)
  : Canvas :=
  match lookup canvas id with
  | Some (rectangle x0 y0 x1 y1 outline _ tags) =>
      update id (rectangle x0 y0 x1 y1 outline colour tags) canvas
  | Some (text x y txt _) => update id (text x y txt colour) canvas
  | None => canvas
  end.

(** [canvas.itemconfig(id, text=txt)]: a rectangle has no such option. *)
Definition itemconfig_text (id : Z) (txt : string) (canvas : Canvas)
  : Gui.result Canvas :=
  match lookup canvas id with
  | Some (text x y _ fill) => Gui.Ok (update id (text x y txt fill) canvas)
  | Some (rectangle _ _ _ _ _ _ _) => Gui.Raise Gui.TclError
  | None => Gui.Ok canvas
  end.

(** [canvas.find_withtag(tag)]: the items that carry the tag, in the order
    of their creation. *)
Definition has_tag (tag : string) (it : item) : bool :=
  match it with
  | rectangle _ _ _ _ _ _ tags => existsb (String.eqb tag) tags
  | text _ _ _ _ => false
  end.

Definition find_withtag (tag : string) (canvas : Canvas) : list Z :=
  map fst (filter (fun p => has_tag tag (snd p))
                  (combine (Py.range2 1 (Py.len (items canvas) + 1))
                           (items canvas))).

(** [canvas.coords(id)]: a rectangle gives its corners in increasing
    order, whichever way round it was created. *)
Definition coords (id : Z) (canvas : Canvas) : list Z :=
  match lookup canvas id with
  | Some (rectangle x0 y0 x1 y1 _ _ _) =>
      [Z.min x0 x1; Z.min y0 y1; Z.max x0 x1; Z.max y0 y1]
  | Some (text x y _ _) => [x; y]
  | None => []
  end.

End Tk.

(** ** The class [SchedulingPainter] *)

Module Painter.

(** The configuration dictionary of the painter: six integers. *)
Record Config : Type := mkConfig {
  pp_size : Z;
  pp_height : Z;
  pp_align : Z;
  pixel_base : Z;
  forward_length : Z;
  backward_length : Z
}.

(** The attributes of a [SchedulingPainter] object, its window apart. *)
Record SchedulingPainter : Type := mkSchedulingPainter {
  _pp_size : Z;
  _pp_height : Z;
  _pp_align : Z;
  _pixel_base : Z;
  _forward_length : Z;
  _backward_length : Z;
  _highlight_state : list (Z * bool);
  _item2color : list (Z * string);
  _item2block : list (Z * Z);
  _item2mid : list (Z * Z)
}.

Definition __init__ (config : Config) : SchedulingPainter :=
  mkSchedulingPainter (pp_size config) (pp_height config) (pp_align config)
    (pixel_base config)
    (forward_length config * pixel_base config)
    (backward_length config * pixel_base config)
    [] [] [] [].

Definition set_highlight_state (d : list (Z * bool))
    (self : SchedulingPainter) : SchedulingPainter :=
  mkSchedulingPainter (_pp_size self) (_pp_height self) (_pp_align self)
    (_pixel_base self) (_forward_length self) (_backward_length self)
    d (_item2color self) (_item2block self) (_item2mid self).

Definition set_item2color (d : list (Z * string))
    (self : SchedulingPainter) : SchedulingPainter :=
  mkSchedulingPainter (_pp_size self) (_pp_height self) (_pp_align self)
    (_pixel_base self) (_forward_length self) (_backward_length self)
    (_highlight_state self) d (_item2block self) (_item2mid self).

Definition set_item2block (d : list (Z * Z))
    (self : SchedulingPainter) : SchedulingPainter :=
  mkSchedulingPainter (_pp_size self) (_pp_height self) (_pp_align self)
    (_pixel_base self) (_forward_length self) (_backward_length self)
    (_highlight_state self) (_item2color self) d (_item2mid self).

Definition set_item2mid (d : list (Z * Z))
    (self : SchedulingPainter) : SchedulingPainter :=
  mkSchedulingPainter (_pp_size self) (_pp_height self) (_pp_align self)
    (_pixel_base self) (_forward_length self) (_backward_length self)
    (_highlight_state self) (_item2color self) (_item2block self) d.

Definition _highlight_and_resume_block (item_id : Z)
    (st : SchedulingPainter * Tk.Canvas)
  : Gui.result (SchedulingPainter * Tk.Canvas) :=
  let (self, canvas) := st in
  highlighted <~ Gui.getitem (_highlight_state self) item_id;;
  if highlighted : bool then
    let self :=
      set_highlight_state
        (Gui.setitem item_id false (_highlight_state self)) self in
    colour <~ Gui.getitem (_item2color self) item_id;;
    Gui.Ok (self, Tk.itemconfig_fill item_id colour canvas)
  else
    let self :=
      set_highlight_state
        (Gui.setitem item_id true (_highlight_state self)) self in
    Gui.Ok (self, Tk.itemconfig_fill item_id "yellow" canvas).

Definition _parse_microbatch_key (key : string)
  : Gui.result (bool * Z * Z) :=
  let is_forward := Str.startswith key "f" in
  match tl (Str.split key "_") with
  | [mid; pid] =>
      pid <~ Str.int pid;;
      mid <~ Str.int mid;;
      Gui.Ok (is_forward, pid, mid)
  | _ => Gui.Raise Gui.ValueError
  end.

(** What [draw] has put on the screen when it enters the main loop: the
    canvas of the labels, the main canvas, and the item that shows the
    coordinates of the block clicked last. *)
Record Window : Type := mkWindow {
  label_canvas : Tk.Canvas;
  main_canvas : Tk.Canvas;
  coords_label : Z
}.

(** The tag of a block. *)
Definition tag_of (pid mid : Z) (fb : string) : string :=
  ("p_" ++ Py.str pid ++ "_m_" ++ Py.str mid ++ "_" ++ fb)%string.

(** The body of the third loop of [draw]: the block of one entry of the
    data. *)
Definition draw_block (entry : string * Z)
    (st : SchedulingPainter * Tk.Canvas)
  : Gui.result (SchedulingPainter * Tk.Canvas) :=
  let (microbatch_key, offset) := entry in
  let (self, main_canvas) := st in
  parsed <~ _parse_microbatch_key microbatch_key;;
  let '(is_forward, pid, mid) := parsed in
  let x0 := _pp_align self + offset in
  let y0 := (_pp_height self + _pp_align self) * pid + 5 in
  let x1 :=
    x0 + (if is_forward : bool then _forward_length self
          else _backward_length self) in
  let y1 := (_pp_height self + _pp_align self) * (pid + 1) - 5 in
  let tag := tag_of pid mid (if is_forward then "f" else "b") in
  let color := if is_forward then "#00FF7F" else "#00BFFF" in
  let (block, main_canvas) :=
    Tk.create (Tk.rectangle x0 y0 x1 y1 "black" color [tag]) main_canvas in
  let (text, main_canvas) :=
    Tk.create
      (Tk.text ((x0 + x1) / 2) ((y0 + y1) / 2) (Py.str (mid + 1)) "black")
      main_canvas in
  let self :=
    set_highlight_state
      (Gui.setitem block false (_highlight_state self)) self in
  let self :=
    set_item2color (Gui.setitem block color (_item2color self)) self in
  let self :=
    set_item2block (Gui.setitem block block (_item2block self)) self in
  let self :=
    set_item2block (Gui.setitem text block (_item2block self)) self in
  let self :=
    set_item2mid (Gui.setitem block mid (_item2mid self)) self in
  Gui.Ok (self, main_canvas).

(** The body of the second loop of [draw]: the timeline of one stage. *)
Definition draw_timeline (self : SchedulingPainter) (canvas_width : Z)
    (pid : Z) (main_canvas : Tk.Canvas) : Tk.Canvas :=
  let x0 := _pp_align self in
  let y0 := (_pp_height self + _pp_align self) * pid + 5 in
  let x1 := canvas_width - _pp_align self in
  let y1 := (_pp_height self + _pp_align self) * (pid + 1) - 5 in
  snd (Tk.create (Tk.rectangle x0 y0 x1 y1 "black" EmptyString [])
                 main_canvas).

(** [draw], up to the point where it hands over to the main loop of
    tkinter. *)
Definition draw (self : SchedulingPainter) (data : list (string * Z))
  : Gui.result (SchedulingPainter * Window) :=
  (* Convert data offset to pixels *)
  let data := map (fun kv => (fst kv, snd kv * _pixel_base self)) data in
  m <~ Gui.max (map snd data);;
  let canvas_width := m + _backward_length self + 2 * _pp_align self in
  let canvas_height := (_pp_height self + _pp_align self) * _pp_size self in
  (* 0. Create label canvas *)
  let label_canvas := Tk.new_Canvas canvas_width 30 in
  let y_label := (0 + 30) / 2 + 5 in
  let (_, label_canvas) :=
    Tk.create
      (Tk.text (_pp_align self + 55) y_label "MinExecutionTime:" "black")
      label_canvas in
  m <~ Gui.max (map snd data);;
  t <~ Gui.lift (Py.floordiv (m + _backward_length self) (_pixel_base self));;
  let (_, label_canvas) :=
    Tk.create (Tk.text (_pp_align self + 127) y_label (Py.str t) "black")
              label_canvas in
  let (_, label_canvas) :=
    Tk.create (Tk.text (canvas_width - _pp_align self - 137) y_label
                       "CurrentBlockCoords:" "black")
              label_canvas in
  let (coords_label, label_canvas) :=
    Tk.create (Tk.text (canvas_width - _pp_align self - 37) y_label
                       "(start,end)" "black")
              label_canvas in
  (* 1. Create main canvas *)
  let main_canvas := Tk.new_Canvas canvas_width canvas_height in
  (* 2. Add timeline for each pipeline *)
  let main_canvas :=
    fold_left (fun canvas pid => draw_timeline self canvas_width pid canvas)
              (Py.range (_pp_size self)) main_canvas in
  (* 3. Draw execution block for each microbatch *)
  st <~ Gui.for_ data draw_block (self, main_canvas);;
  let (self, main_canvas) := st in
  Gui.Ok (self, mkWindow label_canvas main_canvas coords_label).

(** [_trigger_hook], the reaction to a click; [current] is what
    [main_canvas.find_withtag("current")] returns, the item under the
    pointer if there is one.  (tkinter hands the coordinates back as
    floats, which [int] turns into the integers again.) *)
Definition _trigger_hook (current : list Z)
    (st : SchedulingPainter * Window)
  : Gui.result (SchedulingPainter * Window) :=
  let (self, window) := st in
  let items := current in
  if Py.len items =? 0 then Gui.Ok st
  else
    first <~ Gui.lift (Py.getitem items 0);;
    current_item <~ Gui.getitem (_item2block self) first;;
    if negb (Gui.contains (_highlight_state self) current_item)
    then Gui.Ok st
    else
      let item_coords := Tk.coords current_item (main_canvas window) in
      x0 <~ Gui.lift (Py.getitem item_coords 0);;
      current_start <~
        Gui.lift (Py.floordiv (x0 - _pp_align self) (_pixel_base self));;
      x1 <~ Gui.lift (Py.getitem item_coords 2);;
      current_end <~
        Gui.lift (Py.floordiv (x1 - _pp_align self) (_pixel_base self));;
      label_canvas <~
        Tk.itemconfig_text (coords_label window)
          ("(" ++ Py.str current_start ++ "," ++ Py.str current_end ++ ")")
          (label_canvas window);;
      tags <~
        Gui.for_
          (flat_map (fun pid => [(pid, "f"); (pid, "b")])
                    (Py.range (_pp_size self)))
          (fun p tags =>
             mid <~ Gui.getitem (_item2mid self) current_item;;
             Gui.Ok (tags ++ [tag_of (fst p) mid (snd p)]))
          [];;
      items_same_microbatch <~
        Gui.for_ tags
          (fun tag found_so_far =>
             let found := Tk.find_withtag tag (main_canvas window) in
             if negb (Py.len found =? 0) then
               item <~ Gui.lift (Py.getitem found 0);;
               Gui.Ok (found_so_far ++ [item])
             else Gui.Ok found_so_far)
          [];;
      st <~
        Gui.for_ items_same_microbatch _highlight_and_resume_block
          (self, main_canvas window);;
      let (self, main_canvas) := st in
      Gui.Ok (self, mkWindow label_canvas main_canvas (coords_label window)).

End Painter.

(** ** The simulator and the painter *)

(** [Simulator._draw] *)
Definition _draw (self : Simulator) (results : list (string * Z))
  : Gui.result (Painter.SchedulingPainter * Painter.Window) :=
  let painter_conf :=
    Painter.mkConfig (_pp_size self) 50 10 10
      (_forward_length self) (_backward_length self) in
  Painter.draw (Painter.__init__ painter_conf) results.

(** [run] with its step 4: the lines printed and, when the solver
    answers [sat], the window drawn.  ([_draw] reads three attributes that
    nothing assigns after the constructor.) *)
Definition run_and_draw (check : Optimize -> CheckSatResult)
    (model : Optimize -> list (const * Z)) (self : Simulator)
  : Gui.result
      (list string * option (Painter.SchedulingPainter * Painter.Window)) :=
  out <~ Gui.lift (run check model self);;
  match drawn out with
  | Some results =>
      shown <~ _draw self results;;
      Gui.Ok (printed out, Some shown)
  | None => Gui.Ok (printed out, None)
  end.

(** ** The picture of a schedule *)

(** A block at its stage, its variable, and the lists that hold every
    block of [P] stages and [M] microbatches once. *)
Definition placed : Type := (Z * block)%type.

Definition block_const (pb : placed) : const :=
  match fst (snd pb) with
  | forward => f_ (snd (snd pb)) (fst pb)
  | backward => b_ (snd (snd pb)) (fst pb)
  end.

Definition all_blocks (P M : Z) (blocks : list placed) : Prop :=
  NoDup blocks
  /\ forall pb, In pb blocks
       <-> 0 <= fst pb < P /\ 0 <= snd (snd pb) < M.

Definition placed_eqb (pb1 pb2 : placed) : bool :=
  (fst pb1 =? fst pb2)
  && (snd (snd pb1) =? snd (snd pb2))
  && match fst (snd pb1), fst (snd pb2) with
     | forward, forward | backward, backward => true
     | _, _ => false
     end.

(** The values that a model gives to the variables of the blocks, and
    the dictionary that [run] makes of them. *)
Definition entries (sigma : assignment) (blocks : list placed)
  : list (const * Z) :=
  map (fun pb => (block_const pb, sigma (block_const pb))) blocks.

Definition results_of (sigma : assignment) (blocks : list placed)
  : list (string * Z) :=
  map (fun kv => (Z3.name (fst kv), snd kv)) (entries sigma blocks).

(** The items of a window drawn by [_draw]: stage heights of 50, margins
    of 10 and 10 pixels to the time unit. *)
Section Picture.

Variables (sigma : assignment) (P Df Db : Z).

Definition letter (b : block) : string :=
  match fst b with
  | forward => "f"
  | backward => "b"
  end.

Definition colour (b : block) : string :=
  match fst b with
  | forward => "#00FF7F"
  | backward => "#00BFFF"
  end.

Definition timeline (canvas_width pid : Z) : Tk.item :=
  Tk.rectangle 10 (60 * pid + 5) (canvas_width - 10) (60 * (pid + 1) - 5)
    "black" EmptyString [].

(** The rectangle of a block, filled with [fill], and its number. *)
Definition block_rectangle (fill : string) (pb : placed) : Tk.item :=
  let (pp, b) := pb in
  Tk.rectangle (10 + 10 * start sigma pp b) (60 * pp + 5)
    (10 + 10 * (start sigma pp b + duration Df Db b)) (60 * (pp + 1) - 5)
    "black" fill [Painter.tag_of pp (snd b) (letter b)].

Definition block_text (pb : placed) : Tk.item :=
  let (pp, b) := pb in
  Tk.text (10 + 10 * start sigma pp b + 5 * duration Df Db b) (60 * pp + 30)
    (Py.str (snd b + 1)) "black".

(** The main canvas: the timelines of the stages, then the blocks in the
    order of the data, those that [highlighted] selects in yellow. *)
Definition shown_fill (highlighted : placed -> bool) (pb : placed)
  : string :=
  if highlighted pb then "yellow" else colour (snd pb).

Definition picture (canvas_width : Z) (highlighted : placed -> bool)
    (blocks : list placed) : list Tk.item :=
  map (timeline canvas_width) (Py.range P)
  ++ flat_map (fun pb => [block_rectangle (shown_fill highlighted pb) pb;
                          block_text pb])
              blocks.

(** The canvas of the labels, showing [time] and [coordinates]. *)
Definition labels (canvas_width : Z) (time coordinates : string)
  : list Tk.item :=
  [Tk.text 65 20 "MinExecutionTime:" "black";
   Tk.text 137 20 time "black";
   Tk.text (canvas_width - 147) 20 "CurrentBlockCoords:" "black";
   Tk.text (canvas_width - 47) 20 coordinates "black"].

(** The blocks with the identifiers of their rectangles, from [first]
    on: a rectangle and its text take two identifiers. *)
Fixpoint numbered (first : Z) (blocks : list placed) : list (Z * placed) :=
  match blocks with
  | [] => []
  | pb :: blocks' => (first, pb) :: numbered (first + 2) blocks'
  end.

(** The identifier of the rectangle of a block. *)
Fixpoint rectangle_id (first : Z) (blocks : list placed) (pb : placed) : Z :=
  match blocks with
  | [] => 0
  | pb' :: blocks' =>
      if placed_eqb pb' pb then first
      else rectangle_id (first + 2) blocks' pb
  end.

(** The highlighting after a click on the blocks that [which] selects. *)
Definition toggled (which highlighted : placed -> bool) : placed -> bool :=
  fun pb => if which pb then negb (highlighted pb) else highlighted pb.

(** The painter once the blocks are drawn. *)
Definition painter_with (highlighted : placed -> bool)
    (blocks : list placed) : Painter.SchedulingPainter :=
  let ids := numbered (P + 1) blocks in
  Painter.mkSchedulingPainter P 50 10 10 (Df * 10) (Db * 10)
    (map (fun ib => (fst ib, highlighted (snd ib))) ids)
    (map (fun ib => (fst ib, colour (snd (snd ib)))) ids)
    (flat_map (fun ib => [(fst ib, fst ib); (fst ib + 1, fst ib)]) ids)
    (map (fun ib => (fst ib, snd (snd (snd ib)))) ids).

(** The window. *)
Definition window_with (canvas_width : Z) (coordinates : string)
    (highlighted : placed -> bool) (blocks : list placed)
    (time : string) : Painter.Window :=
  Painter.mkWindow
    (Tk.mkCanvas canvas_width 30 (labels canvas_width time coordinates))
    (Tk.mkCanvas canvas_width (60 * P)
       (picture canvas_width highlighted blocks))
    4.

End Picture.

(** A rectangle within another, and two rectangles whose interiors do
    not meet. *)
Definition inside (it frame : Tk.item) : Prop :=
  match it, frame with
  | Tk.rectangle x0 y0 x1 y1 _ _ _, Tk.rectangle fx0 fy0 fx1 fy1 _ _ _ =>
      fx0 <= x0 /\ x1 <= fx1 /\ fy0 <= y0 /\ y1 <= fy1
  | _, _ => False
  end.

Definition apart (it1 it2 : Tk.item) : Prop :=
  match it1, it2 with
  | Tk.rectangle x0 y0 x1 y1 _ _ _, Tk.rectangle x0' y0' x1' y1' _ _ _ =>
      x1 <= x0' \/ x1' <= x0 \/ y1 <= y0' \/ y1' <= y0
  | _, _ => False
  end.

(** * The embedding at work *)

Example range_examples :
  (Py.range 3, Py.range2 1 4, Py.range3 3 0 (-1), Py.range3 0 0 (-1),
   Py.range (-2))
  = ([0; 1; 2], [1; 2; 3], [3; 2; 1], [], []).
Proof. reflexivity. Qed.

Example getitem_examples :
  (Py.getitem [10; 20; 30] 0, Py.getitem [10; 20; 30] (-1),
   Py.getitem [10; 20; 30] 3, Py.getitem [10; 20; 30] (-4),
   Py.getitem (@nil Z) (-1))
  = (Ok 10, Ok 30, Raise IndexError, Raise IndexError, Raise IndexError).
Proof. reflexivity. Qed.

Example permutations_example :
  Py.permutations (Py.range 3)
  = [[0; 1; 2]; [0; 2; 1]; [1; 0; 2]; [1; 2; 0]; [2; 0; 1]; [2; 1; 0]].
Proof. reflexivity. Qed.

Example name_example :
  (Z3.name (f_ 3 12), Z3.name (b_ 0 1), Z3.name max_start_offset)
  = ("f_3_12", "b_0_1", "max_start_offset").
Proof. reflexivity. Qed.

(** One stage, one microbatch, full interleaving: everything handed to
    the solver. *)
Example single_stage_problem :
  encode_config (config_of 1 1 [1] 1 1 full_interleaving)
  = Ok (mkOptimize
          [Ge (Int (f_ 0 0)) (IntVal 0);
           Ge (Int (b_ 0 0)) (IntVal 0);
           Or [And [Ge (Int (b_ 0 0)) (Add (Int (f_ 0 0)) (IntVal 1))]];
           Or [Ge (Int (b_ 0 0)) (Add (Int (f_ 0 0)) (IntVal 1));
               Le (Add (Int (b_ 0 0)) (IntVal 1)) (Int (f_ 0 0))];
           BoolVal true;
           Ge (Int max_start_offset) (Int (b_ 0 0))]
          [Int max_start_offset]).
Proof. reflexivity. Qed.

(** Two stages, strict order: the chain of microbatch 0. *)
Example strict_chain_example :
  (self <- __init__ (config_of 2 1 [1; 1] 2 3 strict);;
   self <- declare_offsets self;;
   self <- _sequential_order_constraint_strict
             (set_solver Z3.new_Optimize self);;
   Ok (assertions (_solver self)))
  = Ok [Ge (Int (f_ 0 1)) (Add (Int (f_ 0 0)) (IntVal 2));
        Ge (Int (b_ 0 0)) (Add (Int (b_ 0 1)) (IntVal 3));
        Ge (Int (b_ 0 1)) (Add (Int (f_ 0 1)) (IntVal 2))].
Proof. reflexivity. Qed.

(** The capacity constraint of microbatch 1 among three, at stage 0. *)
Example capacity_term_example :
  count_le (count_term 3 0 1) 2
  = Le (Add (Add (IntVal 1)
                 (If (And [Gt (Int (b_ 0 0)) (Int (b_ 1 0));
                           Lt (Int (f_ 0 0)) (Int (b_ 1 0))])
                     (IntVal 1) (IntVal 0)))
            (If (And [Gt (Int (b_ 2 0)) (Int (b_ 1 0));
                      Lt (Int (f_ 2 0)) (Int (b_ 1 0))])
                (IntVal 1) (IntVal 0)))
       (IntVal 2).
Proof. reflexivity. Qed.

(** Without a stage the ordering encoders index an empty list. *)
Example no_stage_example :
  encode_config (config_of 0 1 [] 1 1 strict) = Raise IndexError.
Proof. reflexivity. Qed.

(** [run] on the single-stage problem, with a solver that answers sat and
    returns the schedule "forward at 0, backward at 1". *)
Example run_example :
  (self <- __init__ (config_of 1 1 [1] 1 1 strict);;
   run (fun _ => sat)
       (fun _ => [(f_ 0 0, 0); (b_ 0 0, 1); (max_start_offset, 1)])
       self)
  = Ok (mkOutcome ["Z3 Solver Solving..."; "Result: SAT"]
                  (Some [("f_0_0", 0); ("b_0_0", 1)])).
Proof. reflexivity. Qed.
(** * Facts about the Python layer *)

Section PyFacts.

Lemma range_eq (n : Z) : Py.range n = map Z.of_nat (seq 0 (Z.to_nat n)).
Proof.
  unfold Py.range, Py.range3. simpl (0 <? 1).
  cbv iota. rewrite Z.div_1_r.
  replace (n - 0 + 1 - 1) with n by lia.
  apply map_ext. intros k. lia.
Qed.

Lemma range2_eq (a b : Z) :
  Py.range2 a b = map (fun k => a + Z.of_nat k) (seq 0 (Z.to_nat (b - a))).
Proof.
  unfold Py.range2, Py.range3. simpl (0 <? 1).
  cbv iota. rewrite Z.div_1_r.
  replace (b - a + 1 - 1) with (b - a) by lia.
  apply map_ext. intros k. lia.
Qed.

Lemma range3_down_eq (a b : Z) :
  Py.range3 a b (-1)
  = map (fun k => a - Z.of_nat k) (seq 0 (Z.to_nat (a - b))).
Proof.
  unfold Py.range3. simpl (0 <? -1). cbv iota.
  replace (- -1) with 1 by lia. rewrite Z.div_1_r.
  replace (a - b - -1 - 1) with (a - b) by lia.
  apply map_ext. intros k. lia.
Qed.

Lemma in_range (n x : Z) : In x (Py.range n) <-> 0 <= x < n.
Proof.
  rewrite range_eq, in_map_iff. split.
  - intros (k & <- & Hk). apply in_seq in Hk. lia.
  - intros H. exists (Z.to_nat x). rewrite in_seq. lia.
Qed.

Lemma in_range2 (a b x : Z) : In x (Py.range2 a b) <-> a <= x < b.
Proof.
  rewrite range2_eq, in_map_iff. split.
  - intros (k & <- & Hk). apply in_seq in Hk. lia.
  - intros H. exists (Z.to_nat (x - a)). rewrite in_seq. lia.
Qed.

Lemma in_range3_down (a b x : Z) :
  In x (Py.range3 a b (-1)) <-> b < x <= a.
Proof.
  rewrite range3_down_eq, in_map_iff. split.
  - intros (k & <- & Hk). apply in_seq in Hk. lia.
  - intros H. exists (Z.to_nat (a - x)). rewrite in_seq. lia.
Qed.

Lemma length_range (n : Z) : List.length (Py.range n) = Z.to_nat n.
Proof. rewrite range_eq, length_map, length_seq. reflexivity. Qed.

Lemma len_range (n : Z) : 0 <= n -> Py.len (Py.range n) = n.
Proof. intros H. unfold Py.len. rewrite length_range. lia. Qed.

Lemma range_nonpos (n : Z) : n <= 0 -> Py.range n = [].
Proof.
  intros H. rewrite range_eq. replace (Z.to_nat n) with O by lia.
  reflexivity.
Qed.

Lemma range_succ (n : Z) :
  0 <= n -> Py.range (n + 1) = Py.range n ++ [n].
Proof.
  intros H. rewrite !range_eq.
  replace (Z.to_nat (n + 1)) with (S (Z.to_nat n)) by lia.
  rewrite seq_S, map_app. simpl. f_equal. f_equal. lia.
Qed.

(** The descending range is the ascending one reversed. *)
Lemma range3_down_rev (n : Z) :
  Py.range3 (n - 1) 0 (-1) = rev (Py.range2 1 n).
Proof.
  rewrite range3_down_eq, range2_eq.
  replace (n - 1 - 0) with (n - 1) by lia.
  remember (Z.to_nat (n - 1)) as k eqn:Hk.
  assert (Hn : Z.of_nat k = Z.max 0 (n - 1)) by lia.
  clear Hk. revert n Hn. induction k as [|k IH]; intros n Hn.
  - reflexivity.
  - rewrite seq_S at 2. rewrite map_app, rev_app_distr.
    cbn [seq map rev app Nat.add].
    rewrite <- seq_shift, map_map. f_equal; [lia|].
    rewrite <- (IH (n - 1)) by lia.
    apply map_ext. intros j. lia.
Qed.

Context {A : Type}.

Lemma getitem_nth (l : list A) (i : Z) (d : A) :
  0 <= i < Py.len l -> Py.getitem l i = Ok (nth (Z.to_nat i) l d).
Proof.
  intros H. unfold Py.getitem, Py.len in *.
  destruct (i <? 0) eqn:E; [apply Z.ltb_lt in E; lia|].
  rewrite E.
  destruct (nth_error l (Z.to_nat i)) as [a|] eqn:En.
  - f_equal. symmetry. apply nth_error_nth. exact En.
  - apply nth_error_None in En. lia.
Qed.

Lemma getitem_map_range (f : Z -> A) (n i : Z) :
  0 <= i < n -> Py.getitem (map f (Py.range n)) i = Ok (f i).
Proof.
  intros H. rewrite (getitem_nth _ _ (f 0)).
  - rewrite range_eq, map_map.
    change (f 0) with ((fun k => f (Z.of_nat k)) O).
    rewrite map_nth, seq_nth by lia. simpl. f_equal. f_equal. lia.
  - unfold Py.len. rewrite length_map, length_range. lia.
Qed.

Lemma getitem_last (l : list A) (x : A) :
  Py.getitem (l ++ [x]) (-1) = Ok x.
Proof.
  unfold Py.getitem, Py.len. change (-1 <? 0) with true. cbv iota.
  rewrite length_app. simpl List.length.
  destruct (Z.of_nat (List.length l + 1) + -1 <? 0) eqn:E;
    [apply Z.ltb_lt in E; lia|].
  replace (Z.to_nat (Z.of_nat (List.length l + 1) + -1))
    with (List.length l) by lia.
  rewrite nth_error_app2 by lia. rewrite Nat.sub_diag. reflexivity.
Qed.

Lemma getitem_out_of_range (l : list A) (i : Z) :
  Py.len l <= i -> Py.getitem l i = Raise IndexError.
Proof.
  intros H. unfold Py.getitem, Py.len in *.
  destruct (i <? 0) eqn:E; [apply Z.ltb_lt in E; lia|].
  rewrite E.
  destruct (nth_error l (Z.to_nat i)) as [a|] eqn:En; [|reflexivity].
  assert (Hl : (Z.to_nat i < List.length l)%nat).
  { apply nth_error_Some. congruence. }
  lia.
Qed.

End PyFacts.

(** * Loops *)

Section Loops.

Context {A B S : Type}.

Lemma comprehension_map (e : A -> Py.result B) (g : A -> B) (l : list A) :
  (forall x, In x l -> e x = Ok (g x)) ->
  Py.comprehension e l = Ok (map g l).
Proof.
  induction l as [|x l IH]; intros H; [reflexivity|].
  cbn [Py.comprehension map]. rewrite (H x) by (left; reflexivity).
  cbn [Py.bind]. rewrite IH by (intros y Hy; apply H; right; exact Hy).
  reflexivity.
Qed.

Lemma comprehension_ext (e e' : A -> Py.result B) (l : list A) :
  (forall x, In x l -> e x = e' x) ->
  Py.comprehension e l = Py.comprehension e' l.
Proof.
  induction l as [|x l IH]; intros H; [reflexivity|].
  cbn [Py.comprehension]. rewrite (H x) by (left; reflexivity).
  rewrite IH by (intros y Hy; apply H; right; exact Hy).
  reflexivity.
Qed.

(** A loop that appends one computed element per iteration. *)
Lemma for_append (e : A -> Py.result B) (g : A -> B) (l : list A) :
  (forall x, In x l -> e x = Ok (g x)) ->
  forall acc,
    Py.for_ l (fun x acc => c <- e x;; Ok (acc ++ [c])) acc
    = Ok (acc ++ map g l).
Proof.
  induction l as [|x l IH]; intros H acc.
  - cbn. rewrite app_nil_r. reflexivity.
  - cbn [Py.for_ map]. rewrite (H x) by (left; reflexivity).
    cbn [Py.bind]. rewrite IH by (intros y Hy; apply H; right; exact Hy).
    rewrite <- app_assoc. reflexivity.
Qed.

(** A loop whose body cannot raise is a left fold. *)
Lemma for_fold (h : A -> S -> S) (l : list A) (s : S) :
  Py.for_ l (fun x s => Ok (h x s)) s = Ok (fold_left (fun s x => h x s) l s).
Proof.
  revert s. induction l as [|x l IH]; intros s; [reflexivity|].
  cbn [Py.for_ Py.bind fold_left]. apply IH.
Qed.

Lemma for_ext (body body' : A -> S -> Py.result S) (l : list A) (s : S) :
  (forall x s, In x l -> body x s = body' x s) ->
  Py.for_ l body s = Py.for_ l body' s.
Proof.
  revert s. induction l as [|x l IH]; intros s H; [reflexivity|].
  cbn [Py.for_]. rewrite (H x s) by (left; reflexivity).
  destruct (body' x s) as [s'|e]; [|reflexivity].
  cbn [Py.bind]. apply IH. intros y s0 Hy. apply H. right. exact Hy.
Qed.

Lemma for_app (body : A -> S -> Py.result S) (l1 l2 : list A) (s : S) :
  Py.for_ (l1 ++ l2) body s = Py.bind (Py.for_ l1 body s) (Py.for_ l2 body).
Proof.
  revert s. induction l1 as [|x l1 IH]; intros s; [reflexivity|].
  cbn [Py.for_ app]. destruct (body x s) as [s'|e]; [|reflexivity].
  cbn [Py.bind]. apply IH.
Qed.

End Loops.

(** * The solver as an append-only log *)

Lemma add_all_nil (self : Simulator) : add_all [] self = self.
Proof.
  destruct self as [? ? ? ? ? ? [a o] ? ?]. unfold add_all, set_solver.
  cbn. rewrite app_nil_r. reflexivity.
Qed.

Lemma add_all_app (cs cs' : list boolref) (self : Simulator) :
  add_all cs' (add_all cs self) = add_all (cs ++ cs') self.
Proof.
  unfold add_all, set_solver. cbn. rewrite app_assoc. reflexivity.
Qed.

Lemma solver_add_add_all (c : boolref) (cs : list boolref)
    (self : Simulator) :
  solver_add c (add_all cs self) = add_all (cs ++ [c]) self.
Proof.
  unfold solver_add, add_all, set_solver, Z3.add. cbn.
  rewrite app_assoc. reflexivity.
Qed.

Lemma solver_add_eq (c : boolref) (self : Simulator) :
  solver_add c self = add_all [c] self.
Proof. reflexivity. Qed.

(** A loop in which every iteration only adds constraints, the same ones
    whatever was added before. *)
Lemma for_add_all {A} (l : list A)
    (body : A -> Simulator -> Py.result Simulator)
    (g : A -> list boolref) (self : Simulator) :
  (forall x cs, In x l ->
     body x (add_all cs self) = Ok (add_all (cs ++ g x) self)) ->
  forall cs,
    Py.for_ l body (add_all cs self)
    = Ok (add_all (cs ++ flat_map g l) self).
Proof.
  induction l as [|x l IH]; intros H cs.
  - cbn. rewrite app_nil_r. reflexivity.
  - cbn [Py.for_ flat_map]. rewrite (H x cs) by (left; reflexivity).
    cbn [Py.bind]. rewrite IH by (intros y cs' Hy; apply H; right; exact Hy).
    rewrite <- app_assoc. reflexivity.
Qed.

Lemma for_add_all0 {A} (l : list A)
    (body : A -> Simulator -> Py.result Simulator)
    (g : A -> list boolref) (self : Simulator) :
  (forall x cs, In x l ->
     body x (add_all cs self) = Ok (add_all (cs ++ g x) self)) ->
  Py.for_ l body self = Ok (add_all (flat_map g l) self).
Proof.
  intros H. rewrite <- (add_all_nil self) at 1.
  rewrite (for_add_all l body g self H []). reflexivity.
Qed.

(** * Permutations *)

Section Permutations.

Context {A : Type}.

Lemma in_selections (x : A) (r l : list A) :
  In (x, r) (Py.selections l)
  <-> exists l1 l2, l = l1 ++ x :: l2 /\ r = l1 ++ l2.
Proof.
  revert r. induction l as [|y l IH]; intros r; cbn [Py.selections].
  - split; [intros []|]. intros (l1 & l2 & H & _). destruct l1; discriminate.
  - split.
    + intros [H|H].
      * injection H as -> ->. exists [], r. split; reflexivity.
      * apply in_map_iff in H. destruct H as ([x' r'] & Heq & Hin).
        cbn in Heq. inversion Heq; subst.
        apply IH in Hin. destruct Hin as (l1 & l2 & -> & ->).
        exists (y :: l1), l2. split; reflexivity.
    + intros (l1 & l2 & Hl & Hr). destruct l1 as [|z l1].
      * cbn in Hl, Hr. inversion Hl; subst. left. reflexivity.
      * cbn in Hl, Hr. inversion Hl; subst. right.
        apply in_map_iff. exists (x, l1 ++ l2). split; [reflexivity|].
        apply IH. exists l1, l2. split; reflexivity.
Qed.

Lemma in_permutations_upto (n : nat) (l p : list A) :
  List.length l = n ->
  In p (Py.permutations_upto n l) <-> Permutation l p.
Proof.
  revert l p. induction n as [|n IH]; intros l p Hl.
  - destruct l; [|discriminate]. cbn. split.
    + intros [<-|[]]. constructor.
    + intros H. apply Permutation_nil in H. left. symmetry. exact H.
  - cbn [Py.permutations_upto]. rewrite in_flat_map. split.
    + intros ([x r] & Hs & Hp). cbn [fst snd] in Hp.
      apply in_map_iff in Hp. destruct Hp as (p' & <- & Hp').
      apply in_selections in Hs. destruct Hs as (l1 & l2 & -> & ->).
      apply IH in Hp'.
      * apply Permutation_sym, Permutation_cons_app, Permutation_sym.
        exact Hp'.
      * rewrite length_app in *. cbn in Hl. lia.
    + intros H. destruct p as [|x p'].
      * apply Permutation_sym, Permutation_nil in H. subst. discriminate.
      * assert (Hx : In x l).
        { apply (Permutation_in x (Permutation_sym H)). left. reflexivity. }
        apply in_split in Hx. destruct Hx as (l1 & l2 & ->).
        exists (x, l1 ++ l2). split.
        -- apply in_selections. exists l1, l2. split; reflexivity.
        -- cbn [fst snd]. apply in_map. apply IH.
           ++ rewrite length_app in *. cbn in Hl. lia.
           ++ apply Permutation_sym in H.
              apply Permutation_cons_app_inv in H.
              apply Permutation_sym. exact H.
Qed.

(** [itertools.permutations] yields exactly the rearrangements. *)
Lemma in_permutations (l p : list A) :
  In p (Py.permutations l) <-> Permutation l p.
Proof. apply in_permutations_upto. reflexivity. Qed.

End Permutations.

(** * Declaring the variables *)

Lemma replace_nth_map_seq {A} (f g : nat -> A) (n s k : nat) :
  (k < n)%nat ->
  (forall j, j <> (s + k)%nat -> f j = g j) ->
  replace_nth k (g (s + k)%nat) (map f (seq s n)) = map g (seq s n).
Proof.
  revert s k. induction n as [|n IH]; intros s k Hk Hfg; [lia|].
  cbn [seq map]. destruct k as [|k]; cbn [replace_nth].
  - rewrite Nat.add_0_r. f_equal.
    apply map_ext_in. intros j Hj. apply in_seq in Hj. apply Hfg. lia.
  - f_equal; [apply Hfg; lia|].
    replace (s + S k)%nat with (S s + k)%nat by lia.
    apply IH; [lia|]. intros j Hj. apply Hfg. lia.
Qed.

Section Declare.

Variables (mk : Z -> Z -> const) (P M : Z).

Lemma partial_offsets_start :
  partial_offsets mk P M 0 0 = map (fun _ => []) (Py.range P).
Proof.
  unfold partial_offsets. apply map_ext_in. intros i Hi.
  apply in_range in Hi.
  destruct (i <? 0) eqn:E; [apply Z.ltb_lt in E; lia|].
  destruct (i =? 0); reflexivity.
Qed.

Lemma partial_offsets_next (i : Z) :
  partial_offsets mk P M i M = partial_offsets mk P M (i + 1) 0.
Proof.
  unfold partial_offsets. apply map_ext. intros i'.
  destruct (i' <? i) eqn:E1, (i' <? i + 1) eqn:E2, (i' =? i) eqn:E3,
           (i' =? i + 1) eqn:E4;
    try reflexivity;
    repeat match goal with
           | H : (_ <? _) = true |- _ => apply Z.ltb_lt in H
           | H : (_ <? _) = false |- _ => apply Z.ltb_ge in H
           | H : (_ =? _) = true |- _ => apply Z.eqb_eq in H
           | H : (_ =? _) = false |- _ => apply Z.eqb_neq in H
           end; lia.
Qed.

Lemma partial_offsets_end :
  0 <= P -> partial_offsets mk P M P 0 = offsets_of mk P M.
Proof.
  intros HP. unfold partial_offsets, offsets_of.
  apply map_ext_in. intros i Hi. apply in_range in Hi.
  destruct (i <? P) eqn:E; [reflexivity|]. apply Z.ltb_ge in E. lia.
Qed.

Lemma append_at_partial (i m : Z) :
  0 <= i < P -> 0 <= m ->
  append_at (partial_offsets mk P M i m) i (Int (mk m i))
  = Ok (partial_offsets mk P M i (m + 1)).
Proof.
  intros Hi Hm. unfold append_at, partial_offsets.
  rewrite getitem_map_range by exact Hi. cbn [Py.bind].
  destruct (i <? 0) eqn:E; [apply Z.ltb_lt in E; lia|].
  rewrite Z.ltb_irrefl, Z.eqb_refl. f_equal.
  rewrite (range_eq P), !map_map.
  set (g := fun j : nat =>
              map (fun mb => Int (mk mb (Z.of_nat j)))
                  (Py.range (if Z.of_nat j <? i then M
                             else if Z.of_nat j =? i then m + 1 else 0))).
  replace (map (fun mb => Int (mk mb i)) (Py.range m) ++ [Int (mk m i)])
    with (g (0 + Z.to_nat i)%nat).
  - apply replace_nth_map_seq; [lia|]. intros j Hj. unfold g.
    destruct (Z.of_nat j <? i); [reflexivity|].
    destruct (Z.of_nat j =? i) eqn:E'; [apply Z.eqb_eq in E'; lia|].
    reflexivity.
  - unfold g. cbn [Nat.add]. rewrite Z2Nat.id by lia.
    rewrite Z.ltb_irrefl, Z.eqb_refl, range_succ by lia.
    rewrite map_app. reflexivity.
Qed.

Lemma getitem2_partial_last (i m : Z) :
  0 <= i < P -> 0 <= m ->
  getitem2 (partial_offsets mk P M i (m + 1)) i (-1) = Ok (Int (mk m i)).
Proof.
  intros Hi Hm. unfold getitem2, partial_offsets.
  rewrite getitem_map_range by exact Hi. cbn [Py.bind].
  rewrite Z.ltb_irrefl, Z.eqb_refl, range_succ by lia.
  rewrite map_app. apply getitem_last.
Qed.

Lemma getitem2_offsets_of (i mb : Z) :
  0 <= i < P -> 0 <= mb < M ->
  getitem2 (offsets_of mk P M) i mb = Ok (Int (mk mb i)).
Proof.
  intros Hi Hmb. unfold getitem2, offsets_of.
  rewrite getitem_map_range by exact Hi. cbn [Py.bind].
  apply (getitem_map_range (fun mb' => Int (mk mb' i))). exact Hmb.
Qed.

Lemma getitem_offsets_of (i : Z) :
  0 <= i < P ->
  Py.getitem (offsets_of mk P M) i
  = Ok (map (fun mb => Int (mk mb i)) (Py.range M)).
Proof.
  intros Hi. unfold offsets_of.
  rewrite getitem_map_range by exact Hi. reflexivity.
Qed.

End Declare.

Section DeclareLoop.

Variables (P M : Z) (Cap : list Z) (Df Db : Z) (st : strategy).

Let sign_pair (i mb : Z) : list boolref :=
  [Ge (F i mb) (IntVal 0); Ge (B i mb) (IntVal 0)].

Let inner (i : Z) : Z -> Simulator -> Py.result Simulator :=
  fun mb self =>
    fo <- append_at (_forward_offsets self) i (Int (f_ mb i));;
    let self := set_forward_offsets fo self in
    v <- getitem2 (_forward_offsets self) i (-1);;
    let self := solver_add (Ge v (IntVal 0)) self in
    bo <- append_at (_backward_offsets self) i (Int (b_ mb i));;
    let self := set_backward_offsets bo self in
    v <- getitem2 (_backward_offsets self) i (-1);;
    Ok (solver_add (Ge v (IntVal 0)) self).

Lemma declare_step (cs : list boolref) (i m : Z) :
  0 <= i < P -> 0 <= m ->
  inner i m (declaring P M Cap Df Db st cs i m)
  = Ok (declaring P M Cap Df Db st (cs ++ sign_pair i m) i (m + 1)).
Proof.
  intros Hi Hm.
  unfold inner, declaring, solver_add, set_solver, set_forward_offsets,
    set_backward_offsets, Z3.add.
  cbn [_forward_offsets]. rewrite append_at_partial by assumption.
  cbn [Py.bind _forward_offsets].
  rewrite getitem2_partial_last by assumption.
  cbn [Py.bind _backward_offsets].
  rewrite append_at_partial by assumption.
  cbn [Py.bind _backward_offsets].
  rewrite getitem2_partial_last by assumption.
  cbn [Py.bind _pp_size _num_microbatches _max_activation_times
       _forward_length _backward_length
       _sequential_order_constraint_strategy _solver _forward_offsets
       _backward_offsets assertions objectives].
  unfold sign_pair, F, B. rewrite <- app_assoc. reflexivity.
Qed.

Lemma declare_row (cs : list boolref) (i : Z) (k : nat) :
  0 <= i < P ->
  Py.for_ (Py.range (Z.of_nat k)) (inner i)
          (declaring P M Cap Df Db st cs i 0)
  = Ok (declaring P M Cap Df Db st
          (cs ++ flat_map (sign_pair i) (Py.range (Z.of_nat k)))
          i (Z.of_nat k)).
Proof.
  intros Hi. induction k as [|k IH].
  - cbn. rewrite app_nil_r. reflexivity.
  - rewrite Nat2Z.inj_succ, <- Z.add_1_r, range_succ by lia.
    rewrite for_app, IH. cbn [Py.bind Py.for_].
    rewrite declare_step by lia. cbn [Py.bind].
    rewrite flat_map_app. cbn [flat_map]. rewrite app_nil_r, app_assoc.
    reflexivity.
Qed.

Lemma range_max (n : Z) : Py.range (Z.max 0 n) = Py.range n.
Proof. rewrite !range_eq. f_equal. f_equal. lia. Qed.

Lemma declaring_next (cs : list boolref) (i : Z) :
  declaring P M Cap Df Db st cs i (Z.of_nat (Z.to_nat M))
  = declaring P M Cap Df Db st cs (i + 1) 0.
Proof.
  unfold declaring. f_equal.
  - rewrite <- partial_offsets_next. unfold partial_offsets.
    apply map_ext. intros i'. destruct (i' <? i); [reflexivity|].
    destruct (i' =? i); [|reflexivity].
    rewrite <- (range_max M). f_equal. f_equal. lia.
  - rewrite <- partial_offsets_next. unfold partial_offsets.
    apply map_ext. intros i'. destruct (i' <? i); [reflexivity|].
    destruct (i' =? i); [|reflexivity].
    rewrite <- (range_max M). f_equal. f_equal. lia.
Qed.

Lemma declare_rows (cs : list boolref) (n : nat) :
  Z.of_nat n <= P ->
  Py.for_ (Py.range (Z.of_nat n))
          (fun i self => Py.for_ (Py.range (_num_microbatches self))
                                 (inner i) self)
          (declaring P M Cap Df Db st cs 0 0)
  = Ok (declaring P M Cap Df Db st
          (cs ++ flat_map (fun i => flat_map (sign_pair i) (Py.range M))
                          (Py.range (Z.of_nat n)))
          (Z.of_nat n) 0).
Proof.
  induction n as [|n IH]; intros Hn.
  - cbn. rewrite app_nil_r. reflexivity.
  - rewrite Nat2Z.inj_succ, <- Z.add_1_r, range_succ by lia.
    rewrite for_app, IH by lia. cbn [Py.bind Py.for_].
    cbn [declaring _num_microbatches].
    fold (declaring P M Cap Df Db st
            (cs ++ flat_map (fun i => flat_map (sign_pair i) (Py.range M))
                            (Py.range (Z.of_nat n)))
            (Z.of_nat n) 0).
    rewrite <- (range_max M) at 1.
    replace (Z.max 0 M) with (Z.of_nat (Z.to_nat M)) by lia.
    rewrite declare_row by lia. cbn [Py.bind].
    rewrite declaring_next.
    replace (Z.of_nat (Z.to_nat M)) with (Z.max 0 M) by lia.
    rewrite range_max, flat_map_app. cbn [flat_map].
    rewrite app_nil_r, app_assoc. reflexivity.
Qed.

(** The first loop of [_build_constraints] declares every variable and
    asserts its sign. *)
Lemma declare_offsets_fresh :
  0 <= P ->
  declare_offsets (fresh P M Cap Df Db st)
  = Ok (declared P M Cap Df Db st (sign_terms P M)).
Proof.
  intros HP. unfold declare_offsets.
  replace (fresh P M Cap Df Db st)
    with (declaring P M Cap Df Db st [] 0 0)
    by (unfold declaring, fresh; rewrite !partial_offsets_start;
        reflexivity).
  change (_pp_size (declaring P M Cap Df Db st [] 0 0)) with P.
  replace P with (Z.of_nat (Z.to_nat P)) at 1 by lia.
  etransitivity; [apply (declare_rows [] (Z.to_nat P)); lia|].
  rewrite Z2Nat.id by lia. unfold declaring, declared.
  rewrite !partial_offsets_end by lia. reflexivity.
Qed.

End DeclareLoop.

(** * The sequential-order encoders *)

Lemma flat_map_singleton {A B} (f : A -> B) (l : list A) :
  flat_map (fun x => [f x]) l = map f l.
Proof.
  induction l as [|x l IH]; [reflexivity|]. cbn. rewrite IH. reflexivity.
Qed.

(** A loop that adds one constraint per iteration. *)
Lemma for_add_each {A} (l : list A)
    (body : A -> Simulator -> Py.result Simulator)
    (c : A -> boolref) (self : Simulator) :
  (forall x cs, In x l ->
     body x (add_all cs self) = Ok (add_all (cs ++ [c x]) self)) ->
  forall cs,
    Py.for_ l body (add_all cs self) = Ok (add_all (cs ++ map c l) self).
Proof.
  intros H cs. rewrite <- flat_map_singleton.
  apply (for_add_all l body (fun x => [c x])). exact H.
Qed.

Lemma for_add_each0 {A} (l : list A)
    (body : A -> Simulator -> Py.result Simulator)
    (c : A -> boolref) (self : Simulator) :
  (forall x cs, In x l ->
     body x (add_all cs self) = Ok (add_all (cs ++ [c x]) self)) ->
  Py.for_ l body self = Ok (add_all (map c l) self).
Proof.
  intros H. rewrite <- flat_map_singleton.
  apply (for_add_all0 l body (fun x => [c x])). exact H.
Qed.

Section Order.

Variable self : Simulator.

Let P := _pp_size self.
Let M := _num_microbatches self.
Let Df := _forward_length self.
Let Db := _backward_length self.

Hypothesis built : offsets_built self.

Lemma ge_plus_forward (i j mb d : Z) :
  0 <= i < P -> 0 <= j < P -> 0 <= mb < M ->
  ge_plus (_forward_offsets self) i (_forward_offsets self) j mb d
  = Ok (geq (F i mb) (F j mb) d).
Proof.
  intros Hi Hj Hmb. unfold ge_plus. rewrite (proj1 built).
  rewrite !getitem2_offsets_of by assumption. reflexivity.
Qed.

Lemma ge_plus_backward (i j mb d : Z) :
  0 <= i < P -> 0 <= j < P -> 0 <= mb < M ->
  ge_plus (_backward_offsets self) i (_backward_offsets self) j mb d
  = Ok (geq (B i mb) (B j mb) d).
Proof.
  intros Hi Hj Hmb. unfold ge_plus. rewrite (proj2 built).
  rewrite !getitem2_offsets_of by assumption. reflexivity.
Qed.

Lemma ge_plus_handoff (i mb d : Z) :
  0 <= i < P -> 0 <= mb < M ->
  ge_plus (_backward_offsets self) i (_forward_offsets self) i mb d
  = Ok (geq (B i mb) (F i mb) d).
Proof.
  intros Hi Hmb. unfold ge_plus. rewrite (proj1 built), (proj2 built).
  rewrite !getitem2_offsets_of by assumption. reflexivity.
Qed.

Lemma strict_adds :
  1 <= P ->
  _sequential_order_constraint_strict self
  = Ok (add_all (order_terms P M Df Db strict) self).
Proof.
  intros HP. unfold _sequential_order_constraint_strict.
  apply for_add_all0. intros mb cs Hmb. apply in_range in Hmb.
  cbn [add_all set_solver _pp_size _num_microbatches _forward_length
       _backward_length _forward_offsets _backward_offsets].
  fold P M Df Db in Hmb |- *.
  rewrite (for_add_each (Py.range2 1 P) _
             (fun i => geq (F i mb) (F (i - 1) mb) Df) self).
  2:{ intros i cs' Hi. apply in_range2 in Hi.
      cbn [add_all set_solver _forward_offsets].
      rewrite ge_plus_forward by lia. cbn [Py.bind].
      rewrite solver_add_add_all. reflexivity. }
  cbn [Py.bind].
  rewrite (for_add_each (Py.range3 (P - 1) 0 (-1)) _
             (fun i => geq (B (i - 1) mb) (B i mb) Db) self).
  2:{ intros i cs' Hi. apply in_range3_down in Hi.
      cbn [add_all set_solver _backward_offsets].
      rewrite ge_plus_backward by lia. cbn [Py.bind].
      rewrite solver_add_add_all. reflexivity. }
  cbn [Py.bind add_all set_solver _forward_offsets _backward_offsets
       _pp_size].
  fold P. rewrite ge_plus_handoff by lia. cbn [Py.bind].
  rewrite solver_add_add_all. unfold down_terms.
  rewrite <- !app_assoc. reflexivity.
Qed.

Lemma double_interleaving_adds :
  1 <= P ->
  _sequential_order_constraint_double_interleaving self
  = Ok (add_all (order_terms P M Df Db double_interleaving) self).
Proof.
  intros HP. unfold _sequential_order_constraint_double_interleaving.
  apply (for_add_each0 _ _
           (fun mb => Or [And (down_terms P Df Db mb);
                          And (up_terms P Df Db mb)]) self).
  intros mb cs Hmb. apply in_range in Hmb.
  cbn [add_all set_solver _pp_size _num_microbatches _forward_length
       _backward_length _forward_offsets _backward_offsets].
  fold P M Df Db in Hmb |- *.
  rewrite (comprehension_map _ (fun i => geq (F i mb) (F (i - 1) mb) Df))
    by (intros i Hi; apply in_range2 in Hi; apply ge_plus_forward; lia).
  cbn [Py.bind].
  rewrite (comprehension_map _ (fun i => geq (B (i - 1) mb) (B i mb) Db))
    by (intros i Hi; apply in_range3_down in Hi; apply ge_plus_backward;
        lia).
  cbn [Py.bind]. rewrite ge_plus_handoff by lia. cbn [Py.bind].
  rewrite (comprehension_map _ (fun i => geq (F (i - 1) mb) (F i mb) Df))
    by (intros i Hi; apply in_range3_down in Hi; apply ge_plus_forward;
        lia).
  cbn [Py.bind].
  rewrite (comprehension_map _ (fun i => geq (B i mb) (B (i - 1) mb) Db))
    by (intros i Hi; apply in_range2 in Hi; apply ge_plus_backward; lia).
  cbn [Py.bind]. rewrite ge_plus_handoff by lia. cbn [Py.bind].
  rewrite solver_add_add_all. reflexivity.
Qed.

Lemma getitem_minus1 {A} (l : list A) (d : A) :
  l <> [] -> Py.getitem l (-1) = Ok (last l d).
Proof.
  intros Hl. destruct (exists_last Hl) as (l' & x & ->).
  rewrite getitem_last, last_last. reflexivity.
Qed.

Lemma full_interleaving_case_ok (cs : list boolref) (mb : Z)
    (perm : list Z) :
  1 <= P -> 0 <= mb < M -> Permutation (Py.range P) perm ->
  full_interleaving_case (add_all cs self) mb perm
  = Ok (And (perm_terms Df Db perm mb)).
Proof.
  intros HP Hmb Hperm.
  assert (Hlen : Py.len perm = P).
  { unfold Py.len. rewrite <- (Permutation_length Hperm), length_range.
    lia. }
  assert (Hat : forall k, 0 <= k < P -> 0 <= at_ perm k < P).
  { intros k Hk. apply in_range.
    apply (Permutation_in _ (Permutation_sym Hperm)).
    apply nth_In. unfold Py.len in Hlen. lia. }
  assert (Hget : forall k, 0 <= k < P ->
                           Py.getitem perm k = Ok (at_ perm k)).
  { intros k Hk. apply getitem_nth. lia. }
  assert (Hne : perm <> []).
  { intros ->. cbn in Hlen. lia. }
  assert (Hlast : 0 <= last perm 0 < P).
  { apply in_range. apply (Permutation_in _ (Permutation_sym Hperm)).
    destruct (exists_last Hne) as (l' & x & ->). rewrite last_last.
    apply in_or_app. right. left. reflexivity. }
  unfold full_interleaving_case.
  cbn [add_all set_solver _forward_length _backward_length
       _forward_offsets _backward_offsets].
  fold Df Db. rewrite (proj1 built), (proj2 built). fold P M.
  rewrite (comprehension_map _
             (fun k => geq (F (at_ perm (k + 1)) mb) (F (at_ perm k) mb) Df)).
  2:{ intros k Hk. apply in_range in Hk.
      repeat (first [ rewrite Hget by lia
                    | rewrite getitem2_offsets_of by (try apply Hat; lia) ];
              cbn [Py.bind]).
      reflexivity. }
  cbn [Py.bind].
  rewrite (comprehension_map _
             (fun k => geq (B (at_ perm (k - 1)) mb) (B (at_ perm k) mb) Db)).
  2:{ intros k Hk. apply in_range3_down in Hk.
      repeat (first [ rewrite Hget by lia
                    | rewrite getitem2_offsets_of by (try apply Hat; lia) ];
              cbn [Py.bind]).
      reflexivity. }
  cbn [Py.bind]. rewrite (getitem_minus1 perm 0 Hne). cbn [Py.bind].
  rewrite !getitem2_offsets_of by assumption. reflexivity.
Qed.

Lemma full_interleaving_adds :
  1 <= P ->
  _sequential_order_constraint_full_interleaving self
  = Ok (add_all (order_terms P M Df Db full_interleaving) self).
Proof.
  intros HP. unfold _sequential_order_constraint_full_interleaving.
  apply (for_add_each0 _ _
           (fun mb => Or (map (fun perm => And (perm_terms Df Db perm mb))
                              (Py.permutations (Py.range P)))) self).
  intros mb cs Hmb. apply in_range in Hmb.
  cbn [add_all set_solver _pp_size _num_microbatches].
  fold P M in Hmb |- *.
  rewrite (for_append _ (fun perm => And (perm_terms Df Db perm mb))).
  2:{ intros perm Hperm. apply in_permutations in Hperm.
      apply (full_interleaving_case_ok cs); assumption. }
  cbn [Py.bind app]. rewrite solver_add_add_all. reflexivity.
Qed.

End Order.

(** * The non-overlap, capacity and objective encoders *)

Lemma map_fst_combine_same {A B} (l : list A) (l' : list B) :
  List.length l = List.length l' -> map fst (combine l l') = l.
Proof.
  revert l'. induction l as [|x l IH]; intros [|y l'] H;
    try reflexivity; try discriminate.
  cbn. rewrite IH by (cbn in H; lia). reflexivity.
Qed.

Lemma for_map {A B S} (h : A -> B) (body : B -> S -> Py.result S)
    (l : list A) (s : S) :
  Py.for_ (map h l) body s = Py.for_ l (fun x => body (h x)) s.
Proof.
  revert s. induction l as [|x l IH]; intros s; [reflexivity|].
  cbn [map Py.for_]. destruct (body (h x) s); [|reflexivity].
  cbn [Py.bind]. apply IH.
Qed.

Lemma for_enumerate {A S} (body : Z -> S -> Py.result S) (l : list A)
    (s : S) :
  Py.for_ (Py.enumerate l) (fun i_ => body (fst i_)) s
  = Py.for_ (Py.range (Py.len l)) body s.
Proof.
  rewrite <- (for_map fst body). unfold Py.enumerate.
  rewrite map_fst_combine_same by (rewrite length_map, length_seq;
                                    reflexivity).
  rewrite range_eq. unfold Py.len. rewrite Nat2Z.id. reflexivity.
Qed.

(** The same for a body that only reads the index. *)
Lemma for_enumerate_index {A S} (f : Z * A -> S -> Py.result S) (d : A)
    (l : list A) (s : S) :
  (forall i a s, f (i, a) s = f (i, d) s) ->
  Py.for_ (Py.enumerate l) f s
  = Py.for_ (Py.range (Py.len l)) (fun i => f (i, d)) s.
Proof.
  intros H. rewrite <- (for_enumerate (fun i => f (i, d))).
  apply for_ext. intros [i a] s0 _. apply H.
Qed.

Lemma len_stage_vars (M pp : Z) :
  Py.len (stage_vars M pp) = 2 * Z.max 0 M.
Proof.
  unfold Py.len, stage_vars.
  rewrite length_app, !length_map, !length_range. lia.
Qed.

Section Encoders.

Variable self : Simulator.

Let P := _pp_size self.
Let M := _num_microbatches self.
Let Df := _forward_length self.
Let Db := _backward_length self.
Let Cap := _max_activation_times self.

Hypothesis built : offsets_built self.

Lemma serial_adds :
  _serial_computation_within_pipeline_constraint self
  = Ok (add_all (overlap_terms P M Df Db) self).
Proof.
  unfold _serial_computation_within_pipeline_constraint.
  apply for_add_all0. intros pp cs Hpp. apply in_range in Hpp.
  cbn [add_all set_solver _forward_offsets _backward_offsets].
  rewrite (proj1 built), (proj2 built). fold P M in Hpp |- *.
  rewrite !getitem_offsets_of by assumption. cbn [Py.bind].
  change (map (fun mb => Int (f_ mb pp)) (Py.range M)
          ++ map (fun mb => Int (b_ mb pp)) (Py.range M))
    with (stage_vars M pp).
  set (vars := stage_vars M pp).
  rewrite (for_enumerate_index _ (IntVal 0)) by reflexivity.
  cbv beta zeta. cbn [fst].
  apply for_add_all. intros i cs' Hi. apply in_range in Hi.
  apply for_add_each. intros j cs'' Hj. apply in_range2 in Hj.
  assert (HM : 1 <= M).
  { unfold vars in Hj. rewrite len_stage_vars in Hj. lia. }
  cbn [add_all set_solver _num_microbatches _forward_length
       _backward_length].
  fold M Df Db. unfold Py.floordiv.
  destruct (M =? 0) eqn:E; [apply Z.eqb_eq in E; lia|].
  cbn [Py.bind].
  rewrite !(getitem_nth vars _ (IntVal 0)) by lia. cbn [Py.bind].
  rewrite solver_add_add_all. reflexivity.
Qed.

Lemma getitem2_backward (pp mb : Z) :
  0 <= pp < P -> 0 <= mb < M ->
  getitem2 (_backward_offsets self) pp mb = Ok (B pp mb).
Proof.
  intros Hpp Hmb. rewrite (proj2 built).
  apply getitem2_offsets_of; assumption.
Qed.

Lemma getitem2_forward (pp mb : Z) :
  0 <= pp < P -> 0 <= mb < M ->
  getitem2 (_forward_offsets self) pp mb = Ok (F pp mb).
Proof.
  intros Hpp Hmb. rewrite (proj1 built).
  apply getitem2_offsets_of; assumption.
Qed.

Lemma count_loop (pp mb : Z) :
  0 <= pp < P -> 0 <= mb < M ->
  Py.for_ (Py.range M)
    (fun other_mb _actvaition_count =>
       if other_mb =? mb then Ok _actvaition_count
       else
         b <- getitem2 (_backward_offsets self) pp other_mb;;
         f <- getitem2 (_forward_offsets self) pp other_mb;;
         Ok (count_add _actvaition_count
               (If (And [Gt b (B pp mb); Lt f (B pp mb)])
                   (IntVal 1) (IntVal 0))))
    (PyCount 1)
  = Ok (count_term M pp mb).
Proof.
  intros Hpp Hmb. unfold count_term. rewrite <- for_fold.
  apply for_ext. intros other c Ho. apply in_range in Ho.
  unfold count_step. destruct (other =? mb); [reflexivity|].
  rewrite getitem2_backward, getitem2_forward by assumption. reflexivity.
Qed.

Lemma activation_adds :
  P <= Py.len Cap ->
  _pipeline_activation_accumulation_constraint self
  = Ok (add_all (activation_terms P M Cap) self).
Proof.
  intros HCap. unfold _pipeline_activation_accumulation_constraint.
  apply for_add_all0. intros pp cs Hpp. apply in_range in Hpp.
  cbn [add_all set_solver _num_microbatches]. fold P M in Hpp |- *.
  apply for_add_all. intros mb cs' Hmb. apply in_range in Hmb.
  cbn [add_all set_solver _num_microbatches _max_activation_times
       _forward_offsets _backward_offsets].
  fold M Cap.
  rewrite getitem2_backward by assumption. cbn [Py.bind].
  rewrite (count_loop pp mb) by assumption. cbn [Py.bind].
  rewrite (getitem_nth Cap pp 0) by lia. cbn [Py.bind].
  rewrite solver_add_add_all. reflexivity.
Qed.

Lemma objectives_add :
  _build_optimize_objectives self
  = Ok (solver_minimize (Int max_start_offset)
          (add_all (objective_terms P M) self)).
Proof.
  unfold _build_optimize_objectives.
  rewrite (for_add_all0 _ _
             (fun pp => flat_map
                          (fun mb => [Ge (Int max_start_offset) (B pp mb)])
                          (Py.range M))).
  - reflexivity.
  - intros pp cs Hpp. apply in_range in Hpp.
    cbn [add_all set_solver _backward_offsets].
    rewrite (proj2 built). fold P M in Hpp |- *.
    rewrite getitem_offsets_of by assumption. cbn [Py.bind].
    rewrite for_map. apply for_add_all. intros mb cs' _.
    rewrite solver_add_add_all. reflexivity.
Qed.

End Encoders.

(** * The whole encoding *)

Section Encoding.

Variables (P M : Z) (Cap : list Z) (Df Db : Z).

Lemma init_config_of (st : strategy) :
  __init__ (config_of P M Cap Df Db st) = Ok (fresh P M Cap Df Db st).
Proof. destruct st; reflexivity. Qed.

Lemma declared_built (st : strategy) (cs : list boolref) :
  offsets_built (declared P M Cap Df Db st cs).
Proof. split; reflexivity. Qed.

Lemma add_all_declared (st : strategy) (cs cs' : list boolref) :
  add_all cs' (declared P M Cap Df Db st cs)
  = declared P M Cap Df Db st (cs ++ cs').
Proof. reflexivity. Qed.

Lemma order_adds (st : strategy) (cs : list boolref) :
  1 <= P ->
  sequential_order_constraint (declared P M Cap Df Db st cs)
  = Ok (declared P M Cap Df Db st (cs ++ order_terms P M Df Db st)).
Proof.
  intros HP. unfold sequential_order_constraint.
  destruct st; cbn [declared _sequential_order_constraint_strategy
                    strategy_name String.eqb Ascii.eqb Bool.eqb].
  - rewrite strict_adds by (try apply declared_built; exact HP).
    reflexivity.
  - rewrite double_interleaving_adds
      by (try apply declared_built; exact HP).
    reflexivity.
  - rewrite full_interleaving_adds by (try apply declared_built; exact HP).
    reflexivity.
Qed.

(** What [_build_constraints] leaves in a freshly constructed object. *)
Lemma build_constraints_fresh (st : strategy) :
  1 <= P <= Py.len Cap ->
  _build_constraints (fresh P M Cap Df Db st)
  = Ok (declared P M Cap Df Db st (constraint_terms P M Df Db Cap st)).
Proof.
  intros HP. unfold _build_constraints.
  rewrite declare_offsets_fresh by lia. cbn [Py.bind].
  rewrite order_adds by lia. cbn [Py.bind].
  rewrite serial_adds by apply declared_built. cbn [Py.bind].
  rewrite add_all_declared.
  rewrite activation_adds by (try apply declared_built; cbn; lia).
  rewrite add_all_declared. unfold constraint_terms.
  rewrite <- !app_assoc. reflexivity.
Qed.

Lemma encode_fresh (st : strategy) :
  1 <= P <= Py.len Cap ->
  encode (fresh P M Cap Df Db st) = Ok (problem P M Cap Df Db st).
Proof.
  intros HP. unfold encode.
  rewrite build_constraints_fresh by exact HP. cbn [Py.bind].
  rewrite objectives_add by apply declared_built. reflexivity.
Qed.

(** From the configuration to the problem handed to the solver. *)
Lemma encode_config_of (st : strategy) :
  1 <= P <= Py.len Cap ->
  encode_config (config_of P M Cap Df Db st)
  = Ok (problem P M Cap Df Db st).
Proof.
  intros HP. unfold encode_config. rewrite init_config_of.
  cbn [Py.bind]. apply encode_fresh. exact HP.
Qed.

End Encoding.

(** * What the asserted terms mean *)

Section Holds.

Variable sigma : assignment.

Lemma all_hold_nil : all_hold sigma [].
Proof. reflexivity. Qed.

Lemma all_hold_cons (c : boolref) (cs : list boolref) :
  all_hold sigma (c :: cs) <-> holds sigma c = true /\ all_hold sigma cs.
Proof. unfold all_hold. cbn [forallb]. apply andb_true_iff. Qed.

Lemma all_hold_app (cs cs' : list boolref) :
  all_hold sigma (cs ++ cs') <-> all_hold sigma cs /\ all_hold sigma cs'.
Proof. unfold all_hold. rewrite forallb_app. apply andb_true_iff. Qed.

Lemma all_hold_forall (cs : list boolref) :
  all_hold sigma cs <-> forall c, In c cs -> holds sigma c = true.
Proof. apply forallb_forall. Qed.

Lemma all_hold_map {A} (c : A -> boolref) (l : list A) :
  all_hold sigma (map c l) <-> forall x, In x l -> holds sigma (c x) = true.
Proof.
  rewrite all_hold_forall. split.
  - intros H x Hx. apply H. apply in_map. exact Hx.
  - intros H c' Hc. apply in_map_iff in Hc. destruct Hc as (x & <- & Hx).
    apply H. exact Hx.
Qed.

Lemma all_hold_flat_map {A} (g : A -> list boolref) (l : list A) :
  all_hold sigma (flat_map g l) <-> forall x, In x l -> all_hold sigma (g x).
Proof.
  rewrite all_hold_forall. split.
  - intros H x Hx. apply all_hold_forall. intros c Hc. apply H.
    apply in_flat_map. exists x. split; assumption.
  - intros H c Hc. apply in_flat_map in Hc. destruct Hc as (x & Hx & Hc).
    apply (proj1 (all_hold_forall _) (H x Hx)). exact Hc.
Qed.

Lemma all_hold_incl (cs cs' : list boolref) :
  incl cs cs' -> all_hold sigma cs' -> all_hold sigma cs.
Proof.
  rewrite !all_hold_forall. intros Hi H c Hc. apply H, Hi, Hc.
Qed.

Lemma holds_geq (a b : arith) (d : Z) :
  holds sigma (geq a b d) = true <-> eval sigma b + d <= eval sigma a.
Proof. unfold geq. cbn [holds eval]. apply Z.leb_le. Qed.

Lemma holds_And (cs : list boolref) :
  holds sigma (And cs) = true <-> all_hold sigma cs.
Proof. reflexivity. Qed.

Lemma holds_Or (cs : list boolref) :
  holds sigma (Or cs) = true <-> exists c, In c cs /\ holds sigma c = true.
Proof. cbn [holds]. apply existsb_exists. Qed.

Variables (Df Db : Z).

(** The conjunction built for a stage order says that the microbatch
    goes through the stages in that order. *)
Lemma perm_terms_hold (perm : list Z) (mb : Z) :
  all_hold sigma (perm_terms Df Db perm mb) <-> chain sigma Df Db perm mb.
Proof.
  unfold perm_terms, chain.
  rewrite !all_hold_app, !all_hold_map, all_hold_cons, holds_geq.
  cbn [eval F B]. fold (fwd sigma (last perm 0) mb).
  fold (bwd sigma (last perm 0) mb).
  split.
  - intros (H1 & H2 & H3 & _). repeat split.
    + intros k Hk. apply in_range in Hk. apply H1 in Hk.
      apply holds_geq in Hk. exact Hk.
    + intros k Hk. apply in_range3_down in Hk. apply H2 in Hk.
      apply holds_geq in Hk. exact Hk.
    + exact H3.
  - intros (H1 & H2 & H3). repeat split.
    + intros k Hk. apply holds_geq. apply in_range in Hk.
      exact (H1 k Hk).
    + intros k Hk. apply holds_geq. apply in_range3_down in Hk.
      exact (H2 k Hk).
    + exact H3.
Qed.

End Holds.

(** ** The strict order and its mirror as stage orders *)

Lemma at_range (P k : Z) : 0 <= k < P -> at_ (Py.range P) k = k.
Proof.
  intros H. unfold at_. rewrite range_eq.
  change 0 with (Z.of_nat 0). rewrite map_nth, seq_nth by lia. lia.
Qed.

Lemma at_rev_range (P k : Z) :
  0 <= k < P -> at_ (rev (Py.range P)) k = P - 1 - k.
Proof.
  intros H. unfold at_. rewrite rev_nth by (rewrite length_range; lia).
  rewrite length_range.
  replace (Z.to_nat P - S (Z.to_nat k))%nat with (Z.to_nat (P - 1 - k))
    by lia.
  apply at_range. lia.
Qed.

Lemma last_range (P : Z) : 1 <= P -> last (Py.range P) 0 = P - 1.
Proof.
  intros H. replace P with (P - 1 + 1) at 1 by lia.
  rewrite range_succ by lia. apply last_last.
Qed.

Lemma last_rev_range (P : Z) : 1 <= P -> last (rev (Py.range P)) 0 = 0.
Proof.
  intros H. rewrite range_eq.
  replace (Z.to_nat P) with (S (Z.to_nat (P - 1))) by lia.
  cbn [seq map rev]. apply last_last.
Qed.

Lemma range2_shift (P : Z) :
  Py.range2 1 P = map (fun k => k + 1) (Py.range (P - 1)).
Proof.
  rewrite range2_eq, range_eq, map_map. apply map_ext. intros k. lia.
Qed.

Lemma range3_down_flip (P : Z) :
  Py.range3 (P - 1) 0 (-1) = map (fun k => P - 1 - k) (Py.range (P - 1)).
Proof.
  rewrite range3_down_eq, range_eq, map_map.
  replace (P - 1 - 0) with (P - 1) by lia. reflexivity.
Qed.

Lemma range2_flip (P : Z) :
  Py.range2 1 P = map (fun k => P - k) (Py.range3 (P - 1) 0 (-1)).
Proof.
  rewrite range3_down_eq, range2_eq, map_map.
  replace (P - 1 - 0) with (P - 1) by lia.
  apply map_ext. intros k. lia.
Qed.

Lemma len_rev {A} (l : list A) : Py.len (rev l) = Py.len l.
Proof. unfold Py.len. rewrite length_rev. reflexivity. Qed.

Section Orders.

Variables (P Df Db : Z).

Hypothesis HP : 1 <= P.

Lemma down_terms_perm (mb : Z) :
  down_terms P Df Db mb = perm_terms Df Db (Py.range P) mb.
Proof.
  unfold down_terms, perm_terms.
  rewrite len_range, last_range by lia. f_equal; [|f_equal].
  - rewrite range2_shift, map_map. apply map_ext_in. intros k Hk.
    apply in_range in Hk. rewrite !at_range by lia.
    replace (k + 1 - 1) with k by lia. reflexivity.
  - apply map_ext_in. intros k Hk. apply in_range3_down in Hk.
    rewrite !at_range by lia. reflexivity.
Qed.

Lemma up_terms_perm (mb : Z) :
  up_terms P Df Db mb = perm_terms Df Db (rev (Py.range P)) mb.
Proof.
  unfold up_terms, perm_terms.
  rewrite len_rev, len_range, last_rev_range by lia. f_equal; [|f_equal].
  - rewrite range3_down_flip, map_map. apply map_ext_in. intros k Hk.
    apply in_range in Hk. rewrite !at_rev_range by lia.
    replace (P - 1 - k - 1) with (P - 1 - (k + 1)) by lia. reflexivity.
  - rewrite range2_flip, map_map. apply map_ext_in. intros k Hk.
    apply in_range3_down in Hk. rewrite !at_rev_range by lia.
    replace (P - k - 1) with (P - 1 - k) by lia.
    replace (P - 1 - (k - 1)) with (P - k) by lia. reflexivity.
Qed.

End Orders.

(** ** The blocks of a stage *)

Lemma nth_map_range {A} (f : Z -> A) (n k : Z) (d : A) :
  0 <= k < n -> nth (Z.to_nat k) (map f (Py.range n)) d = f k.
Proof.
  intros H. pose proof (getitem_map_range f n k H) as E.
  rewrite (getitem_nth _ _ d) in E
    by (unfold Py.len; rewrite length_map, length_range; lia).
  injection E as E. exact E.
Qed.

Section Blocks.

Variables (M Df Db : Z).

Hypothesis HM : 1 <= M.

Lemma nth_stage_vars (pp k : Z) :
  0 <= k < 2 * M ->
  nth (Z.to_nat k) (stage_vars M pp) (IntVal 0) = block_var pp (block_at M k).
Proof using HM.
  intros Hk. unfold stage_vars, block_at, block_var.
  destruct (k <? M) eqn:E.
  - apply Z.ltb_lt in E. rewrite app_nth1
      by (rewrite length_map, length_range; lia).
    cbn [fst snd]. apply nth_map_range. lia.
  - apply Z.ltb_ge in E. rewrite app_nth2
      by (rewrite length_map, length_range; lia).
    rewrite length_map, length_range. cbn [fst snd].
    replace (Z.to_nat k - Z.to_nat M)%nat with (Z.to_nat (k - M)) by lia.
    apply nth_map_range. lia.
Qed.

Lemma length_at_duration (k : Z) :
  0 <= k < 2 * M -> length_at M Df Db k = duration Df Db (block_at M k).
Proof using HM.
  intros Hk. unfold length_at, block_at, duration.
  destruct (k <? M) eqn:E.
  - apply Z.ltb_lt in E. rewrite Z.div_small by lia. reflexivity.
  - apply Z.ltb_ge in E.
    assert (H1 : 1 <= k / M) by (apply Z.div_le_lower_bound; lia).
    destruct (k / M =? 0) eqn:E'; [apply Z.eqb_eq in E'; lia|].
    reflexivity.
Qed.

Lemma pair_term_blocks (pp i j : Z) :
  0 <= i < 2 * M -> 0 <= j < 2 * M ->
  pair_term M Df Db (stage_vars M pp) i j
  = disjoint_term Df Db pp (block_at M i) (block_at M j).
Proof using HM.
  intros Hi Hj. unfold pair_term, disjoint_term.
  rewrite !nth_stage_vars, !length_at_duration by assumption.
  reflexivity.
Qed.

Lemma block_at_position (b : block) :
  0 <= snd b < M -> block_at M (position M b) = b.
Proof using HM.
  destruct b as [[|] mb]; cbn [snd]; intros H;
    unfold block_at, position; cbn [fst snd].
  - destruct (mb <? M) eqn:E; [reflexivity|]. apply Z.ltb_ge in E. lia.
  - destruct (M + mb <? M) eqn:E; [apply Z.ltb_lt in E; lia|].
    f_equal. lia.
Qed.

Lemma position_range (b : block) :
  0 <= snd b < M -> 0 <= position M b < 2 * M.
Proof using HM.
  destruct b as [[|] mb]; cbn [snd]; intros H; unfold position;
    cbn [fst snd]; lia.
Qed.

Lemma block_at_valid (k : Z) :
  0 <= k < 2 * M -> 0 <= snd (block_at M k) < M.
Proof using HM.
  intros H. unfold block_at. destruct (k <? M) eqn:E; cbn [snd].
  - apply Z.ltb_lt in E. lia.
  - apply Z.ltb_ge in E. lia.
Qed.

Lemma position_block_at (k : Z) :
  0 <= k < 2 * M -> position M (block_at M k) = k.
Proof using HM.
  intros H. unfold block_at, position.
  destruct (k <? M); cbn [fst snd]; lia.
Qed.

End Blocks.

(** The constraints asserted for the pairs of blocks of the stages. *)
Lemma in_overlap_terms (P M Df Db : Z) (c : boolref) :
  In c (overlap_terms P M Df Db)
  <-> exists pp i j,
        0 <= pp < P /\ 0 <= i < j /\ j < 2 * M
        /\ c = disjoint_term Df Db pp (block_at M i) (block_at M j).
Proof.
  unfold overlap_terms. rewrite in_flat_map. split.
  - intros (pp & Hpp & Hc). apply in_range in Hpp.
    apply in_flat_map in Hc. destruct Hc as (i & Hi & Hc).
    apply in_range in Hi. apply in_map_iff in Hc.
    destruct Hc as (j & <- & Hj). apply in_range2 in Hj.
    rewrite len_stage_vars in Hi, Hj.
    exists pp, i, j. repeat split; try lia.
    apply pair_term_blocks; lia.
  - intros (pp & i & j & Hpp & Hi & Hj & ->).
    exists pp. split; [apply in_range; exact Hpp|].
    apply in_flat_map. exists i.
    split; [apply in_range; rewrite len_stage_vars; lia|].
    apply in_map_iff. exists j.
    split; [apply pair_term_blocks; lia|].
    apply in_range2. rewrite len_stage_vars. lia.
Qed.

Section Meaning.

Variable sigma : assignment.

Variables (P M Df Db : Z) (Cap : list Z).

Lemma eval_block_var (pp : Z) (b : block) :
  eval sigma (block_var pp b) = start sigma pp b.
Proof. destruct b as [[|] mb]; reflexivity. Qed.

Lemma disjoint_term_holds (pp : Z) (b1 b2 : block) :
  holds sigma (disjoint_term Df Db pp b1 b2) = true
  <-> disjoint sigma Df Db pp b1 b2.
Proof.
  unfold disjoint_term, disjoint. cbn [holds existsb eval].
  rewrite !eval_block_var, !orb_true_iff, !Z.leb_le. intuition discriminate.
Qed.

Lemma disjoint_sym (pp : Z) (b1 b2 : block) :
  disjoint sigma Df Db pp b1 b2 -> disjoint sigma Df Db pp b2 b1.
Proof. unfold disjoint. tauto. Qed.

Lemma sign_terms_hold :
  all_hold sigma (sign_terms P M)
  <-> forall pp mb, 0 <= pp < P -> 0 <= mb < M ->
        0 <= fwd sigma pp mb /\ 0 <= bwd sigma pp mb.
Proof.
  unfold sign_terms. rewrite all_hold_flat_map. split.
  - intros H pp mb Hpp Hmb. apply in_range in Hpp, Hmb.
    specialize (H pp Hpp). rewrite all_hold_flat_map in H.
    specialize (H mb Hmb). rewrite !all_hold_cons in H.
    destruct H as (H1 & H2 & _). cbn [holds eval F B] in H1, H2.
    apply Z.leb_le in H1, H2. split; assumption.
  - intros H pp Hpp. apply all_hold_flat_map. intros mb Hmb.
    apply in_range in Hpp, Hmb. destruct (H pp mb Hpp Hmb) as (H1 & H2).
    rewrite !all_hold_cons. cbn [holds eval F B].
    repeat split; try (apply Z.leb_le; assumption).
Qed.

Lemma order_terms_hold (st : strategy) :
  1 <= P ->
  all_hold sigma (order_terms P M Df Db st)
  <-> forall mb, 0 <= mb < M -> ordered sigma P Df Db st mb.
Proof.
  intros HP. destruct st; cbn [order_terms ordered].
  - rewrite all_hold_flat_map. split.
    + intros H mb Hmb. apply in_range in Hmb. specialize (H mb Hmb).
      rewrite down_terms_perm in H by exact HP.
      apply perm_terms_hold. exact H.
    + intros H mb Hmb. apply in_range in Hmb.
      rewrite down_terms_perm by exact HP.
      apply perm_terms_hold. apply H. exact Hmb.
  - rewrite all_hold_map. split.
    + intros H mb Hmb. apply in_range in Hmb. specialize (H mb Hmb).
      cbn [holds existsb] in H. rewrite orb_false_r in H.
      apply orb_true_iff in H.
      rewrite down_terms_perm, up_terms_perm in H by exact HP.
      destruct H as [H|H]; [left|right]; apply perm_terms_hold; exact H.
    + intros H mb Hmb. apply in_range in Hmb. specialize (H mb Hmb).
      cbn [holds existsb]. rewrite orb_false_r. apply orb_true_iff.
      rewrite down_terms_perm, up_terms_perm by exact HP.
      destruct H as [H|H]; [left|right];
        apply (proj2 (perm_terms_hold _ _ _ _ _)); exact H.
  - rewrite all_hold_map. split.
    + intros H mb Hmb. apply in_range in Hmb. specialize (H mb Hmb).
      apply holds_Or in H. destruct H as (c & Hc & Hh).
      apply in_map_iff in Hc. destruct Hc as (perm & <- & Hperm).
      apply in_permutations in Hperm. exists perm. split; [exact Hperm|].
      apply perm_terms_hold. exact Hh.
    + intros H mb Hmb. apply in_range in Hmb.
      destruct (H mb Hmb) as (perm & Hperm & Hc).
      apply holds_Or. exists (And (perm_terms Df Db perm mb)). split.
      * apply in_map_iff. exists perm. split; [reflexivity|].
        apply in_permutations. exact Hperm.
      * apply (proj2 (perm_terms_hold _ _ _ _ _)). exact Hc.
Qed.

Lemma overlap_terms_hold :
  all_hold sigma (overlap_terms P M Df Db)
  <-> forall pp b1 b2, 0 <= pp < P ->
        0 <= snd b1 < M -> 0 <= snd b2 < M -> b1 <> b2 ->
        disjoint sigma Df Db pp b1 b2.
Proof.
  rewrite all_hold_forall. split.
  - intros H pp b1 b2 Hpp H1 H2 Hne.
    assert (HM : 1 <= M) by lia.
    pose proof (position_range M HM b1 H1) as Hp1.
    pose proof (position_range M HM b2 H2) as Hp2.
    assert (Hpos : position M b1 <> position M b2).
    { intros E. apply Hne.
      rewrite <- (block_at_position M HM b1 H1),
              <- (block_at_position M HM b2 H2), E.
      reflexivity. }
    destruct (Z.lt_ge_cases (position M b1) (position M b2)) as [Hlt|Hge].
    + apply disjoint_term_holds. apply H. apply in_overlap_terms.
      exists pp, (position M b1), (position M b2).
      rewrite !block_at_position by assumption.
      repeat split; try lia.
    + apply disjoint_sym. apply disjoint_term_holds. apply H.
      apply in_overlap_terms.
      exists pp, (position M b2), (position M b1).
      rewrite !block_at_position by assumption.
      repeat split; try lia.
  - intros H c Hc. apply in_overlap_terms in Hc.
    destruct Hc as (pp & i & j & Hpp & Hi & Hj & ->).
    assert (HM : 1 <= M) by lia.
    apply disjoint_term_holds. apply H; try assumption.
    + apply block_at_valid; lia.
    + apply block_at_valid; lia.
    + intros E. apply (f_equal (position M)) in E.
      rewrite !position_block_at in E by lia. lia.
Qed.

End Meaning.

(** ** The activation count and the objective *)

Section Counting.

Variable sigma : assignment.

Lemma count_value_add (c : count) (t : arith) :
  count_value sigma (count_add c t) = count_value sigma c + eval sigma t.
Proof. destruct c; reflexivity. Qed.

Lemma holds_count_le (c : count) (cap : Z) :
  holds sigma (count_le c cap) = (count_value sigma c <=? cap).
Proof. destruct c; reflexivity. Qed.

Lemma eval_straddles (pp mb other : Z) :
  other <> mb ->
  eval sigma (straddles pp mb other)
  = if straddling sigma pp mb other then 1 else 0.
Proof.
  intros Hne. unfold straddles, straddling. cbn [eval holds forallb F B].
  fold (bwd sigma pp mb) (bwd sigma pp other) (fwd sigma pp other).
  destruct (other =? mb) eqn:E; [apply Z.eqb_eq in E; contradiction|].
  cbn [negb andb]. rewrite andb_true_r. reflexivity.
Qed.

Lemma count_value_fold (pp mb : Z) (l : list Z) (c : count) :
  count_value sigma (fold_left (count_step pp mb) l c)
  = count_value sigma c
    + Z.of_nat (List.length (filter (straddling sigma pp mb) l)).
Proof.
  revert c. induction l as [|x l IH]; intros c.
  - cbn. lia.
  - cbn [fold_left filter]. rewrite IH. unfold count_step.
    destruct (x =? mb) eqn:E.
    + assert (Hs : straddling sigma pp mb x = false)
        by (unfold straddling; rewrite E; reflexivity).
      rewrite Hs. reflexivity.
    + apply Z.eqb_neq in E.
      rewrite count_value_add, eval_straddles by exact E.
      destruct (straddling sigma pp mb x); cbn [List.length]; lia.
Qed.

(** The term built by the encoder evaluates to the activation count. *)
Lemma count_term_value (M pp mb : Z) :
  count_value sigma (count_term M pp mb) = activation_count sigma M pp mb.
Proof. unfold count_term. rewrite count_value_fold. reflexivity. Qed.

Lemma activation_terms_hold (P M : Z) (Cap : list Z) :
  all_hold sigma (activation_terms P M Cap)
  <-> forall pp mb, 0 <= pp < P -> 0 <= mb < M ->
        activation_count sigma M pp mb <= nth (Z.to_nat pp) Cap 0.
Proof.
  unfold activation_terms. rewrite all_hold_flat_map. split.
  - intros H pp mb Hpp Hmb. apply in_range in Hpp, Hmb.
    specialize (H pp Hpp). rewrite all_hold_flat_map in H.
    specialize (H mb Hmb). rewrite all_hold_cons in H. destruct H as (H & _).
    rewrite holds_count_le, count_term_value in H. apply Z.leb_le. exact H.
  - intros H pp Hpp. apply all_hold_flat_map. intros mb Hmb.
    apply in_range in Hpp, Hmb. apply all_hold_cons.
    split; [|apply all_hold_nil].
    rewrite holds_count_le, count_term_value. apply Z.leb_le.
    apply H; assumption.
Qed.

Lemma objective_terms_hold (P M : Z) :
  all_hold sigma (objective_terms P M)
  <-> forall pp mb, 0 <= pp < P -> 0 <= mb < M ->
        bwd sigma pp mb <= sigma max_start_offset.
Proof.
  unfold objective_terms. rewrite all_hold_flat_map. split.
  - intros H pp mb Hpp Hmb. apply in_range in Hpp, Hmb.
    specialize (H pp Hpp). rewrite all_hold_flat_map in H.
    specialize (H mb Hmb). rewrite all_hold_cons in H. destruct H as (H & _).
    cbn [holds eval B] in H. apply Z.leb_le. exact H.
  - intros H pp Hpp. apply all_hold_flat_map. intros mb Hmb.
    apply in_range in Hpp, Hmb. apply all_hold_cons.
    split; [|apply all_hold_nil].
    cbn [holds eval B]. apply Z.leb_le. apply H; assumption.
Qed.

Variables (P M : Z) (Cap : list Z) (Df Db : Z) (st : strategy).

Hypothesis HP : 1 <= P.

(** The encoder is sound and complete for the model of section 4: an
    assignment satisfies the asserted constraints exactly when the
    schedule it stands for is feasible. *)
Lemma constraint_terms_hold :
  all_hold sigma (constraint_terms P M Df Db Cap st)
  <-> feasible sigma P M Df Db Cap st.
Proof using HP.
  unfold constraint_terms, feasible.
  rewrite !all_hold_app, sign_terms_hold, order_terms_hold,
    overlap_terms_hold, activation_terms_hold by exact HP.
  reflexivity.
Qed.

Lemma satisfies_problem :
  Z3.satisfies sigma (problem P M Cap Df Db st)
  <-> feasible sigma P M Df Db Cap st
      /\ forall pp mb, 0 <= pp < P -> 0 <= mb < M ->
           bwd sigma pp mb <= sigma max_start_offset.
Proof using HP.
  unfold Z3.satisfies, problem. cbn [assertions].
  fold (all_hold sigma
          (constraint_terms P M Df Db Cap st ++ objective_terms P M)).
  rewrite all_hold_app, constraint_terms_hold, objective_terms_hold.
  reflexivity.
Qed.

End Counting.

(** Feasibility does not depend on the objective variable. *)
Lemma feasible_set_max (sigma : assignment) (v : Z) (P M Df Db : Z)
    (Cap : list Z) (st : strategy) :
  feasible (set_max sigma v) P M Df Db Cap st
  <-> feasible sigma P M Df Db Cap st.
Proof. split; intros H; exact H. Qed.

(** ** Consequences of the ordering constraints *)

Lemma last_at (perm : list Z) :
  perm <> [] -> last perm 0 = at_ perm (Py.len perm - 1).
Proof.
  intros H. destruct (exists_last H) as (l & x & ->).
  rewrite last_last. unfold at_, Py.len. rewrite length_app. cbn [List.length].
  replace (Z.to_nat (Z.of_nat (List.length l + 1) - 1)) with (List.length l)
    by lia.
  rewrite nth_middle. reflexivity.
Qed.

Section Chains.

Variable sigma : assignment.

Variables (Df Db : Z).

Lemma chain_reach (perm : list Z) (mb : Z) (d : nat) :
  chain sigma Df Db perm mb ->
  Z.of_nat d <= Py.len perm - 1 ->
  fwd sigma (at_ perm (Py.len perm - 1 - Z.of_nat d)) mb + Z.of_nat d * Df
  <= fwd sigma (at_ perm (Py.len perm - 1)) mb
  /\ bwd sigma (at_ perm (Py.len perm - 1)) mb + Z.of_nat d * Db
     <= bwd sigma (at_ perm (Py.len perm - 1 - Z.of_nat d)) mb.
Proof.
  intros (H1 & H2 & _). induction d as [|d IH]; intros Hd.
  - replace (Py.len perm - 1 - Z.of_nat 0) with (Py.len perm - 1) by lia.
    lia.
  - destruct IH as (IH1 & IH2); [lia|].
    specialize (H1 (Py.len perm - 1 - Z.of_nat (S d))).
    specialize (H2 (Py.len perm - 1 - Z.of_nat d)).
    replace (Py.len perm - 1 - Z.of_nat (S d) + 1)
      with (Py.len perm - 1 - Z.of_nat d) in H1 by lia.
    replace (Py.len perm - 1 - Z.of_nat d - 1)
      with (Py.len perm - 1 - Z.of_nat (S d)) in H2 by lia.
    split; [specialize (H1 ltac:(lia)) | specialize (H2 ltac:(lia))]; lia.
Qed.

(** Along a chain of non-negative durations, each stage runs the forward
    block of the microbatch to its end before its backward block. *)
Lemma chain_handoff (perm : list Z) (mb k : Z) :
  0 <= Df -> 0 <= Db ->
  chain sigma Df Db perm mb ->
  0 <= k < Py.len perm ->
  fwd sigma (at_ perm k) mb + Df <= bwd sigma (at_ perm k) mb.
Proof.
  intros HDf HDb Hc Hk.
  assert (Hne : perm <> []) by (intros ->; cbn in Hk; lia).
  pose proof (chain_reach perm mb (Z.to_nat (Py.len perm - 1 - k)) Hc) as Hr.
  rewrite Z2Nat.id in Hr by lia.
  replace (Py.len perm - 1 - (Py.len perm - 1 - k)) with k in Hr by lia.
  destruct Hr as (Hr1 & Hr2); [lia|].
  destruct Hc as (_ & _ & H3). rewrite (last_at perm Hne) in H3.
  nia.
Qed.

Lemma chain_handoff_in (perm : list Z) (mb pp : Z) :
  0 <= Df -> 0 <= Db ->
  chain sigma Df Db perm mb -> In pp perm ->
  fwd sigma pp mb + Df <= bwd sigma pp mb.
Proof.
  intros HDf HDb Hc Hin.
  destruct (In_nth perm pp 0 Hin) as (n & Hn & <-).
  replace (nth n perm 0) with (at_ perm (Z.of_nat n))
    by (unfold at_; rewrite Nat2Z.id; reflexivity).
  apply chain_handoff; try assumption. unfold Py.len. lia.
Qed.

Lemma ordered_handoff (P : Z) (st : strategy) (mb pp : Z) :
  0 <= Df -> 0 <= Db ->
  ordered sigma P Df Db st mb -> 0 <= pp < P ->
  fwd sigma pp mb + Df <= bwd sigma pp mb.
Proof.
  intros HDf HDb Ho Hpp. apply in_range in Hpp.
  destruct st; cbn [ordered] in Ho.
  - apply (chain_handoff_in (Py.range P)); assumption.
  - destruct Ho as [Ho|Ho].
    + apply (chain_handoff_in (Py.range P)); assumption.
    + apply (chain_handoff_in (rev (Py.range P))); try assumption.
      apply in_rev in Hpp. exact Hpp.
  - destruct Ho as (perm & Hperm & Ho).
    apply (chain_handoff_in perm); try assumption.
    apply (Permutation_in _ Hperm). exact Hpp.
Qed.

(** With two stages or more and a positive duration, a microbatch cannot
    go both down and up. *)
Lemma chains_exclusive (P mb : Z) :
  2 <= P -> 0 < Df \/ 0 < Db ->
  chain sigma Df Db (Py.range P) mb ->
  chain sigma Df Db (rev (Py.range P)) mb ->
  False.
Proof.
  intros HP Hpos (D1 & D2 & _) (U1 & U2 & _).
  rewrite len_range in D1, D2 by lia.
  rewrite len_rev, len_range in U1, U2 by lia.
  specialize (D1 0 ltac:(lia)). specialize (D2 1 ltac:(lia)).
  specialize (U1 (P - 2) ltac:(lia)). specialize (U2 (P - 1) ltac:(lia)).
  rewrite !at_range in D1, D2 by lia.
  rewrite !at_rev_range in U1, U2 by lia.
  replace (P - 1 - (P - 2)) with 1 in U1 by lia.
  replace (P - 1 - (P - 2 + 1)) with 0 in U1 by lia.
  replace (P - 1 - (P - 1)) with 0 in U2 by lia.
  replace (P - 1 - (P - 1 - 1)) with 1 in U2 by lia.
  cbn in D1, D2. lia.
Qed.

(** A looser strategy admits every order a tighter one admits. *)
Lemma ordered_relax (P : Z) (st st' : strategy) (mb : Z) :
  (rank st <= rank st')%nat ->
  ordered sigma P Df Db st mb -> ordered sigma P Df Db st' mb.
Proof.
  intros Hr Ho. destruct st, st'; cbn [rank] in Hr; try lia;
    cbn [ordered] in *; try assumption.
  - left. exact Ho.
  - exists (Py.range P). split; [apply Permutation_refl | exact Ho].
  - destruct Ho as [Ho|Ho].
    + exists (Py.range P). split; [apply Permutation_refl | exact Ho].
    + exists (rev (Py.range P)). split; [apply Permutation_rev | exact Ho].
Qed.

(** More capacity and a looser strategy keep a feasible schedule
    feasible. *)
Lemma feasible_relax (P M : Z) (Cap Cap' : list Z) (st st' : strategy) :
  (rank st <= rank st')%nat ->
  (forall pp, 0 <= pp < P ->
     nth (Z.to_nat pp) Cap 0 <= nth (Z.to_nat pp) Cap' 0) ->
  feasible sigma P M Df Db Cap st -> feasible sigma P M Df Db Cap' st'.
Proof.
  intros Hr Hcap (H1 & H2 & H3 & H4). repeat split.
  - apply H1; assumption.
  - apply H1; assumption.
  - intros mb Hmb. apply (ordered_relax P st st'); [exact Hr|].
    apply H2. exact Hmb.
  - exact H3.
  - intros pp mb Hpp Hmb. specialize (H4 pp mb Hpp Hmb).
    specialize (Hcap pp Hpp). lia.
Qed.

End Chains.

(** ** The makespan *)

Lemma fold_max_ge (l : list Z) (x : Z) :
  x <= fold_left Z.max l x
  /\ forall y, In y l -> y <= fold_left Z.max l x.
Proof.
  revert x. induction l as [|z l IH]; intros x; cbn [fold_left].
  - split; [lia|]. intros y [].
  - destruct (IH (Z.max x z)) as (H1 & H2). split; [lia|].
    intros y [<-|Hy]; [lia|]. apply H2. exact Hy.
Qed.

Lemma fold_max_in (l : list Z) (x : Z) :
  fold_left Z.max l x = x \/ In (fold_left Z.max l x) l.
Proof.
  revert x. induction l as [|z l IH]; intros x; cbn [fold_left].
  - left. reflexivity.
  - destruct (IH (Z.max x z)) as [H|H].
    + rewrite H. destruct (Z.max_spec x z) as [(_ & ->)|(_ & ->)];
        [right; left; reflexivity | left; reflexivity].
    + right. right. exact H.
Qed.

Lemma maximum_ge (l : list Z) (y : Z) : In y l -> y <= maximum l.
Proof.
  destruct l as [|x l]; [intros []|]. cbn [maximum].
  destruct (fold_max_ge l x) as (H1 & H2).
  intros [<-|Hy]; [exact H1|]. apply H2. exact Hy.
Qed.

Lemma maximum_in (l : list Z) : l <> [] -> In (maximum l) l.
Proof.
  destruct l as [|x l]; [intros H; contradiction|]. intros _.
  cbn [maximum]. destruct (fold_max_in l x) as [->|H].
  - left. reflexivity.
  - right. exact H.
Qed.

(** All blocks have the same length, so the block that finishes last is
    the one that starts last. *)
Lemma maximum_shift (l : list Z) (d : Z) :
  l <> [] -> maximum (map (fun s => s + d) l) = maximum l + d.
Proof.
  intros Hl. apply Z.le_antisymm.
  - assert (Hm : map (fun s => s + d) l <> [])
      by (destruct l; [contradiction|discriminate]).
    pose proof (maximum_in _ Hm) as Hin. apply in_map_iff in Hin.
    destruct Hin as (s & <- & Hs). pose proof (maximum_ge l s Hs). lia.
  - apply maximum_ge. apply in_map_iff. exists (maximum l).
    split; [reflexivity|]. apply maximum_in. exact Hl.
Qed.

Section Makespan.

Variables (P M : Z) (Cap : list Z) (Df Db : Z) (st : strategy).

Hypothesis HP : 1 <= P.
Hypothesis HM : 1 <= M.

Lemma in_backward_starts (sigma : assignment) (s : Z) :
  In s (backward_starts sigma P M)
  <-> exists pp mb, 0 <= pp < P /\ 0 <= mb < M /\ s = bwd sigma pp mb.
Proof.
  unfold backward_starts. rewrite in_flat_map. split.
  - intros (pp & Hpp & Hs). apply in_map_iff in Hs.
    destruct Hs as (mb & <- & Hmb). apply in_range in Hpp, Hmb.
    exists pp, mb. repeat split; lia.
  - intros (pp & mb & Hpp & Hmb & ->). exists pp.
    split; [apply in_range; exact Hpp|]. apply in_map.
    apply in_range. exact Hmb.
Qed.

Lemma backward_starts_nonempty (sigma : assignment) :
  backward_starts sigma P M <> [].
Proof using HP HM.
  intros E. assert (H : In (bwd sigma 0 0) (backward_starts sigma P M)).
  { apply in_backward_starts. exists 0, 0. repeat split; lia. }
  rewrite E in H. destruct H.
Qed.

Lemma makespan_eq (sigma : assignment) :
  makespan sigma P M Db = maximum (backward_starts sigma P M) + Db.
Proof using HP HM.
  unfold makespan. apply maximum_shift, backward_starts_nonempty.
Qed.

(** Lowering the objective variable to the latest backward start keeps a
    solution a solution. *)
Lemma satisfies_set_max (sigma : assignment) :
  Z3.satisfies sigma (problem P M Cap Df Db st) ->
  Z3.satisfies
    (set_max sigma (maximum (backward_starts sigma P M)))
    (problem P M Cap Df Db st).
Proof using HP.
  rewrite !satisfies_problem by exact HP. intros (Hf & _). split.
  - apply feasible_set_max. exact Hf.
  - intros pp mb Hpp Hmb. cbn [set_max].
    change (bwd (set_max sigma _) pp mb) with (bwd sigma pp mb).
    apply maximum_ge. apply in_backward_starts. exists pp, mb.
    repeat split; lia.
Qed.

Lemma satisfies_objective_ge (sigma : assignment) :
  Z3.satisfies sigma (problem P M Cap Df Db st) ->
  maximum (backward_starts sigma P M) <= sigma max_start_offset.
Proof using HP HM.
  rewrite satisfies_problem by exact HP. intros (_ & Ho).
  pose proof (maximum_in _ (backward_starts_nonempty sigma)) as Hin.
  apply in_backward_starts in Hin.
  destruct Hin as (pp & mb & Hpp & Hmb & ->). apply Ho; assumption.
Qed.

(** At an optimum the objective variable is the latest backward start. *)
Lemma optimal_objective (sigma : assignment) :
  optimal sigma (problem P M Cap Df Db st) ->
  sigma max_start_offset = maximum (backward_starts sigma P M).
Proof using HP HM.
  intros (Hs & Hopt). apply Z.le_antisymm.
  - specialize (Hopt _ (satisfies_set_max sigma Hs)).
    cbn [problem objectives] in Hopt. inversion Hopt as [|? ? H _]; subst.
    cbn [eval set_max] in H. exact H.
  - apply satisfies_objective_ge. exact Hs.
Qed.

Lemma optimal_makespan (sigma : assignment) :
  optimal sigma (problem P M Cap Df Db st) ->
  makespan sigma P M Db = sigma max_start_offset + Db
  /\ forall sigma', Z3.satisfies sigma' (problem P M Cap Df Db st) ->
       makespan sigma P M Db <= makespan sigma' P M Db.
Proof using HP HM.
  intros Hopt. pose proof (optimal_objective sigma Hopt) as Hobj.
  split.
  - rewrite makespan_eq. lia.
  - intros sigma' Hs'. rewrite !makespan_eq.
    destruct Hopt as (_ & Hopt).
    specialize (Hopt _ (satisfies_set_max sigma' Hs')).
    cbn [problem objectives] in Hopt. inversion Hopt as [|? ? H _]; subst.
    cbn [eval set_max] in H. lia.
Qed.

Lemma in_block_finishes (sigma : assignment) (t : Z) :
  In t (block_finishes sigma P M Df Db)
  <-> exists pp mb,
        0 <= pp < P /\ 0 <= mb < M
        /\ (t = fwd sigma pp mb + Df \/ t = bwd sigma pp mb + Db).
Proof.
  unfold block_finishes. rewrite in_flat_map. split.
  - intros (pp & Hpp & Ht). apply in_range in Hpp.
    apply in_app_or in Ht. destruct Ht as [Ht|Ht];
      apply in_map_iff in Ht; destruct Ht as (mb & <- & Hmb);
      apply in_range in Hmb; exists pp, mb; repeat split; lia.
  - intros (pp & mb & Hpp & Hmb & Ht). exists pp.
    split; [apply in_range; exact Hpp|]. apply in_or_app.
    destruct Ht as [-> | ->]; [left|right];
      apply (in_map_iff _ _ _); exists mb;
      (split; [reflexivity | apply in_range; exact Hmb]).
Qed.

(** When no duration is negative, the block that finishes last is a
    backward block. *)
Lemma schedule_makespan_backward (sigma : assignment) :
  0 <= Df -> 0 <= Db ->
  Z3.satisfies sigma (problem P M Cap Df Db st) ->
  schedule_makespan sigma P M Df Db = makespan sigma P M Db.
Proof using HP HM.
  intros HDf HDb Hs. apply satisfies_problem in Hs; [|exact HP].
  destruct Hs as ((_ & Hord & _) & _).
  assert (Hb : forall pp mb, 0 <= pp < P -> 0 <= mb < M ->
                 bwd sigma pp mb + Db <= makespan sigma P M Db).
  { intros pp mb Hpp Hmb. unfold makespan. apply maximum_ge.
    apply in_map_iff. exists (bwd sigma pp mb). split; [reflexivity|].
    apply in_backward_starts. exists pp, mb. repeat split; lia. }
  unfold schedule_makespan. apply Z.le_antisymm.
  - assert (Hne : block_finishes sigma P M Df Db <> []).
    { intros E.
      assert (H : In (bwd sigma 0 0 + Db) (block_finishes sigma P M Df Db)).
      { apply in_block_finishes. exists 0, 0. repeat split; lia. }
      rewrite E in H. destruct H. }
    pose proof (maximum_in _ Hne) as Hin. apply in_block_finishes in Hin.
    destruct Hin as (pp & mb & Hpp & Hmb & [E|E]); rewrite E.
    + pose proof (ordered_handoff sigma Df Db P st mb pp HDf HDb
                    (Hord mb Hmb) Hpp).
      specialize (Hb pp mb Hpp Hmb). lia.
    + apply Hb; assumption.
  - rewrite makespan_eq.
    pose proof (maximum_in _ (backward_starts_nonempty sigma)) as Hin.
    apply in_backward_starts in Hin.
    destruct Hin as (pp & mb & Hpp & Hmb & E). rewrite E.
    apply maximum_ge. apply in_block_finishes. exists pp, mb.
    repeat split; lia.
Qed.

End Makespan.

(** ** The encoders against the wording of the specification *)

Lemma range_interval (n : Z) : Py.range n = interval 0 (n - 1).
Proof.
  rewrite range_eq. unfold interval.
  replace (n - 1 + 1 - 0) with n by lia.
  apply map_ext. intros k. lia.
Qed.

Lemma range2_interval (n : Z) : Py.range2 1 n = interval 1 (n - 1).
Proof.
  rewrite range2_eq. unfold interval.
  replace (n - 1 + 1 - 1) with (n - 1) by lia. reflexivity.
Qed.

Lemma range3_down_interval (n : Z) :
  Py.range3 (n - 1) 0 (-1) = rev (interval 1 (n - 1)).
Proof. rewrite range3_down_rev, range2_interval. reflexivity. Qed.

Lemma strict_terms_spec (P M Df Db : Z) :
  order_terms P M Df Db strict = spec_strict_terms P M Df Db.
Proof.
  cbn [order_terms]. unfold spec_strict_terms, down_terms.
  rewrite range_interval, range2_interval, range3_down_interval.
  reflexivity.
Qed.

Lemma at_cons (a : Z) (l : list Z) (k : Z) :
  0 <= k -> at_ (a :: l) (k + 1) = at_ l k.
Proof.
  intros H. unfold at_.
  replace (Z.to_nat (k + 1)) with (S (Z.to_nat k)) by lia. reflexivity.
Qed.

Lemma range_cons (n : Z) :
  0 <= n -> Py.range (n + 1) = 0 :: map (fun k => k + 1) (Py.range n).
Proof.
  intros H. rewrite !range_eq.
  replace (Z.to_nat (n + 1)) with (S (Z.to_nat n)) by lia.
  cbn [seq map]. f_equal. rewrite <- seq_shift, !map_map.
  apply map_ext. intros k. lia.
Qed.

(** The pairs of neighbours of an order, by position. *)
Lemma adjacent_at (order : list Z) :
  adjacent order
  = map (fun k => (at_ order k, at_ order (k + 1)))
        (Py.range (Py.len order - 1)).
Proof.
  induction order as [|a [|b rest] IH].
  - reflexivity.
  - reflexivity.
  - change (adjacent (a :: b :: rest))
      with ((a, b) :: adjacent (b :: rest)).
    rewrite IH.
    replace (Py.len (a :: b :: rest) - 1) with (Py.len (b :: rest) - 1 + 1)
      by (unfold Py.len; cbn [List.length]; lia).
    rewrite range_cons by (unfold Py.len; cbn [List.length]; lia).
    cbn [map]. f_equal. rewrite map_map. apply map_ext_in.
    intros k Hk. apply in_range in Hk.
    rewrite !at_cons by lia. reflexivity.
Qed.

(** The conjunction built for a stage order is the traversal of the
    stages in that order. *)
Lemma perm_terms_traversal (Df Db : Z) (perm : list Z) (mb : Z) :
  perm_terms Df Db perm mb = traversal_terms Df Db perm mb.
Proof.
  unfold perm_terms, traversal_terms. rewrite adjacent_at.
  f_equal; [|f_equal].
  - rewrite map_map. reflexivity.
  - rewrite range3_down_rev, range2_shift, !map_rev, !map_map.
    f_equal. apply map_ext. intros k. cbn [fst snd].
    replace (k + 1 - 1) with k by lia. reflexivity.
Qed.

Lemma down_terms_traversal (P Df Db mb : Z) :
  1 <= P ->
  down_terms P Df Db mb = traversal_terms Df Db (interval 0 (P - 1)) mb.
Proof.
  intros HP. rewrite down_terms_perm, perm_terms_traversal, range_interval
    by exact HP.
  reflexivity.
Qed.

Lemma up_terms_traversal (P Df Db mb : Z) :
  1 <= P ->
  up_terms P Df Db mb
  = traversal_terms Df Db (rev (interval 0 (P - 1))) mb.
Proof.
  intros HP. rewrite up_terms_perm, perm_terms_traversal, range_interval
    by exact HP.
  reflexivity.
Qed.

(** ** A single stage *)

Section SingleStage.

Variables (M Df Db : Z).

Lemma strict_terms_single :
  order_terms 1 M Df Db strict
  = map (fun mb => geq (B 0 mb) (F 0 mb) Df) (Py.range M).
Proof. cbn [order_terms]. rewrite <- flat_map_singleton. reflexivity. Qed.

Lemma double_terms_single :
  order_terms 1 M Df Db double_interleaving
  = map (fun mb => Or [And [geq (B 0 mb) (F 0 mb) Df];
                       And [geq (B 0 mb) (F 0 mb) Df]])
        (Py.range M).
Proof. reflexivity. Qed.

Lemma full_terms_single :
  order_terms 1 M Df Db full_interleaving
  = map (fun mb => Or [And [geq (B 0 mb) (F 0 mb) Df]]) (Py.range M).
Proof. reflexivity. Qed.

Lemma order_terms_single_hold (sigma : assignment) (st : strategy) :
  all_hold sigma (order_terms 1 M Df Db st)
  <-> forall mb, 0 <= mb < M -> fwd sigma 0 mb + Df <= bwd sigma 0 mb.
Proof.
  assert (H : forall c : Z -> boolref,
             (forall mb, holds sigma (c mb)
                         = (fwd sigma 0 mb + Df <=? bwd sigma 0 mb)) ->
             all_hold sigma (map c (Py.range M))
             <-> forall mb, 0 <= mb < M ->
                   fwd sigma 0 mb + Df <= bwd sigma 0 mb).
  { intros c Hc. rewrite all_hold_map. split.
    - intros H mb Hmb. apply in_range in Hmb. apply H in Hmb.
      rewrite Hc in Hmb. apply Z.leb_le. exact Hmb.
    - intros H mb Hmb. apply in_range in Hmb. rewrite Hc.
      apply Z.leb_le. apply H. exact Hmb. }
  destruct st.
  - rewrite strict_terms_single. apply H. intros mb. reflexivity.
  - rewrite double_terms_single. apply H. intros mb.
    cbn [holds existsb forallb geq eval F B]. unfold fwd, bwd.
    destruct (sigma (f_ mb 0) + Df <=? sigma (b_ mb 0)); reflexivity.
  - rewrite full_terms_single. apply H. intros mb.
    cbn [holds existsb forallb geq eval F B]. unfold fwd, bwd.
    destruct (sigma (f_ mb 0) + Df <=? sigma (b_ mb 0)); reflexivity.
Qed.

End SingleStage.

(** * Main results *)

Lemma length_flat_map_const {A B} (g : A -> list B) (l : list A) (n : nat) :
  (forall x, In x l -> List.length (g x) = n) ->
  List.length (flat_map g l) = (List.length l * n)%nat.
Proof.
  induction l as [|x l IH]; intros H; [reflexivity|].
  cbn [flat_map List.length]. rewrite length_app, IH, (H x).
  - lia.
  - left. reflexivity.
  - intros y Hy. apply H. right. exact Hy.
Qed.

Lemma satisfies_add_all (sigma : assignment) (cs : list boolref)
    (self : Simulator) :
  Z3.satisfies sigma (_solver (add_all cs self)) -> all_hold sigma cs.
Proof.
  unfold Z3.satisfies, add_all, set_solver. cbn [_solver assertions].
  rewrite forallb_app. intros H. apply andb_true_iff in H. apply H.
Qed.

(** C1. For every stage [pp] and microbatch [mb] the capacity encoder
    asserts one constraint: the count, started at 1 and increased for
    every other microbatch by an if-then-else term worth 1 when
    bwd[pp][other] > bwd[pp][mb] and fwd[pp][other] < bwd[pp][mb] and 0
    otherwise, is at most Cap[pp].  These are P*M constraints, stage by
    stage, each true exactly when the activation count is within the
    capacity, and every assignment that satisfies the problem handed to
    the solver obeys the bound at every stage and microbatch. *)
Theorem activation_capacity_asserted (self : Simulator) :
  offsets_built self ->
  1 <= _pp_size self <= Py.len (_max_activation_times self) ->
  let P := _pp_size self in
  let M := _num_microbatches self in
  let Cap := _max_activation_times self in
  let term pp mb :=
    count_le (count_term M pp mb) (nth (Z.to_nat pp) Cap 0) in
  let cs := flat_map (fun pp => map (term pp) (Py.range M)) (Py.range P) in
  _pipeline_activation_accumulation_constraint self = Ok (add_all cs self)
  /\ List.length cs = (Z.to_nat P * Z.to_nat M)%nat
  /\ (forall sigma pp mb,
        holds sigma (term pp mb) = true
        <-> activation_count sigma M pp mb <= nth (Z.to_nat pp) Cap 0)
  /\ (forall Df Db st,
        encode_config (config_of P M Cap Df Db st)
        = Ok (problem P M Cap Df Db st)
        /\ forall sigma,
             Z3.satisfies sigma (problem P M Cap Df Db st) ->
             forall pp mb, 0 <= pp < P -> 0 <= mb < M ->
               activation_count sigma M pp mb
               <= nth (Z.to_nat pp) Cap 0).
Proof.
  intros Hb HP P M Cap term cs. subst P M Cap term cs. repeat split.
  - rewrite activation_adds by (try exact Hb; lia).
    reflexivity.
  - rewrite (length_flat_map_const _ _ (Z.to_nat (_num_microbatches self))).
    + rewrite length_range. reflexivity.
    + intros pp _. rewrite length_map, length_range. reflexivity.
  - intros H. rewrite holds_count_le, count_term_value in H.
    apply Z.leb_le. exact H.
  - intros H. rewrite holds_count_le, count_term_value.
    apply Z.leb_le. exact H.
  - apply encode_config_of. exact HP.
  - intros sigma Hs. apply satisfies_problem in Hs; [|lia].
    destruct Hs as ((_ & _ & _ & H) & _). exact H.
Qed.

Lemma activation_capacity_asserted_witness :
  offsets_built main_declared
  /\ 1 <= 4 <= Py.len [4; 3; 2; 1]
  /\ _pipeline_activation_accumulation_constraint main_declared
     = Ok (add_all
             (flat_map
                (fun pp =>
                   map (fun mb =>
                          count_le (count_term 6 pp mb)
                                   (nth (Z.to_nat pp) [4; 3; 2; 1] 0))
                       (Py.range 6))
                (Py.range 4))
             main_declared).
Proof.
  split; [split; reflexivity|]. split; [cbn; lia|].
  apply (activation_capacity_asserted main_declared).
  - split; reflexivity.
  - cbn. lia.
Defined.

Lemma disjoint_no_common_instant (sigma : assignment) (Df Db pp : Z)
    (b1 b2 : block) (t : Z) :
  disjoint sigma Df Db pp b1 b2 ->
  ~ (occupies sigma Df Db pp b1 t /\ occupies sigma Df Db pp b2 t).
Proof. unfold disjoint, occupies. lia. Qed.

(** C2. For every stage and every pair of distinct blocks among its 2*M
    blocks, the non-overlap encoder asserts, for the pair taken in one of
    its two orders, the disjunction "second starts at or after first's
    start plus first's duration, or second's start plus second's duration
    is at most first's start" (Df for a forward block, Db for a backward
    one), and asserts nothing else; so in every assignment satisfying the
    solver no two blocks of a stage overlap in time. *)
Theorem no_overlap_asserted (self : Simulator) :
  offsets_built self ->
  let P := _pp_size self in
  let M := _num_microbatches self in
  let Df := _forward_length self in
  let Db := _backward_length self in
  exists cs,
    _serial_computation_within_pipeline_constraint self
    = Ok (add_all cs self)
    /\ (forall c, In c cs <->
          exists pp i j,
            0 <= pp < P /\ 0 <= i < j /\ j < 2 * M
            /\ c = disjoint_term Df Db pp (block_at M i) (block_at M j))
    /\ (forall pp b1 b2,
          0 <= pp < P -> 0 <= snd b1 < M -> 0 <= snd b2 < M -> b1 <> b2 ->
          In (disjoint_term Df Db pp b1 b2) cs
          \/ In (disjoint_term Df Db pp b2 b1) cs)
    /\ (forall sigma,
          Z3.satisfies sigma (_solver (add_all cs self)) ->
          forall pp b1 b2,
            0 <= pp < P -> 0 <= snd b1 < M -> 0 <= snd b2 < M -> b1 <> b2 ->
            disjoint sigma Df Db pp b1 b2
            /\ forall t, ~ (occupies sigma Df Db pp b1 t
                            /\ occupies sigma Df Db pp b2 t)).
Proof.
  intros Hb P M Df Db. subst P M Df Db.
  exists (overlap_terms (_pp_size self) (_num_microbatches self)
            (_forward_length self) (_backward_length self)).
  split; [apply serial_adds; exact Hb|]. split; [|split].
  - intros c. apply in_overlap_terms.
  - intros pp b1 b2 Hpp H1 H2 Hne.
    set (M := _num_microbatches self) in *.
    assert (HM : 1 <= M) by lia.
    pose proof (position_range M HM b1 H1) as Hp1.
    pose proof (position_range M HM b2 H2) as Hp2.
    assert (Hpos : position M b1 <> position M b2).
    { intros E. apply Hne.
      rewrite <- (block_at_position M HM b1 H1),
              <- (block_at_position M HM b2 H2), E.
      reflexivity. }
    destruct (Z.lt_ge_cases (position M b1) (position M b2)) as [Hlt|Hge];
      [left|right]; apply in_overlap_terms.
    + exists pp, (position M b1), (position M b2).
      rewrite !block_at_position by assumption. repeat split; lia.
    + exists pp, (position M b2), (position M b1).
      rewrite !block_at_position by assumption. repeat split; lia.
  - intros sigma Hs pp b1 b2 Hpp H1 H2 Hne.
    apply satisfies_add_all in Hs.
    pose proof (proj1 (overlap_terms_hold sigma _ _ _ _) Hs
                  pp b1 b2 Hpp H1 H2 Hne) as Hd.
    split; [exact Hd|]. intros t.
    apply disjoint_no_common_instant. exact Hd.
Qed.

Lemma no_overlap_asserted_witness :
  offsets_built main_declared
  /\ exists cs,
       _serial_computation_within_pipeline_constraint main_declared
       = Ok (add_all cs main_declared)
       /\ (In (disjoint_term 2 3 0 (forward, 0) (backward, 5)) cs
           \/ In (disjoint_term 2 3 0 (backward, 5) (forward, 0)) cs).
Proof.
  split; [split; reflexivity|].
  destruct (no_overlap_asserted main_declared) as (cs & H & _ & Hin & _).
  - split; reflexivity.
  - exists cs. split; [exact H|].
    apply (Hin 0 (forward, 0) (backward, 5)); try (cbn; lia).
    discriminate.
Defined.

(** C3. Under the strict strategy the ordering encoder asserts, for every
    microbatch, forward[i] >= forward[i-1] + Df for i = 1..P-1,
    backward[i-1] >= backward[i] + Db for i = P-1..1 and
    backward[P-1] >= forward[P-1] + Df, in this order, and nothing
    else. *)
Theorem strict_order_asserted (self : Simulator) :
  offsets_built self ->
  1 <= _pp_size self ->
  _sequential_order_constraint_strict self
  = Ok (add_all
          (spec_strict_terms (_pp_size self) (_num_microbatches self)
             (_forward_length self) (_backward_length self))
          self).
Proof.
  intros Hb HP. rewrite strict_adds by assumption.
  rewrite strict_terms_spec. reflexivity.
Qed.

Lemma strict_order_asserted_witness :
  offsets_built main_declared
  /\ 1 <= _pp_size main_declared
  /\ _sequential_order_constraint_strict main_declared
     = Ok (add_all (spec_strict_terms 4 6 2 3) main_declared).
Proof.
  split; [split; reflexivity|]. split; [cbn; lia|].
  apply (strict_order_asserted main_declared).
  - split; reflexivity.
  - cbn. lia.
Defined.

Lemma in_objective_terms (P M : Z) (c : boolref) :
  In c (objective_terms P M)
  <-> exists pp mb,
        0 <= pp < P /\ 0 <= mb < M
        /\ c = Ge (Int max_start_offset) (Int (b_ mb pp)).
Proof.
  unfold objective_terms. rewrite in_flat_map. split.
  - intros (pp & Hpp & Hc). apply in_flat_map in Hc.
    destruct Hc as (mb & Hmb & [<-|[]]). apply in_range in Hpp, Hmb.
    exists pp, mb. repeat split; lia.
  - intros (pp & mb & Hpp & Hmb & ->). exists pp.
    split; [apply in_range; exact Hpp|]. apply in_flat_map. exists mb.
    split; [apply in_range; exact Hmb|]. left. reflexivity.
Qed.

(** The single-stage schedule solves its problem optimally. *)
Lemma single_schedule_optimal :
  optimal single_schedule (problem 1 1 [1] 1 1 strict).
Proof.
  split; [reflexivity|]. intros sigma Hs. constructor; [|constructor].
  apply satisfies_problem in Hs; [|lia].
  destruct Hs as ((Hsign & Hord & _) & Hobj).
  specialize (Hsign 0 0 ltac:(lia) ltac:(lia)).
  specialize (Hord 0 ltac:(lia)). specialize (Hobj 0 0 ltac:(lia) ltac:(lia)).
  destruct Hord as (_ & _ & Hh). rewrite last_range in Hh by lia.
  change (1 - 1) with 0 in Hh. cbn [eval single_schedule].
  lia.
Qed.

(** C4. The objective encoder asserts max_start_offset >= b for every
    backward offset b of every stage and microbatch, introduces no other
    variable, and declares max_start_offset as the only objective to
    minimise; since all backward blocks last Db, in an optimal assignment
    the last backward block finishes at max_start_offset + Db, and no
    satisfying assignment finishes earlier.  When no duration is
    negative, the last backward block to finish is the last block to
    finish. *)
Theorem objective_is_makespan (P M : Z) (Cap : list Z) (Df Db : Z)
    (st : strategy) :
  1 <= P <= Py.len Cap ->
  1 <= M ->
  (forall self, offsets_built self ->
     _build_optimize_objectives self
     = Ok (solver_minimize (Int max_start_offset)
             (add_all (objective_terms (_pp_size self)
                         (_num_microbatches self))
                      self)))
  /\ (forall c, In c (objective_terms P M) <->
        exists pp mb,
          0 <= pp < P /\ 0 <= mb < M
          /\ c = Ge (Int max_start_offset) (Int (b_ mb pp)))
  /\ encode_config (config_of P M Cap Df Db st)
     = Ok (problem P M Cap Df Db st)
  /\ objectives (problem P M Cap Df Db st) = [Int max_start_offset]
  /\ (forall sigma,
        optimal sigma (problem P M Cap Df Db st) ->
        makespan sigma P M Db = sigma max_start_offset + Db
        /\ forall sigma',
             Z3.satisfies sigma' (problem P M Cap Df Db st) ->
             makespan sigma P M Db <= makespan sigma' P M Db)
  /\ (forall sigma,
        0 <= Df -> 0 <= Db ->
        Z3.satisfies sigma (problem P M Cap Df Db st) ->
        schedule_makespan sigma P M Df Db = makespan sigma P M Db).
Proof.
  intros HP HM. repeat split.
  - intros self Hb. apply objectives_add. exact Hb.
  - apply (proj1 (in_objective_terms P M c)).
  - apply (proj2 (in_objective_terms P M c)).
  - apply encode_config_of. exact HP.
  - apply (optimal_makespan P M Cap Df Db st); try assumption. lia.
  - apply (optimal_makespan P M Cap Df Db st); try assumption. lia.
  - intros HDf HDb Hs.
    apply (schedule_makespan_backward P M Cap Df Db st); try assumption.
    lia.
Qed.

Lemma objective_is_makespan_witness :
  1 <= 1 <= Py.len [1]
  /\ 1 <= 1
  /\ makespan single_schedule 1 1 1 = single_schedule max_start_offset + 1.
Proof.
  split; [cbn; lia|]. split; [lia|].
  destruct (objective_is_makespan 1 1 [1] 1 1 strict)
    as (_ & _ & _ & _ & H & _).
  - cbn. lia.
  - lia.
  - apply (H single_schedule). exact single_schedule_optimal.
Defined.

(** C5. With P, M, Df, Db fixed, raising capacities and moving from strict
    to double-interleave to full-interleave keeps every satisfying
    assignment satisfying, so the optimal makespan does not increase. *)
Theorem relaxation_monotone (P M Df Db : Z) (Cap Cap' : list Z)
    (st st' : strategy) :
  1 <= P <= Py.len Cap ->
  P <= Py.len Cap' ->
  1 <= M ->
  (forall pp, 0 <= pp < P ->
     nth (Z.to_nat pp) Cap 0 <= nth (Z.to_nat pp) Cap' 0) ->
  (rank st <= rank st')%nat ->
  encode_config (config_of P M Cap Df Db st)
  = Ok (problem P M Cap Df Db st)
  /\ encode_config (config_of P M Cap' Df Db st')
     = Ok (problem P M Cap' Df Db st')
  /\ (forall sigma,
        Z3.satisfies sigma (problem P M Cap Df Db st) ->
        Z3.satisfies sigma (problem P M Cap' Df Db st'))
  /\ (forall sigma sigma',
        optimal sigma (problem P M Cap Df Db st) ->
        optimal sigma' (problem P M Cap' Df Db st') ->
        makespan sigma' P M Db <= makespan sigma P M Db).
Proof.
  intros HP HP' HM Hcap Hrank.
  assert (Hsat : forall sigma,
             Z3.satisfies sigma (problem P M Cap Df Db st) ->
             Z3.satisfies sigma (problem P M Cap' Df Db st')).
  { intros sigma Hs. apply satisfies_problem in Hs; [|lia].
    apply satisfies_problem; [lia|]. destruct Hs as (Hf & Ho).
    split; [|exact Ho].
    apply (feasible_relax sigma Df Db P M Cap Cap' st st'); assumption. }
  split; [apply encode_config_of; exact HP|].
  split; [apply encode_config_of; lia|].
  split; [exact Hsat|].
  intros sigma sigma' Hopt Hopt'.
  destruct (optimal_makespan P M Cap' Df Db st' ltac:(lia) HM sigma' Hopt')
    as (_ & Hmin).
  apply Hmin. apply Hsat. apply Hopt.
Qed.

Lemma relaxation_monotone_witness :
  1 <= 1 <= Py.len [1]
  /\ 1 <= Py.len [2]
  /\ 1 <= 1
  /\ (rank strict <= rank full_interleaving)%nat
  /\ Z3.satisfies single_schedule (problem 1 1 [2] 1 1 full_interleaving).
Proof.
  split; [cbn; lia|]. split; [cbn; lia|]. split; [lia|].
  split; [cbn; lia|].
  destruct (relaxation_monotone 1 1 1 1 [1] [2] strict full_interleaving)
    as (_ & _ & H & _).
  - cbn. lia.
  - cbn. lia.
  - lia.
  - intros pp Hpp. replace pp with 0 by lia. cbn. lia.
  - cbn. lia.
  - apply H. reflexivity.
Defined.

(** C10. For positive Df and Db and each of the three strategies, in every
    assignment satisfying the constraints, at every stage and for every
    microbatch the backward offset is at least the forward offset plus
    Df: the forward block is over before the backward block starts, and
    the activation window is not empty. *)
Theorem backward_after_forward (P M : Z) (Cap : list Z) (Df Db : Z)
    (st : strategy) :
  1 <= P <= Py.len Cap ->
  0 < Df -> 0 < Db ->
  encode_config (config_of P M Cap Df Db st)
  = Ok (problem P M Cap Df Db st)
  /\ forall sigma,
       Z3.satisfies sigma (problem P M Cap Df Db st) ->
       forall pp mb, 0 <= pp < P -> 0 <= mb < M ->
         fwd sigma pp mb + Df <= bwd sigma pp mb
         /\ fwd sigma pp mb < bwd sigma pp mb.
Proof.
  intros HP HDf HDb. split; [apply encode_config_of; exact HP|].
  intros sigma Hs pp mb Hpp Hmb. apply satisfies_problem in Hs; [|lia].
  destruct Hs as ((_ & Hord & _) & _).
  pose proof (ordered_handoff sigma Df Db P st mb pp ltac:(lia) ltac:(lia)
                (Hord mb Hmb) Hpp).
  lia.
Qed.

Lemma backward_after_forward_witness :
  1 <= 4 <= Py.len [4; 3; 2; 1]
  /\ 0 < 2 /\ 0 < 3
  /\ encode_config (config_of 4 6 [4; 3; 2; 1] 2 3 strict)
     = Ok (problem 4 6 [4; 3; 2; 1] 2 3 strict).
Proof.
  split; [cbn; lia|]. split; [lia|]. split; [lia|].
  apply (backward_after_forward 4 6 [4; 3; 2; 1] 2 3 strict).
  - cbn. lia.
  - lia.
  - lia.
Defined.

Lemma is_strategy_name_iff (v : Py.value) :
  is_strategy_name v = true <-> exists st, v = PyStr (strategy_name st).
Proof.
  split.
  - destruct v as [| |s|]; cbn [is_strategy_name]; try discriminate.
    cbn [existsb]. rewrite orb_false_r, !orb_true_iff, !String.eqb_eq.
    intros [->|[->| ->]];
      [exists strict | exists double_interleaving
       | exists full_interleaving]; reflexivity.
  - intros ([| |] & ->); reflexivity.
Qed.

(** C6, counterexample. A configuration with a zero and a negative
    duration and one with a capacity array longer than the stage count
    are configuration errors, yet construction succeeds on both, and the
    model is built from them.  A capacity array that is too short passes
    construction as well, and stops the construction of the model with an
    index error. *)
Lemma construction_accepts_bad_values :
  configuration_error zero_duration_config
  /\ __init__ zero_duration_config = Ok (fresh 2 2 [1; 1] 0 (-1) strict)
  /\ encode (fresh 2 2 [1; 1] 0 (-1) strict)
     = Ok (problem 2 2 [1; 1] 0 (-1) strict)
  /\ configuration_error long_capacity_config
  /\ __init__ long_capacity_config = Ok (fresh 2 2 [1; 1; 7] 1 1 strict)
  /\ encode (fresh 2 2 [1; 1; 7] 1 1 strict)
     = Ok (problem 2 2 [1; 1; 7] 1 1 strict)
  /\ configuration_error short_capacity_config
  /\ __init__ short_capacity_config = Ok (fresh 2 2 [1] 1 1 strict)
  /\ encode (fresh 2 2 [1] 1 1 strict) = Raise IndexError.
Proof.
  split; [right; left; reflexivity|]. split; [reflexivity|].
  split; [apply encode_fresh; cbn; lia|].
  split; [right; right; right; cbn; lia|]. split; [reflexivity|].
  split; [apply encode_fresh; cbn; lia|].
  split; [right; right; right; cbn; lia|]. split; reflexivity.
Qed.

(** C6, amended. Construction succeeds exactly when both durations are
    integers and the strategy is one of the three names, and then stores
    the configuration unchanged; otherwise it raises an assertion error
    whose message names the first offending entry: the forward duration,
    then the backward duration, then the strategy. *)
Theorem construction_checks (config : Config) :
  (forall self,
     __init__ config = Ok self <->
     exists df db st,
       forward_execution_time config = PyInt df
       /\ backward_execution_time config = PyInt db
       /\ sequential_order_constraint_strategy config
          = PyStr (strategy_name st)
       /\ self = fresh (pp_size config) (num_microbatches config)
                   (max_activation_times config) df db st)
  /\ (forall e,
        __init__ config = Raise e <->
        (Py.isinstance_int (forward_execution_time config) = false
         /\ e = AssertionError "forward_execution_time must be int")
        \/ (Py.isinstance_int (forward_execution_time config) = true
            /\ Py.isinstance_int (backward_execution_time config) = false
            /\ e = AssertionError "backward_execution_time must be int")
        \/ (Py.isinstance_int (forward_execution_time config) = true
            /\ Py.isinstance_int (backward_execution_time config) = true
            /\ is_strategy_name
                 (sequential_order_constraint_strategy config) = false
            /\ e = AssertionError
                     "sequential order constraint strategy is not supported")).
Proof.
  destruct config as [P M Cap fl bl sv]. unfold __init__.
  cbn [forward_execution_time backward_execution_time
       sequential_order_constraint_strategy pp_size num_microbatches
       max_activation_times].
  destruct fl as [df| | |]; cbn [assert_isinstance_int Py.bind
                                  Py.isinstance_int].
  2-4: split; [ intros self; split;
                [ discriminate
                | intros (? & ? & ? & E & _); discriminate ]
              | intros e; split;
                [ intros E; injection E as <-; left; split; reflexivity
                | intros [(_ & ->)|[(E & _)|(E & _)]];
                  [reflexivity | discriminate | discriminate] ] ].
  destruct bl as [db| | |]; cbn [assert_isinstance_int Py.bind
                                  Py.isinstance_int].
  2-4: split; [ intros self; split;
                [ discriminate
                | intros (? & ? & ? & _ & E & _); discriminate ]
              | intros e; split;
                [ intros E; injection E as <-; right; left;
                  repeat split; reflexivity
                | intros [(E & _)|[(_ & _ & ->)|(_ & E & _)]];
                  [discriminate | reflexivity | discriminate] ] ].
  destruct (is_strategy_name sv) eqn:Hs.
  - apply is_strategy_name_iff in Hs. destruct Hs as (st & ->).
    assert (E : assert_in (PyStr (strategy_name st))
                  ["strict"; "double_interleaving"; "full_interleaving"]
                  "sequential order constraint strategy is not supported"
                = Ok (strategy_name st)) by (destruct st; reflexivity).
    rewrite E. cbn [Py.bind]. split.
    + intros self. split.
      * intros H. injection H as <-. exists df, db, st.
        repeat split; reflexivity.
      * intros (df' & db' & st' & H1 & H2 & H3 & ->).
        injection H1 as <-. injection H2 as <-. injection H3 as H3.
        rewrite H3. reflexivity.
    + intros e. split; [discriminate|].
      intros [(E' & _)|[(_ & E' & _)|(_ & _ & E' & _)]]; discriminate.
  - assert (E : assert_in sv
                  ["strict"; "double_interleaving"; "full_interleaving"]
                  "sequential order constraint strategy is not supported"
                = Raise (AssertionError
                     "sequential order constraint strategy is not supported")).
    { destruct sv as [| |s|]; try reflexivity.
      cbn [assert_in]. cbn [is_strategy_name] in Hs. rewrite Hs.
      reflexivity. }
    rewrite E. cbn [Py.bind]. split.
    + intros self. split; [discriminate|].
      intros (df' & db' & st' & _ & _ & H3 & _). subst sv.
      assert (Ht : is_strategy_name (PyStr (strategy_name st')) = true)
        by (destruct st'; reflexivity).
      rewrite Ht in Hs. discriminate.
    + intros e. split.
      * intros H. injection H as <-. right. right.
        repeat split; reflexivity.
      * intros [(E' & _)|[(_ & E' & _)|(_ & _ & _ & ->)]];
          try discriminate. reflexivity.
Qed.

(** C7. A solver answer that is neither sat nor unsat is reported with
    the very output of an unsatisfiable problem: the line "Result: UNSAT"
    and no schedule. *)
Theorem unknown_reported_as_unsat (check : Optimize -> CheckSatResult)
    (model : Optimize -> list (const * Z)) (self : Simulator)
    (solver : Optimize) :
  encode self = Ok solver ->
  check solver = unknown ->
  run check model self
  = Ok (mkOutcome ["Z3 Solver Solving..."; "Result: UNSAT"] None)
  /\ run (fun _ => unsat) model self = run check model self.
Proof.
  intros He Hc. unfold encode in He. unfold run.
  destruct (_build_constraints self) as [s1|e]; [|discriminate].
  cbn [Py.bind] in *.
  destruct (_build_optimize_objectives s1) as [s2|e]; [|discriminate].
  cbn [Py.bind] in *. injection He as ->. rewrite Hc.
  split; reflexivity.
Qed.

Lemma unknown_reported_as_unsat_witness :
  encode (fresh 4 6 [4; 3; 2; 1] 2 3 strict)
  = Ok (problem 4 6 [4; 3; 2; 1] 2 3 strict)
  /\ __init__ main_config = Ok (fresh 4 6 [4; 3; 2; 1] 2 3 strict)
  /\ run (fun _ => unknown) (fun _ => [])
         (fresh 4 6 [4; 3; 2; 1] 2 3 strict)
     = Ok (mkOutcome ["Z3 Solver Solving..."; "Result: UNSAT"] None).
Proof.
  split; [apply encode_fresh; cbn; lia|]. split; [reflexivity|].
  apply (unknown_reported_as_unsat (fun _ => unknown) (fun _ => [])
           (fresh 4 6 [4; 3; 2; 1] 2 3 strict)
           (problem 4 6 [4; 3; 2; 1] 2 3 strict)).
  - apply encode_fresh. cbn. lia.
  - reflexivity.
Defined.

(** C8, counterexample. With a single stage the two branches asserted
    for a microbatch are the same conjunction, and the schedule "forward
    at 0, backward at 1" satisfies the whole problem and both branches. *)
Lemma double_interleaving_both_branches :
  _sequential_order_constraint_double_interleaving
    (single_declared double_interleaving)
  = Ok (add_all
          [Or [And [Ge (Int (b_ 0 0)) (Add (Int (f_ 0 0)) (IntVal 1))];
               And [Ge (Int (b_ 0 0)) (Add (Int (f_ 0 0)) (IntVal 1))]]]
          (single_declared double_interleaving))
  /\ encode_config (config_of 1 1 [1] 1 1 double_interleaving)
     = Ok (problem 1 1 [1] 1 1 double_interleaving)
  /\ Z3.satisfies single_schedule (problem 1 1 [1] 1 1 double_interleaving)
  /\ holds single_schedule
       (And [Ge (Int (b_ 0 0)) (Add (Int (f_ 0 0)) (IntVal 1))]) = true.
Proof. repeat split; reflexivity. Qed.

(** C8, amended. Under the double-interleave strategy the encoder
    asserts, for every microbatch, the disjunction of two conjunctions:
    the traversal of the stages in the order 0..P-1, which is the strict
    chain, and the traversal in the reversed order.  In every satisfying
    assignment at least one branch holds for each microbatch; with two
    stages or more and a positive duration, exactly one does. *)
Theorem double_interleaving_asserted (self : Simulator) :
  offsets_built self ->
  1 <= _pp_size self ->
  let P := _pp_size self in
  let M := _num_microbatches self in
  let Df := _forward_length self in
  let Db := _backward_length self in
  let down mb := And (traversal_terms Df Db (interval 0 (P - 1)) mb) in
  let up mb := And (traversal_terms Df Db (rev (interval 0 (P - 1))) mb) in
  let cs := map (fun mb => Or [down mb; up mb]) (interval 0 (M - 1)) in
  _sequential_order_constraint_double_interleaving self
  = Ok (add_all cs self)
  /\ flat_map (traversal_terms Df Db (interval 0 (P - 1)))
              (interval 0 (M - 1))
     = spec_strict_terms P M Df Db
  /\ forall sigma,
       Z3.satisfies sigma (_solver (add_all cs self)) ->
       forall mb, 0 <= mb < M ->
         (holds sigma (down mb) = true \/ holds sigma (up mb) = true)
         /\ (2 <= P -> 0 < Df \/ 0 < Db ->
             ~ (holds sigma (down mb) = true
                /\ holds sigma (up mb) = true)).
Proof.
  intros Hb HP P M Df Db down up cs.
  assert (Hcs : cs = order_terms P M Df Db double_interleaving).
  { unfold cs, down, up. cbn [order_terms]. rewrite range_interval.
    apply map_ext. intros mb.
    rewrite down_terms_traversal, up_terms_traversal by exact HP.
    reflexivity. }
  split; [|split].
  - rewrite Hcs. apply double_interleaving_adds; assumption.
  - rewrite <- strict_terms_spec. cbn [order_terms].
    rewrite range_interval. apply flat_map_ext. intros mb.
    symmetry. apply down_terms_traversal. exact HP.
  - intros sigma Hs mb Hmb. apply satisfies_add_all in Hs.
    unfold cs in Hs. rewrite all_hold_map in Hs.
    specialize (Hs mb). rewrite <- range_interval in Hs.
    specialize (Hs (proj2 (in_range M mb) Hmb)).
    cbn [holds existsb] in Hs. rewrite orb_false_r in Hs.
    apply orb_true_iff in Hs. split; [exact Hs|].
    intros HP2 Hpos (Hd & Hu). unfold down, up in Hd, Hu.
    rewrite <- perm_terms_traversal, <- range_interval in Hd, Hu.
    apply holds_And, perm_terms_hold in Hd.
    apply holds_And, perm_terms_hold in Hu.
    exact (chains_exclusive sigma Df Db P mb HP2 Hpos Hd Hu).
Qed.

Lemma double_interleaving_asserted_witness :
  offsets_built main_declared
  /\ 1 <= _pp_size main_declared
  /\ _sequential_order_constraint_double_interleaving main_declared
     = Ok (add_all
             (map (fun mb =>
                     Or [And (traversal_terms 2 3 (interval 0 (4 - 1)) mb);
                         And (traversal_terms 2 3
                                (rev (interval 0 (4 - 1))) mb)])
                  (interval 0 (6 - 1)))
             main_declared).
Proof.
  split; [split; reflexivity|]. split; [cbn; lia|].
  apply (double_interleaving_asserted main_declared).
  - split; reflexivity.
  - cbn. lia.
Defined.

(** C9. With a single stage the three ordering encoders assert, per
    microbatch, backward[0] >= forward[0] + Df alone (strict), or that
    same constraint wrapped in a disjunction of conjunctions (double- and
    full-interleave); the three sets of constraints have the same
    satisfying assignments, those with
    backward[0][mb] >= forward[0][mb] + Df for every microbatch, and no
    constraint relates two stages. *)
Theorem single_stage_strategies_agree (self : Simulator) :
  offsets_built self ->
  _pp_size self = 1 ->
  let M := _num_microbatches self in
  let Df := _forward_length self in
  let handoff mb := Ge (Int (b_ mb 0)) (Add (Int (f_ mb 0)) (IntVal Df)) in
  let cs_strict := map handoff (Py.range M) in
  let cs_double :=
    map (fun mb => Or [And [handoff mb]; And [handoff mb]]) (Py.range M) in
  let cs_full := map (fun mb => Or [And [handoff mb]]) (Py.range M) in
  _sequential_order_constraint_strict self = Ok (add_all cs_strict self)
  /\ _sequential_order_constraint_double_interleaving self
     = Ok (add_all cs_double self)
  /\ _sequential_order_constraint_full_interleaving self
     = Ok (add_all cs_full self)
  /\ forall sigma,
       let meaning :=
         forall mb, 0 <= mb < M -> fwd sigma 0 mb + Df <= bwd sigma 0 mb in
       (all_hold sigma cs_strict <-> meaning)
       /\ (all_hold sigma cs_double <-> meaning)
       /\ (all_hold sigma cs_full <-> meaning).
Proof.
  intros Hb HP M Df handoff cs_strict cs_double cs_full.
  set (Db := _backward_length self).
  assert (H1 : cs_strict = order_terms 1 M Df Db strict)
    by (symmetry; apply strict_terms_single).
  assert (H2 : cs_double = order_terms 1 M Df Db double_interleaving)
    by reflexivity.
  assert (H3 : cs_full = order_terms 1 M Df Db full_interleaving)
    by reflexivity.
  rewrite H1, H2, H3. repeat split.
  - rewrite strict_adds by (try exact Hb; lia). rewrite HP. reflexivity.
  - rewrite double_interleaving_adds by (try exact Hb; lia).
    rewrite HP. reflexivity.
  - rewrite full_interleaving_adds by (try exact Hb; lia).
    rewrite HP. reflexivity.
  - apply (proj1 (order_terms_single_hold M Df Db sigma strict)).
  - apply (proj2 (order_terms_single_hold M Df Db sigma strict)).
  - apply (proj1 (order_terms_single_hold M Df Db sigma
                    double_interleaving)).
  - apply (proj2 (order_terms_single_hold M Df Db sigma
                    double_interleaving)).
  - apply (proj1 (order_terms_single_hold M Df Db sigma full_interleaving)).
  - apply (proj2 (order_terms_single_hold M Df Db sigma full_interleaving)).
Qed.

Lemma single_stage_strategies_agree_witness :
  offsets_built (single_declared strict)
  /\ _pp_size (single_declared strict) = 1
  /\ _sequential_order_constraint_full_interleaving (single_declared strict)
     = Ok (add_all
             (map (fun mb =>
                     Or [And [Ge (Int (b_ mb 0))
                                 (Add (Int (f_ mb 0)) (IntVal 1))]])
                  (Py.range 1))
             (single_declared strict)).
Proof.
  split; [split; reflexivity|]. split; [reflexivity|].
  apply (single_stage_strategies_agree (single_declared strict)).
  - split; reflexivity.
  - reflexivity.
Defined.

(** * Further results *)

(** ** The constraint system as a whole *)

(** X1. [_build_constraints] is sound and complete. For a configuration with
    at least one stage and a capacity per stage it succeeds, leaves in row
    [i], column [mb] of the two offset tables the variables [f_{mb}_{i}] and
    [b_{mb}_{i}], declares no objective, and asserts constraints that an
    assignment satisfies exactly when its schedule is feasible: offsets are
    not negative, every microbatch follows the order of the strategy, the
    blocks of a stage are pairwise disjoint, and the activation count is
    within the capacity at every stage and microbatch. *)
Theorem build_constraints_characterised (P M : Z) (Cap : list Z)
    (Df Db : Z) (st : strategy) :
  1 <= P <= Py.len Cap ->
  exists self,
    (s <- __init__ (config_of P M Cap Df Db st);; _build_constraints s)
    = Ok self
    /\ offsets_built self
    /\ _pp_size self = P /\ _num_microbatches self = M
    /\ objectives (_solver self) = []
    /\ forall sigma,
         Z3.satisfies sigma (_solver self)
         <-> feasible sigma P M Df Db Cap st.
Proof.
  intros HP.
  exists (declared P M Cap Df Db st (constraint_terms P M Df Db Cap st)).
  split.
  { rewrite init_config_of. cbn [Py.bind].
    apply build_constraints_fresh. exact HP. }
  split; [apply declared_built|].
  split; [reflexivity|]. split; [reflexivity|]. split; [reflexivity|].
  intros sigma. apply (constraint_terms_hold sigma P M Cap Df Db st). lia.
Qed.

Lemma build_constraints_characterised_witness :
  1 <= 1 <= Py.len [1]
  /\ exists self,
       (s <- __init__ (config_of 1 1 [1] 1 1 strict);; _build_constraints s)
       = Ok self
       /\ Z3.satisfies single_schedule (_solver self).
Proof.
  split; [cbn; lia|].
  destruct (build_constraints_characterised 1 1 [1] 1 1 strict)
    as (self & H & _ & _ & _ & _ & Hs).
  - cbn. lia.
  - exists self. split; [exact H|].
    injection H as <-. reflexivity.
Defined.

(** ** Degenerate shapes *)

Lemma for_noop {A S} (l : list A) (body : A -> S -> Py.result S) (s : S) :
  (forall x, In x l -> body x s = Ok s) -> Py.for_ l body s = Ok s.
Proof.
  induction l as [|x l IH]; intros H; [reflexivity|].
  cbn [Py.for_]. rewrite (H x) by (left; reflexivity). cbn [Py.bind].
  apply IH. intros y Hy. apply H. right. exact Hy.
Qed.

Lemma range_cons_head (n : Z) :
  1 <= n -> exists rest, Py.range n = 0 :: rest.
Proof.
  intros H. replace n with (n - 1 + 1) by lia.
  rewrite range_cons by lia. eexists. reflexivity.
Qed.

Lemma getitem_nil_raises {A} (i : Z) :
  Py.getitem (@nil A) i = Raise IndexError.
Proof.
  unfold Py.getitem, Py.len. cbn [List.length].
  destruct (i <? 0) eqn:E.
  - apply Z.ltb_lt in E.
    destruct (Z.of_nat 0 + i <? 0) eqn:E'; [reflexivity|].
    apply Z.ltb_ge in E'. lia.
  - rewrite E. destruct (Z.to_nat i); reflexivity.
Qed.

(** X2. Without a stage ([pp_size <= 0]) and with a microbatch, no model is
    built: under each of the three strategies [_build_constraints] stops with
    an index error, at the first stage lookup of the ordering encoder. *)
Theorem no_stage_raises (P M : Z) (Cap : list Z) (Df Db : Z)
    (st : strategy) :
  P <= 0 -> 1 <= M ->
  (s <- __init__ (config_of P M Cap Df Db st);; _build_constraints s)
  = Raise IndexError.
Proof.
  intros HP HM. rewrite init_config_of. cbn [Py.bind].
  unfold _build_constraints, declare_offsets, fresh.
  cbn [_pp_size]. rewrite (range_nonpos P HP).
  cbn [Py.for_ Py.bind map].
  destruct (range_cons_head M HM) as (rest & HR).
  unfold sequential_order_constraint.
  cbn [_sequential_order_constraint_strategy].
  destruct st; cbn [strategy_name String.eqb Ascii.eqb Bool.eqb].
  - unfold _sequential_order_constraint_strict.
    cbn [_num_microbatches]. rewrite HR. cbn [Py.for_ _pp_size].
    rewrite range2_eq. replace (Z.to_nat (P - 1)) with O by lia.
    cbn [seq map Py.for_ Py.bind _pp_size].
    rewrite range3_down_eq. replace (Z.to_nat (P - 1 - 0)) with O by lia.
    cbn [seq map Py.for_ Py.bind _pp_size]. unfold ge_plus, getitem2.
    cbn [_backward_offsets]. rewrite getitem_nil_raises. reflexivity.
  - unfold _sequential_order_constraint_double_interleaving.
    cbn [_num_microbatches]. rewrite HR. cbn [Py.for_ _pp_size].
    rewrite range2_eq. replace (Z.to_nat (P - 1)) with O by lia.
    cbn [seq map Py.comprehension Py.bind _pp_size].
    rewrite range3_down_eq. replace (Z.to_nat (P - 1 - 0)) with O by lia.
    cbn [seq map Py.comprehension Py.bind _pp_size].
    unfold ge_plus, getitem2.
    cbn [_backward_offsets]. rewrite getitem_nil_raises. reflexivity.
  - unfold _sequential_order_constraint_full_interleaving.
    cbn [_num_microbatches]. rewrite HR. cbn [Py.for_ _pp_size].
    rewrite (range_nonpos P HP). reflexivity.
Qed.

Lemma no_stage_raises_witness :
  0 <= 0 /\ 1 <= 6
  /\ (s <- __init__ (config_of 0 6 [] 2 3 full_interleaving);;
      _build_constraints s)
     = Raise IndexError.
Proof.
  split; [lia|]. split; [lia|].
  apply (no_stage_raises 0 6 [] 2 3 full_interleaving); lia.
Defined.

(** X3. Without a microbatch ([num_microbatches <= 0]) the encoding succeeds
    for any stage count, capacity list and strategy, asserts nothing and still
    asks to minimise [max_start_offset]: every assignment is a solution and
    none is optimal. *)
Theorem no_microbatch_unbounded (P M : Z) (Cap : list Z) (Df Db : Z)
    (st : strategy) :
  M <= 0 ->
  encode_config (config_of P M Cap Df Db st)
  = Ok (mkOptimize [] [Int max_start_offset])
  /\ (forall sigma,
        Z3.satisfies sigma (mkOptimize [] [Int max_start_offset]))
  /\ (forall sigma, ~ optimal sigma (mkOptimize [] [Int max_start_offset])).
Proof.
  intros HM. split; [|split].
  - unfold encode_config. rewrite init_config_of. cbn [Py.bind].
    unfold encode, _build_constraints.
    assert (Hd : declare_offsets (fresh P M Cap Df Db st)
                 = Ok (fresh P M Cap Df Db st)).
    { unfold declare_offsets. apply for_noop. intros i _.
      unfold fresh. cbn [_num_microbatches]. rewrite (range_nonpos M HM).
      reflexivity. }
    rewrite Hd. cbn [Py.bind].
    assert (Ho : sequential_order_constraint (fresh P M Cap Df Db st)
                 = Ok (fresh P M Cap Df Db st)).
    { unfold sequential_order_constraint.
      unfold fresh. cbn [_sequential_order_constraint_strategy].
      destruct st; cbn [strategy_name String.eqb Ascii.eqb Bool.eqb];
        [ unfold _sequential_order_constraint_strict
        | unfold _sequential_order_constraint_double_interleaving
        | unfold _sequential_order_constraint_full_interleaving ];
        cbn [_num_microbatches]; rewrite (range_nonpos M HM);
        reflexivity. }
    rewrite Ho. cbn [Py.bind].
    assert (Hrow : forall pp, In pp (Py.range P) ->
              Py.getitem (map (fun _ : Z => @nil arith) (Py.range P)) pp
              = Ok []).
    { intros pp Hpp. apply in_range in Hpp.
      apply (getitem_map_range (fun _ => @nil arith)). exact Hpp. }
    assert (Hs : _serial_computation_within_pipeline_constraint
                   (fresh P M Cap Df Db st)
                 = Ok (fresh P M Cap Df Db st)).
    { unfold _serial_computation_within_pipeline_constraint.
      apply for_noop. intros pp Hpp.
      unfold fresh. cbn [_forward_offsets _backward_offsets].
      rewrite (Hrow pp Hpp). reflexivity. }
    rewrite Hs. cbn [Py.bind].
    assert (Ha : _pipeline_activation_accumulation_constraint
                   (fresh P M Cap Df Db st)
                 = Ok (fresh P M Cap Df Db st)).
    { unfold _pipeline_activation_accumulation_constraint.
      apply for_noop. intros pp _.
      unfold fresh. cbn [_num_microbatches]. rewrite (range_nonpos M HM).
      reflexivity. }
    rewrite Ha. cbn [Py.bind].
    unfold _build_optimize_objectives.
    rewrite for_noop.
    + reflexivity.
    + intros pp Hpp. unfold fresh. cbn [_backward_offsets].
      rewrite (Hrow pp Hpp). reflexivity.
  - intros sigma. reflexivity.
  - intros sigma (_ & Hopt).
    specialize (Hopt (set_max sigma (sigma max_start_offset - 1))
                     eq_refl).
    cbn [objectives] in Hopt. inversion Hopt as [|? ? H _]; subst.
    cbn [eval set_max] in H. lia.
Qed.

Lemma no_microbatch_unbounded_witness :
  0 <= 0
  /\ encode_config (config_of 4 0 [4; 3; 2; 1] 2 3 strict)
     = Ok (mkOptimize [] [Int max_start_offset]).
Proof.
  split; [lia|].
  apply (no_microbatch_unbounded 4 0 [4; 3; 2; 1] 2 3 strict). lia.
Defined.

(** ** A capacity list shorter than the stage count *)

Lemma map_seq_from {A} (f : nat -> A) (a b : nat) :
  map f (seq a b) = map (fun i => f (a + i)%nat) (seq 0 b).
Proof.
  induction a as [|a IH] in f |- *; [reflexivity|].
  rewrite <- seq_shift, map_map, IH. reflexivity.
Qed.

Lemma range_split (n P : Z) :
  0 <= n < P ->
  Py.range P
  = Py.range n ++ n :: map (fun k => n + 1 + k) (Py.range (P - n - 1)).
Proof.
  intros H. rewrite !range_eq, map_map.
  replace (Z.to_nat P)
    with (Z.to_nat n + S (Z.to_nat (P - n - 1)))%nat by lia.
  rewrite seq_app, map_app. f_equal. cbn [seq map Nat.add]. f_equal.
  - lia.
  - rewrite map_seq_from. apply map_ext. intros k. lia.
Qed.

Section ShortCapacity.

Variable self : Simulator.

Let P := _pp_size self.
Let M := _num_microbatches self.
Let Cap := _max_activation_times self.

Hypothesis built : offsets_built self.

(** One round of the outer loop of the capacity encoder. *)
Let stage_round (pp : Z) (self : Simulator) : Py.result Simulator :=
  Py.for_ (Py.range (_num_microbatches self)) (fun mb self =>
    _backward_var <- getitem2 (_backward_offsets self) pp mb;;
    _actvaition_count <-
      Py.for_ (Py.range (_num_microbatches self))
        (fun other_mb _actvaition_count =>
           if other_mb =? mb then Ok _actvaition_count
           else
             b <- getitem2 (_backward_offsets self) pp other_mb;;
             f <- getitem2 (_forward_offsets self) pp other_mb;;
             Ok (count_add _actvaition_count
                   (If (And [Gt b _backward_var; Lt f _backward_var])
                       (IntVal 1) (IntVal 0))))
        (PyCount 1);;
    cap <- Py.getitem (_max_activation_times self) pp;;
    Ok (solver_add (count_le _actvaition_count cap) self)) self.

Lemma stage_round_ok (cs : list boolref) (pp : Z) :
  0 <= pp < P -> pp < Py.len Cap ->
  stage_round pp (add_all cs self)
  = Ok (add_all
          (cs ++ flat_map
                   (fun mb => [count_le (count_term M pp mb)
                                        (nth (Z.to_nat pp) Cap 0)])
                   (Py.range M))
          self).
Proof using built.
  intros Hpp Hcap. unfold stage_round, P, M, Cap in *.
  cbn [add_all set_solver _num_microbatches].
  apply for_add_all. intros mb cs' Hmb. apply in_range in Hmb.
  cbn [add_all set_solver _num_microbatches _max_activation_times
       _forward_offsets _backward_offsets].
  rewrite getitem2_backward by assumption. cbn [Py.bind].
  rewrite (count_loop self built pp mb) by assumption. cbn [Py.bind].
  rewrite (getitem_nth (_max_activation_times self) pp 0) by lia.
  cbn [Py.bind]. rewrite solver_add_add_all. reflexivity.
Qed.

Lemma stage_round_raises (cs : list boolref) (pp : Z) :
  0 <= pp < P -> Py.len Cap <= pp -> 1 <= M ->
  stage_round pp (add_all cs self) = Raise IndexError.
Proof using built.
  intros Hpp Hcap HM. unfold stage_round, P, M, Cap in *.
  cbn [add_all set_solver _num_microbatches].
  destruct (range_cons_head _ HM) as (rest & HR). rewrite HR at 1.
  cbn [Py.for_].
  cbn [add_all set_solver _num_microbatches _max_activation_times
       _forward_offsets _backward_offsets].
  rewrite getitem2_backward by (try assumption; lia). cbn [Py.bind].
  rewrite (count_loop self built pp 0) by (try assumption; lia).
  cbn [Py.bind].
  rewrite (getitem_out_of_range _ pp Hcap). reflexivity.
Qed.

Lemma activation_raises :
  0 <= Py.len Cap < P -> 1 <= M ->
  _pipeline_activation_accumulation_constraint self = Raise IndexError.
Proof using built.
  intros HCap HM. unfold _pipeline_activation_accumulation_constraint.
  fold P. change (Py.for_ (Py.range P) stage_round self = Raise IndexError).
  rewrite (range_split (Py.len Cap) P) by lia.
  rewrite for_app. rewrite <- (add_all_nil self) at 1.
  rewrite (for_add_all (Py.range (Py.len Cap)) stage_round
             (fun pp => flat_map
                          (fun mb => [count_le (count_term M pp mb)
                                        (nth (Z.to_nat pp) Cap 0)])
                          (Py.range M))).
  - cbn [Py.bind Py.for_]. rewrite stage_round_raises by lia.
    reflexivity.
  - intros pp cs Hpp. apply in_range in Hpp.
    apply stage_round_ok; lia.
Qed.

End ShortCapacity.

(** X4. A capacity list shorter than the stage count passes construction, and
    the variables, ordering and non-overlap constraints are built; the
    capacity encoder then stops with an index error at the first stage without
    a capacity. *)
Theorem short_capacity_raises (P M : Z) (Cap : list Z) (Df Db : Z)
    (st : strategy) :
  Py.len Cap < P -> 1 <= M ->
  __init__ (config_of P M Cap Df Db st) = Ok (fresh P M Cap Df Db st)
  /\ (s <- declare_offsets (fresh P M Cap Df Db st);;
      s <- sequential_order_constraint s;;
      _serial_computation_within_pipeline_constraint s)
     = Ok (declared P M Cap Df Db st
             (sign_terms P M ++ order_terms P M Df Db st
              ++ overlap_terms P M Df Db))
  /\ _build_constraints (fresh P M Cap Df Db st) = Raise IndexError.
Proof.
  intros HCap HM.
  assert (HP : 1 <= P) by (unfold Py.len in HCap; lia).
  assert (Hpre : (s <- declare_offsets (fresh P M Cap Df Db st);;
                  s <- sequential_order_constraint s;;
                  _serial_computation_within_pipeline_constraint s)
                 = Ok (declared P M Cap Df Db st
                         (sign_terms P M ++ order_terms P M Df Db st
                          ++ overlap_terms P M Df Db))).
  { rewrite declare_offsets_fresh by lia. cbn [Py.bind].
    rewrite order_adds by lia. cbn [Py.bind].
    rewrite serial_adds by apply declared_built.
    rewrite add_all_declared, <- app_assoc. reflexivity. }
  split; [apply init_config_of|]. split; [exact Hpre|].
  unfold _build_constraints.
  rewrite declare_offsets_fresh in * by lia. cbn [Py.bind] in *.
  rewrite order_adds in * by lia. cbn [Py.bind] in *.
  rewrite Hpre. cbn [Py.bind].
  apply activation_raises.
  - apply declared_built.
  - cbn [declared _max_activation_times _pp_size]. unfold Py.len in *. lia.
  - exact HM.
Qed.

Lemma short_capacity_raises_witness :
  Py.len [4; 3] < 4 /\ 1 <= 6
  /\ _build_constraints (fresh 4 6 [4; 3] 2 3 strict) = Raise IndexError.
Proof.
  split; [cbn; lia|]. split; [lia|].
  apply (short_capacity_raises 4 6 [4; 3] 2 3 strict).
  - cbn. lia.
  - lia.
Defined.

(** ** When a schedule exists *)

Lemma filter_none {A} (f : A -> bool) (l : list A) :
  (forall x, In x l -> f x = false) -> filter f l = [].
Proof.
  induction l as [|x l IH]; intros H; [reflexivity|].
  cbn [filter]. rewrite (H x) by (left; reflexivity).
  apply IH. intros y Hy. apply H. right. exact Hy.
Qed.

Lemma activation_count_pos (sigma : assignment) (M pp mb : Z) :
  1 <= activation_count sigma M pp mb.
Proof. unfold activation_count. lia. Qed.

Section Serial.

Variables (P M Df Db : Z).

Hypothesis HP : 1 <= P.
Hypothesis HDf : 0 <= Df.
Hypothesis HDb : 0 <= Db.

Let T := P * (Df + Db).
Let sigma := serial_schedule P M Df Db.

(** Each block of a microbatch lies in the window of the microbatch,
    forward before backward. *)
Lemma serial_window (pp mb : Z) :
  0 <= pp < P ->
  mb * T <= fwd sigma pp mb
  /\ fwd sigma pp mb + Df <= bwd sigma pp mb
  /\ bwd sigma pp mb + Db <= mb * T + T.
Proof using HP HDf HDb.
  intros Hpp. unfold sigma, fwd, bwd, serial_schedule, T. nia.
Qed.

Lemma serial_windows_apart (mb1 mb2 : Z) :
  mb1 < mb2 -> mb1 * T + T <= mb2 * T.
Proof using HP HDf HDb. intros H. unfold T. nia. Qed.

Lemma serial_same_stage (pp mb1 mb2 : Z) :
  bwd sigma pp mb2 - bwd sigma pp mb1 = (mb2 - mb1) * T
  /\ fwd sigma pp mb2 - fwd sigma pp mb1 = (mb2 - mb1) * T.
Proof. unfold sigma, fwd, bwd, serial_schedule, T. lia. Qed.

Lemma serial_chain (mb : Z) : chain sigma Df Db (Py.range P) mb.
Proof using HP.
  unfold chain. rewrite len_range, last_range by lia. repeat split.
  - intros k Hk. rewrite !at_range by lia.
    unfold sigma, fwd, serial_schedule. lia.
  - intros k Hk. rewrite !at_range by lia.
    unfold sigma, bwd, serial_schedule. lia.
  - unfold sigma, fwd, bwd, serial_schedule. lia.
Qed.

Lemma serial_disjoint (pp : Z) (b1 b2 : block) :
  0 <= pp < P -> b1 <> b2 -> disjoint sigma Df Db pp b1 b2.
Proof using HP HDf HDb.
  intros Hpp Hne. destruct b1 as [d1 mb1], b2 as [d2 mb2].
  pose proof (serial_window pp mb1 Hpp) as (A1 & A2 & A3).
  pose proof (serial_window pp mb2 Hpp) as (B1 & B2 & B3).
  unfold disjoint, start, duration. cbn [fst snd].
  destruct (Z.lt_trichotomy mb1 mb2) as [Hlt|[Heq|Hgt]].
  - pose proof (serial_windows_apart mb1 mb2 Hlt).
    destruct d1, d2; lia.
  - subst mb2. destruct d1, d2; try lia; exfalso; apply Hne; reflexivity.
  - pose proof (serial_windows_apart mb2 mb1 ltac:(lia)).
    destruct d1, d2; lia.
Qed.

Lemma serial_count (pp mb : Z) :
  0 <= pp < P -> activation_count sigma M pp mb = 1.
Proof using HP HDf HDb.
  intros Hpp. unfold activation_count. rewrite filter_none; [reflexivity|].
  intros other _. unfold straddling.
  destruct (other =? mb) eqn:E; [reflexivity|]. apply Z.eqb_neq in E.
  cbn [negb andb].
  pose proof (serial_window pp mb Hpp) as (A1 & A2 & A3).
  pose proof (serial_window pp other Hpp) as (B1 & B2 & B3).
  destruct (Z.lt_trichotomy other mb) as [Hlt|[Heq|Hgt]]; [|lia|].
  - pose proof (serial_windows_apart other mb Hlt).
    destruct (bwd sigma pp mb <? bwd sigma pp other) eqn:E1;
      [apply Z.ltb_lt in E1; lia | reflexivity].
  - pose proof (serial_windows_apart mb other ltac:(lia)).
    destruct (fwd sigma pp other <? bwd sigma pp mb) eqn:E2;
      [apply Z.ltb_lt in E2; lia | apply andb_false_r].
Qed.

Lemma serial_feasible (Cap : list Z) (st : strategy) :
  (forall pp, 0 <= pp < P -> 1 <= nth (Z.to_nat pp) Cap 0) ->
  feasible sigma P M Df Db Cap st.
Proof using HP HDf HDb.
  intros Hcap.
  apply (feasible_relax sigma Df Db P M Cap Cap strict st);
    [cbn; lia | intros; lia |].
  split; [|split; [|split]].
  - intros pp mb Hpp Hmb.
    pose proof (serial_window pp mb Hpp) as (A1 & A2 & A3).
    assert (0 <= mb * T) by (unfold T; nia). lia.
  - intros mb _. apply serial_chain.
  - intros pp b1 b2 Hpp _ _ Hne. apply serial_disjoint; assumption.
  - intros pp mb Hpp _. rewrite serial_count by exact Hpp.
    apply Hcap. exact Hpp.
Qed.

Lemma serial_objective (pp mb : Z) :
  0 <= pp < P -> 0 <= mb < M ->
  bwd sigma pp mb <= sigma max_start_offset.
Proof using HP HDf HDb.
  intros Hpp Hmb. unfold sigma, bwd, serial_schedule. nia.
Qed.

End Serial.

Lemma serial_satisfies (P M : Z) (Cap : list Z) (Df Db : Z)
    (st : strategy) :
  1 <= P -> 0 <= Df -> 0 <= Db ->
  (forall pp, 0 <= pp < P -> 1 <= nth (Z.to_nat pp) Cap 0) ->
  Z3.satisfies (serial_schedule P M Df Db) (problem P M Cap Df Db st).
Proof.
  intros HP HDf HDb Hcap. apply satisfies_problem; [exact HP|]. split.
  - apply serial_feasible; assumption.
  - intros pp mb Hpp Hmb. apply serial_objective; assumption.
Qed.

(** X5. With durations that are not negative, the encoded problem has a
    solution exactly when every stage has a capacity of at least 1, and then
    the serial schedule (one microbatch after the other, each going down the
    stages and back) is one, under each strategy. *)
Theorem satisfiable_iff_capacity (P M : Z) (Cap : list Z) (Df Db : Z)
    (st : strategy) :
  1 <= P <= Py.len Cap -> 1 <= M -> 0 <= Df -> 0 <= Db ->
  encode_config (config_of P M Cap Df Db st)
  = Ok (problem P M Cap Df Db st)
  /\ ((exists sigma, Z3.satisfies sigma (problem P M Cap Df Db st))
      <-> forall pp, 0 <= pp < P -> 1 <= nth (Z.to_nat pp) Cap 0)
  /\ ((forall pp, 0 <= pp < P -> 1 <= nth (Z.to_nat pp) Cap 0) ->
      Z3.satisfies (serial_schedule P M Df Db) (problem P M Cap Df Db st)).
Proof.
  intros HP HM HDf HDb.
  split; [apply encode_config_of; exact HP|].
  split; [|apply serial_satisfies; lia].
  split.
  - intros (sigma & Hs) pp Hpp. apply satisfies_problem in Hs; [|lia].
    destruct Hs as ((_ & _ & _ & Hc) & _).
    specialize (Hc pp 0 Hpp ltac:(lia)).
    pose proof (activation_count_pos sigma M pp 0). lia.
  - intros Hcap. exists (serial_schedule P M Df Db).
    apply serial_satisfies; try assumption. lia.
Qed.

Lemma satisfiable_iff_capacity_witness :
  1 <= 4 <= Py.len [4; 3; 2; 1] /\ 1 <= 6 /\ 0 <= 2 /\ 0 <= 3
  /\ Z3.satisfies (serial_schedule 4 6 2 3)
                  (problem 4 6 [4; 3; 2; 1] 2 3 strict).
Proof.
  split; [cbn; lia|]. split; [lia|]. split; [lia|]. split; [lia|].
  destruct (satisfiable_iff_capacity 4 6 [4; 3; 2; 1] 2 3 strict)
    as (_ & _ & H); try lia.
  - cbn. lia.
  - apply H. intros pp Hpp.
    assert (Hc : pp = 0 \/ pp = 1 \/ pp = 2 \/ pp = 3) by lia.
    destruct Hc as [->|[->|[->| ->]]]; vm_compute; discriminate.
Defined.

(** ** Lower bounds on the objective *)

Lemma ordered_perm (sigma : assignment) (P Df Db : Z) (st : strategy)
    (mb : Z) :
  ordered sigma P Df Db st mb ->
  exists perm, Permutation (Py.range P) perm /\ chain sigma Df Db perm mb.
Proof.
  intros H. apply (ordered_relax sigma Df Db P st full_interleaving) in H.
  - exact H.
  - destruct st; cbn; lia.
Qed.

(** A chain takes its first stage from the forward start to the backward
    start in at least [n] forward and [n - 1] backward durations. *)
Lemma chain_span (sigma : assignment) (Df Db : Z) (perm : list Z)
    (mb : Z) :
  perm <> [] -> chain sigma Df Db perm mb ->
  fwd sigma (at_ perm 0) mb + Py.len perm * Df + (Py.len perm - 1) * Db
  <= bwd sigma (at_ perm 0) mb.
Proof.
  intros Hne Hc.
  assert (Hlen : 1 <= Py.len perm).
  { destruct perm; [contradiction|]. unfold Py.len. cbn [List.length]. lia. }
  pose proof (chain_reach sigma Df Db perm mb
                (Z.to_nat (Py.len perm - 1)) Hc) as Hr.
  rewrite Z2Nat.id in Hr by lia.
  replace (Py.len perm - 1 - (Py.len perm - 1)) with 0 in Hr by lia.
  destruct Hr as (Hr1 & Hr2); [lia|].
  destruct Hc as (_ & _ & H3). rewrite (last_at perm Hne) in H3. lia.
Qed.

Section Packing.

Variable sigma : assignment.

Variables (Df Db pp : Z).

Lemma total_duration_filter (f : block -> bool) (l : list block) :
  total_duration Df Db l
  = total_duration Df Db (filter f l)
    + total_duration Df Db (filter (fun b => negb (f b)) l).
Proof.
  unfold total_duration. induction l as [|b l IH]; [reflexivity|].
  cbn [filter fold_right]. destruct (f b); cbn [negb fold_right]; lia.
Qed.

(** Pairwise disjoint blocks that run between [lo] and [hi] take at most
    [hi - lo] in total. *)
Lemma disjoint_blocks_fit (n : nat) :
  forall (l : list block) (lo hi : Z),
    (List.length l <= n)%nat -> NoDup l -> lo <= hi ->
    (forall b, In b l ->
       lo <= start sigma pp b
       /\ start sigma pp b + duration Df Db b <= hi) ->
    (forall b1 b2, In b1 l -> In b2 l -> b1 <> b2 ->
       disjoint sigma Df Db pp b1 b2) ->
    total_duration Df Db l <= hi - lo.
Proof.
  induction n as [|n IH]; intros l lo hi Hlen Hnd Hlh Hin Hdis.
  - destruct l; [cbn; lia | cbn in Hlen; lia].
  - destruct l as [|x l]; [cbn; lia|].
    apply NoDup_cons_iff in Hnd. destruct Hnd as (Hx & Hnd).
    set (f := fun b : block =>
                start sigma pp b + duration Df Db b <=? start sigma pp x).
    cbn [total_duration fold_right].
    fold (total_duration Df Db l).
    rewrite (total_duration_filter f l).
    destruct (Hin x ltac:(left; reflexivity)) as (Hx1 & Hx2).
    assert (Hb : total_duration Df Db (filter f l)
                 <= start sigma pp x - lo).
    { apply IH.
      - pose proof (filter_length_le f l). cbn in Hlen. lia.
      - apply NoDup_filter. exact Hnd.
      - exact Hx1.
      - intros b Hbin. apply filter_In in Hbin. destruct Hbin as (Hbl & Hf).
        unfold f in Hf. apply Z.leb_le in Hf.
        destruct (Hin b ltac:(right; exact Hbl)). lia.
      - intros b1 b2 H1 H2. apply filter_In in H1, H2.
        apply Hdis; right; tauto. }
    assert (Ha : total_duration Df Db (filter (fun b => negb (f b)) l)
                 <= hi - (start sigma pp x + duration Df Db x)).
    { apply IH.
      - pose proof (filter_length_le (fun b => negb (f b)) l).
        cbn in Hlen. lia.
      - apply NoDup_filter. exact Hnd.
      - exact Hx2.
      - intros b Hbin. apply filter_In in Hbin. destruct Hbin as (Hbl & Hf).
        apply negb_true_iff in Hf. unfold f in Hf. apply Z.leb_gt in Hf.
        assert (Hne : x <> b) by (intros ->; contradiction).
        pose proof (Hdis x b ltac:(left; reflexivity)
                      ltac:(right; exact Hbl) Hne) as Hd.
        destruct (Hin b ltac:(right; exact Hbl)).
        unfold disjoint in Hd. lia.
      - intros b1 b2 H1 H2. apply filter_In in H1, H2.
        apply Hdis; right; tauto. }
    lia.
Qed.

End Packing.

Lemma in_stage_blocks (M : Z) (b : block) :
  In b (stage_blocks M) <-> 0 <= snd b < M.
Proof.
  unfold stage_blocks. rewrite in_app_iff, !in_map_iff. split.
  - intros [(mb & <- & H)|(mb & <- & H)]; apply in_range in H; exact H.
  - intros H. destruct b as [[|] mb]; cbn [snd] in H;
      [left|right]; exists mb; (split; [reflexivity|]);
      apply in_range; exact H.
Qed.

Lemma range_NoDup (n : Z) : NoDup (Py.range n).
Proof.
  rewrite range_eq. apply (NoDup_map_NoDup_ForallPairs Z.of_nat).
  - intros x y _ _ H. lia.
  - apply seq_NoDup.
Qed.

Lemma stage_blocks_NoDup (M : Z) : NoDup (stage_blocks M).
Proof.
  unfold stage_blocks. apply NoDup_app.
  - apply (NoDup_map_NoDup_ForallPairs (pair forward)).
    + intros x y _ _ H. injection H as H. exact H.
    + apply range_NoDup.
  - apply (NoDup_map_NoDup_ForallPairs (pair backward)).
    + intros x y _ _ H. injection H as H. exact H.
    + apply range_NoDup.
  - intros b H1 H2. apply in_map_iff in H1, H2.
    destruct H1 as (x & <- & _), H2 as (y & E & _). discriminate.
Qed.

Lemma total_duration_app (Df Db : Z) (l l' : list block) :
  total_duration Df Db (l ++ l')
  = total_duration Df Db l + total_duration Df Db l'.
Proof.
  unfold total_duration. induction l as [|b l IH]; [reflexivity|].
  cbn [app fold_right]. lia.
Qed.

Lemma total_duration_direction (Df Db : Z) (d : direction) (l : list Z) :
  total_duration Df Db (map (pair d) l)
  = Z.of_nat (List.length l) * duration Df Db (d, 0).
Proof.
  unfold total_duration. induction l as [|x l IH]; [reflexivity|].
  cbn [map fold_right List.length].
  change (duration Df Db (d, x)) with (duration Df Db (d, 0)).
  rewrite IH, Nat2Z.inj_succ. unfold Z.succ. ring.
Qed.

Lemma total_duration_stage (Df Db M : Z) :
  0 <= M -> total_duration Df Db (stage_blocks M) = M * (Df + Db).
Proof.
  intros HM. unfold stage_blocks.
  rewrite total_duration_app, !total_duration_direction, length_range.
  rewrite Z2Nat.id by exact HM. unfold duration. cbn [fst]. ring.
Qed.

Lemma feasible_bounds (P M : Z) (Cap : list Z) (Df Db : Z)
    (st : strategy) (sigma : assignment) (top : Z) :
  1 <= P -> 1 <= M -> 0 <= Df -> 0 <= Db ->
  feasible sigma P M Df Db Cap st ->
  (forall pp mb, 0 <= pp < P -> 0 <= mb < M -> bwd sigma pp mb <= top) ->
  P * Df + (P - 1) * Db <= top /\ M * (Df + Db) - Db <= top.
Proof.
  intros HP HM HDf HDb (Hsign & Hord & Hdis & _) Hobj. split.
  - destruct (ordered_perm sigma P Df Db st 0 (Hord 0 ltac:(lia)))
      as (perm & Hperm & Hc).
    assert (Hlen : Py.len perm = P).
    { unfold Py.len. rewrite <- (Permutation_length Hperm), length_range.
      lia. }
    assert (Hne : perm <> []) by (intros ->; cbn in Hlen; lia).
    assert (Hat : 0 <= at_ perm 0 < P).
    { apply in_range. apply (Permutation_in _ (Permutation_sym Hperm)).
      apply nth_In. unfold Py.len in Hlen. lia. }
    pose proof (chain_span sigma Df Db perm 0 Hne Hc) as Hspan.
    rewrite Hlen in Hspan.
    pose proof (Hsign _ 0 Hat ltac:(lia)) as (H0 & _).
    pose proof (Hobj _ 0 Hat ltac:(lia)). lia.
  - pose proof (Hsign 0 0 ltac:(lia) ltac:(lia)) as (_ & Hb0).
    pose proof (Hobj 0 0 ltac:(lia) ltac:(lia)) as Hm0.
    pose proof (disjoint_blocks_fit sigma Df Db 0
                  (List.length (stage_blocks M)) (stage_blocks M)
                  0 (top + Db) (le_n _)
                  (stage_blocks_NoDup M) ltac:(lia)) as Hfit.
    rewrite total_duration_stage in Hfit by lia.
    assert (Hfit' : M * (Df + Db) <= top + Db - 0); [|lia].
    apply Hfit.
    + intros b Hb. apply in_stage_blocks in Hb.
      destruct (Hsign 0 (snd b) ltac:(lia) Hb) as (Hf & Hbk).
      pose proof (Hobj 0 (snd b) ltac:(lia) Hb) as Hm.
      pose proof (ordered_handoff sigma Df Db P st (snd b) 0 HDf HDb
                    (Hord _ Hb) ltac:(lia)) as Hh.
      destruct b as [[|] mb]; unfold start, duration; cbn [fst snd] in *;
        lia.
    + intros b1 b2 H1 H2 Hne. apply in_stage_blocks in H1, H2.
      apply Hdis; try assumption. lia.
Qed.

(** X6. Every solution keeps the objective above the time one microbatch needs
    to go through all the stages and back, P * Df + (P - 1) * Db, and above
    the time one stage needs to run all its blocks but the last backward one,
    M * (Df + Db) - Db; so no schedule finishes before P * (Df + Db) nor
    before M * (Df + Db). *)
Theorem objective_lower_bounds (P M : Z) (Cap : list Z) (Df Db : Z)
    (st : strategy) :
  1 <= P <= Py.len Cap -> 1 <= M -> 0 <= Df -> 0 <= Db ->
  encode_config (config_of P M Cap Df Db st)
  = Ok (problem P M Cap Df Db st)
  /\ forall sigma,
       Z3.satisfies sigma (problem P M Cap Df Db st) ->
       P * Df + (P - 1) * Db <= sigma max_start_offset
       /\ M * (Df + Db) - Db <= sigma max_start_offset
       /\ P * (Df + Db) <= makespan sigma P M Db
       /\ M * (Df + Db) <= makespan sigma P M Db.
Proof.
  intros HP HM HDf HDb. split; [apply encode_config_of; exact HP|].
  intros sigma Hs. apply satisfies_problem in Hs; [|lia].
  destruct Hs as (Hf & Hobj).
  pose proof (feasible_bounds P M Cap Df Db st sigma
                (sigma max_start_offset) ltac:(lia) HM HDf HDb Hf Hobj)
    as (H1 & H2).
  assert (Htop : forall pp mb, 0 <= pp < P -> 0 <= mb < M ->
                   bwd sigma pp mb <= maximum (backward_starts sigma P M)).
  { intros pp mb Hpp Hmb. apply maximum_ge.
    apply (in_backward_starts P M sigma). exists pp, mb.
    repeat split; lia. }
  pose proof (feasible_bounds P M Cap Df Db st sigma
                (maximum (backward_starts sigma P M))
                ltac:(lia) HM HDf HDb Hf Htop)
    as (K1 & K2).
  rewrite makespan_eq by lia. lia.
Qed.

Lemma objective_lower_bounds_witness :
  1 <= 1 <= Py.len [1] /\ 1 <= 1 /\ 0 <= 1
  /\ 1 * 1 + (1 - 1) * 1 <= single_schedule max_start_offset.
Proof.
  split; [cbn; lia|]. split; [lia|]. split; [lia|].
  destruct (objective_lower_bounds 1 1 [1] 1 1 strict) as (_ & H);
    try lia.
  - cbn. lia.
  - apply (H single_schedule). reflexivity.
Defined.

(** X7. With a single stage or a single microbatch, capacities of at least 1
    and durations that are not negative, the serial schedule is optimal, and
    every optimal schedule finishes at M * P * (Df + Db). *)
Theorem serial_schedule_optimal (P M : Z) (Cap : list Z) (Df Db : Z)
    (st : strategy) :
  1 <= P <= Py.len Cap -> 1 <= M -> P = 1 \/ M = 1 ->
  0 <= Df -> 0 <= Db ->
  (forall pp, 0 <= pp < P -> 1 <= nth (Z.to_nat pp) Cap 0) ->
  encode_config (config_of P M Cap Df Db st)
  = Ok (problem P M Cap Df Db st)
  /\ optimal (serial_schedule P M Df Db) (problem P M Cap Df Db st)
  /\ forall sigma,
       optimal sigma (problem P M Cap Df Db st) ->
       sigma max_start_offset = M * P * (Df + Db) - Db
       /\ makespan sigma P M Db = M * P * (Df + Db).
Proof.
  intros HP HM Hone HDf HDb Hcap.
  assert (Hs : Z3.satisfies (serial_schedule P M Df Db)
                 (problem P M Cap Df Db st))
    by (apply serial_satisfies; try assumption; lia).
  assert (Hval : serial_schedule P M Df Db max_start_offset
                 = M * P * (Df + Db) - Db)
    by (cbn [serial_schedule]; ring).
  assert (Hlow : forall sigma,
             Z3.satisfies sigma (problem P M Cap Df Db st) ->
             M * P * (Df + Db) - Db <= sigma max_start_offset).
  { intros sigma Hsig. apply satisfies_problem in Hsig; [|lia].
    destruct Hsig as (Hf & Hobj).
    pose proof (feasible_bounds P M Cap Df Db st sigma
                  (sigma max_start_offset) ltac:(lia) HM HDf HDb Hf Hobj)
      as (H1 & H2).
    destruct Hone as [-> | ->]; lia. }
  split; [apply encode_config_of; exact HP|]. split.
  - split; [exact Hs|]. intros sigma' Hs'. constructor; [|constructor].
    cbn [eval]. rewrite Hval. apply Hlow. exact Hs'.
  - intros sigma Hopt.
    assert (Hobj : sigma max_start_offset = M * P * (Df + Db) - Db).
    { apply Z.le_antisymm; [|apply Hlow; apply Hopt].
      destruct Hopt as (_ & Hopt). specialize (Hopt _ Hs).
      cbn [problem objectives] in Hopt. inversion Hopt as [|? ? H _]; subst.
      cbn [eval] in H. rewrite Hval in H. exact H. }
    split; [exact Hobj|].
    destruct (optimal_makespan P M Cap Df Db st ltac:(lia) HM sigma Hopt)
      as (Hmk & _).
    rewrite Hmk, Hobj. ring.
Qed.

Lemma serial_schedule_optimal_witness :
  1 <= 1 <= Py.len [1] /\ 1 <= 3 /\ (1 = 1 \/ 3 = 1)
  /\ 0 <= 2 /\ 0 <= 3
  /\ optimal (serial_schedule 1 3 2 3) (problem 1 3 [1] 2 3 strict).
Proof.
  split; [cbn; lia|]. split; [lia|]. split; [left; reflexivity|].
  split; [lia|]. split; [lia|].
  apply (serial_schedule_optimal 1 3 [1] 2 3 strict).
  - cbn. lia.
  - lia.
  - left. reflexivity.
  - lia.
  - lia.
  - intros pp Hpp. replace pp with 0 by lia. vm_compute. discriminate.
Defined.

(** ** The size of the problem *)

Lemma length_selections {A} (l : list A) :
  List.length (Py.selections l) = List.length l.
Proof.
  induction l as [|x l IH]; [reflexivity|].
  cbn [Py.selections List.length]. rewrite length_map, IH. reflexivity.
Qed.

Lemma length_selection_rest {A} (l : list A) (s : A * list A) :
  In s (Py.selections l) -> S (List.length (snd s)) = List.length l.
Proof.
  destruct s as [x r]. intros H. apply in_selections in H.
  destruct H as (l1 & l2 & -> & ->). cbn [snd].
  rewrite !length_app. cbn [List.length]. lia.
Qed.

Lemma length_permutations_upto {A} (n : nat) (l : list A) :
  List.length l = n -> List.length (Py.permutations_upto n l) = fact n.
Proof.
  revert l. induction n as [|n IH]; intros l Hl; [reflexivity|].
  cbn [Py.permutations_upto fact].
  rewrite (length_flat_map_const _ _ (fact n)).
  - rewrite length_selections, Hl. reflexivity.
  - intros s Hs. rewrite length_map. apply IH.
    pose proof (length_selection_rest l s Hs). lia.
Qed.

(** [itertools.permutations] of [n] items yields [n!] tuples. *)
Lemma length_permutations {A} (l : list A) :
  List.length (Py.permutations l) = fact (List.length l).
Proof. apply length_permutations_upto. reflexivity. Qed.

Lemma length_range2 (a b : Z) :
  List.length (Py.range2 a b) = Z.to_nat (b - a).
Proof. rewrite range2_eq, length_map, length_seq. reflexivity. Qed.

Lemma length_range3_down (a b : Z) :
  List.length (Py.range3 a b (-1)) = Z.to_nat (a - b).
Proof. rewrite range3_down_eq, length_map, length_seq. reflexivity. Qed.

Lemma length_perm_terms (Df Db : Z) (perm : list Z) (mb : Z) :
  perm <> [] ->
  List.length (perm_terms Df Db perm mb)
  = (2 * List.length perm - 1)%nat.
Proof.
  intros Hne. unfold perm_terms.
  rewrite !length_app, !length_map, length_range, length_range3_down.
  cbn [List.length]. unfold Py.len.
  destruct perm; [contradiction|]. cbn [List.length]. lia.
Qed.

(** X8. Under full interleaving the encoder asserts one disjunction per
    microbatch, with one conjunction per ordering of the stages: P!
    conjunctions of 2 * P - 1 inequalities each. *)
Theorem full_interleaving_size (self : Simulator) :
  offsets_built self ->
  1 <= _pp_size self ->
  let P := _pp_size self in
  let M := _num_microbatches self in
  let Df := _forward_length self in
  let Db := _backward_length self in
  let cases mb :=
    map (fun perm => perm_terms Df Db perm mb)
        (Py.permutations (Py.range P)) in
  _sequential_order_constraint_full_interleaving self
  = Ok (add_all (map (fun mb => Or (map And (cases mb))) (Py.range M)) self)
  /\ forall mb,
       List.length (cases mb) = fact (Z.to_nat P)
       /\ Forall (fun c => List.length c = (2 * Z.to_nat P - 1)%nat)
                 (cases mb).
Proof.
  intros Hb HP P M Df Db cases. subst P M Df Db cases. split.
  - rewrite full_interleaving_adds by assumption. cbn [order_terms].
    do 2 f_equal. apply map_ext. intros mb. rewrite map_map. reflexivity.
  - intros mb. split.
    + rewrite length_map, length_permutations, length_range. reflexivity.
    + apply Forall_forall. intros c Hc. apply in_map_iff in Hc.
      destruct Hc as (perm & <- & Hperm). apply in_permutations in Hperm.
      assert (Hlen : List.length perm = Z.to_nat (_pp_size self)).
      { rewrite <- (Permutation_length Hperm). apply length_range. }
      rewrite length_perm_terms, Hlen; [reflexivity|].
      intros ->. cbn in Hlen. lia.
Qed.

Lemma full_interleaving_size_witness :
  offsets_built main_declared
  /\ 1 <= _pp_size main_declared
  /\ forall mb,
       List.length
         (map (fun perm => perm_terms 2 3 perm mb)
              (Py.permutations (Py.range 4)))
       = fact (Z.to_nat 4).
Proof.
  split; [split; reflexivity|]. split; [cbn; lia|].
  intros mb.
  destruct (full_interleaving_size main_declared) as (_ & H).
  - split; reflexivity.
  - cbn. lia.
  - apply (H mb).
Defined.

Lemma length_pairs (A : Type) (g : Z -> Z -> A) (c k : nat) :
  (k <= c)%nat ->
  2 * Z.of_nat
        (List.length
           (flat_map (fun i => map (g i) (Py.range2 (i + 1) (Z.of_nat c)))
                     (map Z.of_nat (seq 0 k))))
  = Z.of_nat k * (2 * Z.of_nat c - Z.of_nat k - 1).
Proof.
  induction k as [|k IH]; intros Hk; [reflexivity|].
  rewrite seq_S, map_app, flat_map_app, length_app. cbn [map flat_map Nat.add].
  rewrite app_nil_r, length_map, length_range2, Nat2Z.inj_add.
  rewrite Z.mul_add_distr_l, IH by lia. clear IH.
  rewrite Z2Nat.id by lia. rewrite Nat2Z.inj_succ. unfold Z.succ. ring.
Qed.

Lemma length_overlap_terms (P M Df Db : Z) :
  0 <= P -> 0 <= M ->
  Z.of_nat (List.length (overlap_terms P M Df Db)) = P * (M * (2 * M - 1)).
Proof.
  intros HP HM. unfold overlap_terms.
  assert (Hnn : 0 <= M * (2 * M - 1)) by nia.
  rewrite (length_flat_map_const _ _ (Z.to_nat (M * (2 * M - 1)))).
  - rewrite length_range, Nat2Z.inj_mul, !Z2Nat.id by lia. reflexivity.
  - intros pp _. rewrite len_stage_vars, Z.max_r by lia.
    pose proof (length_pairs _ (pair_term M Df Db (stage_vars M pp))
                  (Z.to_nat (2 * M)) (Z.to_nat (2 * M)) (le_n _)) as H.
    rewrite <- range_eq, !Z2Nat.id in H by lia.
    apply Nat2Z.inj. rewrite Z2Nat.id by exact Hnn.
    apply (Z.mul_reg_l _ _ 2); [lia|]. rewrite H. ring.
Qed.

Lemma length_double_map {A} (g : Z -> Z -> list A) (P M : Z) (n : nat) :
  (forall pp mb, List.length (g pp mb) = n) ->
  List.length (flat_map (fun pp => flat_map (g pp) (Py.range M))
                        (Py.range P))
  = (Z.to_nat P * (Z.to_nat M * n))%nat.
Proof.
  intros H. rewrite (length_flat_map_const _ _ (Z.to_nat M * n)%nat).
  - rewrite length_range. reflexivity.
  - intros pp _. rewrite (length_flat_map_const _ _ n).
    + rewrite length_range. reflexivity.
    + intros mb _. apply H.
Qed.

Lemma length_order_terms (P M Df Db : Z) (st : strategy) :
  1 <= P -> 0 <= M ->
  Z.of_nat (List.length (order_terms P M Df Db st))
  = match st with
    | strict => M * (2 * P - 1)
    | _ => M
    end.
Proof.
  intros HP HM. destruct st; cbn [order_terms].
  - rewrite (length_flat_map_const _ _ (Z.to_nat (2 * P - 1))).
    + rewrite length_range, Nat2Z.inj_mul, !Z2Nat.id by lia. reflexivity.
    + intros mb _. rewrite down_terms_perm by lia.
      rewrite length_perm_terms.
      * rewrite length_range. lia.
      * intros E. apply (f_equal (@List.length Z)) in E.
        rewrite length_range in E. cbn in E. lia.
  - rewrite length_map, length_range. lia.
  - rewrite length_map, length_range. lia.
Qed.

(** X9. The problem handed to the solver has 2 * P * M sign constraints, the
    ordering constraints (M * (2 * P - 1) under the strict strategy, M
    disjunctions under the other two), P * M * (2 * M - 1) non-overlap
    constraints, P * M capacity constraints and P * M bounds of the objective.
    *)
Theorem problem_size (P M : Z) (Cap : list Z) (Df Db : Z) (st : strategy) :
  1 <= P <= Py.len Cap -> 0 <= M ->
  encode_config (config_of P M Cap Df Db st)
  = Ok (problem P M Cap Df Db st)
  /\ Z.of_nat (List.length (assertions (problem P M Cap Df Db st)))
     = 2 * P * M
       + match st with
         | strict => M * (2 * P - 1)
         | _ => M
         end
       + P * M * (2 * M - 1) + P * M + P * M.
Proof.
  intros HP HM. split; [apply encode_config_of; exact HP|].
  unfold problem, constraint_terms. cbn [assertions].
  rewrite !length_app, !Nat2Z.inj_add.
  rewrite length_order_terms, length_overlap_terms by lia.
  unfold sign_terms, activation_terms, objective_terms.
  rewrite (length_double_map _ P M 2) by reflexivity.
  rewrite !(length_double_map _ P M 1) by reflexivity.
  nia.
Qed.

Lemma problem_size_witness :
  1 <= 4 <= Py.len [4; 3; 2; 1] /\ 0 <= 6
  /\ Z.of_nat
       (List.length (assertions (problem 4 6 [4; 3; 2; 1] 2 3 strict)))
     = 402.
Proof.
  split; [cbn; lia|]. split; [lia|].
  destruct (problem_size 4 6 [4; 3; 2; 1] 2 3 strict) as (_ & H).
  - cbn. lia.
  - lia.
  - rewrite H. reflexivity.
Defined.

(** ** The names of the variables and the keys of the painter *)

Lemma digit_of_char (c : ascii) (d : Z) (s : string) (acc : Z) :
  Str.digit c = Some d ->
  Str.digits (String c s) acc false = Str.digits s (10 * acc + d) false.
Proof. intros H. cbn [Str.digits]. rewrite H. reflexivity. Qed.

Ltac digit_step :=
  erewrite digit_of_char by (vm_compute; reflexivity).

Lemma digits_uint_acc (d : Decimal.uint) (r : string) (p : positive) :
  Str.digits (NilEmpty.string_of_uint d ++ r) (Z.pos p) false
  = Str.digits r (Z.pos (Pos.of_uint_acc d p)) false.
Proof.
  revert p. induction d; intros p; cbn [NilEmpty.string_of_uint append];
    [reflexivity|..];
    digit_step; cbn [Pos.of_uint_acc]; rewrite <- IHd; f_equal; lia.
Qed.

Lemma digits_uint (d : Decimal.uint) (r : string) :
  Str.digits (NilEmpty.string_of_uint d ++ r) 0 false
  = Str.digits r (Z.of_uint d) false.
Proof.
  unfold Z.of_uint.
  induction d; cbn [NilEmpty.string_of_uint append Pos.of_uint];
    [reflexivity|..]; digit_step;
    try (change (10 * 0 + 0) with 0; exact IHd);
    match goal with
    | |- Str.digits _ ?a _ = _ =>
        let v := eval vm_compute in a in change a with v
    end;
    rewrite digits_uint_acc; reflexivity.
Qed.

Lemma append_empty (s : string) : (s ++ EmptyString)%string = s.
Proof. induction s; cbn; [reflexivity | f_equal; assumption]. Qed.

Lemma string_of_uint_head (d : Decimal.uint) :
  d <> Decimal.Nil ->
  exists c s, NilEmpty.string_of_uint d = String c s
              /\ Str.digit c <> None /\ Str.isspace c = false
              /\ c <> "-"%char /\ c <> "+"%char.
Proof.
  intros H. destruct d; [congruence|..]; cbn [NilEmpty.string_of_uint];
    eexists _, _; (split; [reflexivity|]);
    repeat split; vm_compute; congruence.
Qed.

Lemma nilzero_string_of_uint (d : Decimal.uint) :
  d <> Decimal.Nil ->
  NilZero.string_of_uint d = NilEmpty.string_of_uint d.
Proof. destruct d; [congruence | reflexivity..]. Qed.

(** [int] reads the digits written by [str]. *)
Lemma int_unsigned (d : Decimal.uint) (sign : Z) (s : string) :
  d <> Decimal.Nil ->
  (s = NilEmpty.string_of_uint d /\ sign = 1
   \/ s = String "-" (NilEmpty.string_of_uint d) /\ sign = -1) ->
  Str.int s = Gui.Ok (sign * Z.of_uint d).
Proof.
  intros Hd Hs.
  destruct (string_of_uint_head d Hd) as (c & t & E & Hdig & Hsp & Hm & Hp).
  assert (Hscan : Str.digits (String c t) 0 false
                  = Gui.Ok (Z.of_uint d, EmptyString)).
  { rewrite <- E, <- (append_empty (NilEmpty.string_of_uint d)).
    rewrite digits_uint. reflexivity. }
  destruct (Str.digit c) as [v|] eqn:Ev; [|congruence].
  destruct Hs as [[-> ->] | [-> ->]]; unfold Str.int.
  - rewrite E. cbn [Str.lstrip]. rewrite Hsp.
    destruct c as [[] [] [] [] [] [] [] []]; try congruence;
      try (cbn in Ev; discriminate);
      cbv beta iota; rewrite Ev; rewrite Hscan; reflexivity.
  - change (Str.lstrip (String "-" (NilEmpty.string_of_uint d)))
      with (String "-" (NilEmpty.string_of_uint d)).
    cbv beta iota. rewrite E, Ev. rewrite Hscan. reflexivity.
Qed.

Lemma int_str (n : Z) : Str.int (Py.str n) = Gui.Ok n.
Proof.
  destruct n as [|p|p]; [reflexivity|..]; unfold Py.str;
    cbn [Z.to_int NilZero.string_of_int];
    pose proof (DecimalPos.Unsigned.to_uint_nonnil p) as Hd;
    rewrite nilzero_string_of_uint by exact Hd.
  - rewrite (int_unsigned (Pos.to_uint p) 1) by auto.
    unfold Z.of_uint. rewrite DecimalPos.Unsigned.of_to. reflexivity.
  - rewrite (int_unsigned (Pos.to_uint p) (-1)) by auto.
    unfold Z.of_uint. rewrite DecimalPos.Unsigned.of_to. reflexivity.
Qed.

Lemma split_uint (d : Decimal.uint) (r : string) :
  Str.split (NilEmpty.string_of_uint d ++ String "_" r) "_"
  = NilEmpty.string_of_uint d :: Str.split r "_"
  /\ Str.split (NilEmpty.string_of_uint d) "_"
     = [NilEmpty.string_of_uint d].
Proof.
  induction d as [|d [IH1 IH2]|d [IH1 IH2]|d [IH1 IH2]|d [IH1 IH2]
                  |d [IH1 IH2]|d [IH1 IH2]|d [IH1 IH2]|d [IH1 IH2]
                  |d [IH1 IH2]|d [IH1 IH2]];
    cbn [NilEmpty.string_of_uint append Str.split];
    [split; reflexivity|..];
    match goal with
    | |- context [Ascii.eqb ?c "_"] =>
        change (Ascii.eqb c "_") with false
    end; cbv iota; rewrite IH1, IH2; split; reflexivity.
Qed.

Lemma split_str (n : Z) (r : string) :
  Str.split (Py.str n ++ String "_" r) "_" = Py.str n :: Str.split r "_"
  /\ Str.split (Py.str n) "_" = [Py.str n].
Proof.
  destruct n as [|p|p]; [split; reflexivity|..]; unfold Py.str;
    cbn [Z.to_int NilZero.string_of_int];
    rewrite nilzero_string_of_uint
      by apply DecimalPos.Unsigned.to_uint_nonnil;
    destruct (split_uint (Pos.to_uint p) r) as [H1 H2].
  - split; assumption.
  - cbn [append Str.split]. change (Ascii.eqb "-" "_") with false.
    cbv iota. rewrite H1, H2. split; reflexivity.
Qed.

Lemma split_nonempty (s : string) (sep : ascii) : Str.split s sep <> [].
Proof.
  destruct s as [|c s]; cbn [Str.split]; [discriminate|].
  destruct (Ascii.eqb c sep); [discriminate|].
  destruct (Str.split s sep); discriminate.
Qed.

Lemma parse_block_key (d : string) (mb i : Z) :
  d <> EmptyString -> Str.split d "_" = [d] ->
  Painter._parse_microbatch_key (d ++ "_" ++ Py.str mb ++ "_" ++ Py.str i)
  = Gui.Ok (Str.startswith d "f", i, mb).
Proof.
  intros Hne Hd. unfold Painter._parse_microbatch_key.
  assert (Hsplit : Str.split (d ++ "_" ++ Py.str mb ++ "_" ++ Py.str i) "_"
                   = [d; Py.str mb; Py.str i]).
  { clear Hne. destruct (split_str mb (Py.str i)) as [H1 _].
    destruct (split_str i EmptyString) as [_ H2].
    change ("_" ++ Py.str mb ++ "_" ++ Py.str i)%string
      with (String "_" (Py.str mb ++ String "_" (Py.str i))).
    revert Hd. generalize (Py.str mb ++ String "_" (Py.str i))%string H1.
    intros t Ht. induction d as [|c d IH]; cbn [append Str.split].
    - intros _. change (Ascii.eqb "_" "_") with true. cbv iota.
      rewrite Ht, H2. reflexivity.
    - destruct (Ascii.eqb c "_"); [discriminate|].
      destruct (Str.split d "_") as [|piece pieces] eqn:E;
        [destruct (split_nonempty _ _ E)|].
      intros H. injection H as H1' H2'. subst piece pieces.
      rewrite IH by reflexivity. reflexivity. }
  rewrite Hsplit. cbn [tl]. rewrite !int_str. cbn [Gui.bind].
  assert (Hf : forall r, Str.startswith (d ++ r) "f" = Str.startswith d "f").
  { intros r. unfold Str.startswith.
    destruct d as [|c d']; [congruence|]. cbn [append String.prefix].
    destruct (ascii_dec "f" c); [|reflexivity].
    destruct d', r; reflexivity. }
  rewrite Hf. reflexivity.
Qed.

Lemma parse_forward (mb i : Z) :
  Painter._parse_microbatch_key (Z3.name (f_ mb i)) = Gui.Ok (true, i, mb).
Proof. apply (parse_block_key "f" mb i); [discriminate | reflexivity]. Qed.

Lemma parse_backward (mb i : Z) :
  Painter._parse_microbatch_key (Z3.name (b_ mb i)) = Gui.Ok (false, i, mb).
Proof. apply (parse_block_key "b" mb i); [discriminate | reflexivity]. Qed.

Lemma name_inj (c1 c2 : const) : Z3.name c1 = Z3.name c2 -> c1 = c2.
Proof.
  intros E. apply (f_equal Painter._parse_microbatch_key) in E.
  destruct c1 as [mb1 i1|mb1 i1|], c2 as [mb2 i2|mb2 i2|];
    rewrite ?parse_forward, ?parse_backward in E;
    try reflexivity; try discriminate E;
    injection E as -> ->; reflexivity.
Qed.

(** X10. The painter reads a key written by the simulator back as the block it
    stands for: forward or backward, the stage and the microbatch. The key of
    the objective variable is the one it cannot read. *)
Theorem painter_reads_names (mb i : Z) :
  Painter._parse_microbatch_key (Z3.name (f_ mb i)) = Gui.Ok (true, i, mb)
  /\ Painter._parse_microbatch_key (Z3.name (b_ mb i))
     = Gui.Ok (false, i, mb)
  /\ Painter._parse_microbatch_key (Z3.name max_start_offset)
     = Gui.Raise Gui.ValueError.
Proof.
  split; [apply parse_forward|]. split; [apply parse_backward|].
  reflexivity.
Qed.

(** X11. Two different variables never have the same name. *)
Theorem names_distinct (c1 c2 : const) :
  Z3.name c1 = Z3.name c2 -> c1 = c2.
Proof. apply name_inj. Qed.

Lemma names_distinct_witness : f_ 3 12 = f_ 3 12.
Proof. apply names_distinct. reflexivity. Defined.

(** ** The results handed to the painter *)

Lemma run_sat (check : Optimize -> CheckSatResult)
    (model : Optimize -> list (const * Z)) (self : Simulator)
    (solver : Optimize) :
  encode self = Ok solver -> check solver = sat ->
  run check model self
  = (results <-
       dict_pop "max_start_offset"
         (map (fun kv => (Z3.name (fst kv), snd kv)) (model solver));;
     Ok (mkOutcome ["Z3 Solver Solving..."; "Result: SAT"] (Some results))).
Proof.
  intros He Hc. unfold encode in He. unfold run.
  destruct (_build_constraints self) as [s1|e]; [|discriminate].
  cbn [Py.bind] in *.
  destruct (_build_optimize_objectives s1) as [s2|e]; [|discriminate].
  cbn [Py.bind] in *. injection He as ->. rewrite Hc. reflexivity.
Qed.

Lemma dict_pop_missing (key : string) (d : list (string * Z)) :
  ~ In key (map fst d) -> dict_pop key d = Raise (KeyError key).
Proof.
  induction d as [|[k v] d IH]; cbn [dict_pop map fst In]; intros H.
  - reflexivity.
  - destruct (String.eqb_spec k key) as [->|_]; [tauto|].
    rewrite IH by tauto. reflexivity.
Qed.

Lemma dict_pop_found (key : string) (v : Z) (d1 d2 : list (string * Z)) :
  ~ In key (map fst d1) ->
  dict_pop key (d1 ++ (key, v) :: d2) = Ok (d1 ++ d2).
Proof.
  induction d1 as [|[k w] d1 IH]; cbn [dict_pop map fst In app]; intros H.
  - rewrite String.eqb_refl. reflexivity.
  - destruct (String.eqb_spec k key) as [->|_]; [tauto|].
    rewrite IH by tauto. reflexivity.
Qed.

Lemma named_keys (l : list (const * Z)) (c : const) :
  In (Z3.name c) (map fst (map (fun kv => (Z3.name (fst kv), snd kv)) l))
  <-> In c (map fst l).
Proof.
  rewrite !map_map. cbn [fst]. rewrite !in_map_iff. split.
  - intros ([c' v] & E & H). apply name_inj in E. cbn [fst] in E. subst c'.
    exists (c, v). split; [reflexivity | exact H].
  - intros ([c' v] & E & H). cbn [fst] in E. subst c'.
    exists (c, v). split; [reflexivity | exact H].
Qed.

Lemma named_keys_NoDup (l : list (const * Z)) :
  NoDup (map fst l) ->
  NoDup (map fst (map (fun kv => (Z3.name (fst kv), snd kv)) l)).
Proof.
  induction l as [|[c v] l IH]; cbn [map fst]; intros H.
  - constructor.
  - inversion H as [|? ? Hc Hl]; subst. constructor.
    + intros Hin. apply (named_keys l c) in Hin. contradiction.
    + apply IH. exact Hl.
Qed.

(** X12. When the solver answers [sat] with a model that gives no value to the
    objective variable, [run] ends in the [KeyError] of [pop]. *)
Theorem run_needs_objective_value (check : Optimize -> CheckSatResult)
    (model : Optimize -> list (const * Z)) (self : Simulator)
    (solver : Optimize) :
  encode self = Ok solver -> check solver = sat ->
  ~ In max_start_offset (map fst (model solver)) ->
  run check model self = Raise (KeyError "max_start_offset").
Proof.
  intros He Hc Hm. rewrite (run_sat check model self solver He Hc).
  rewrite dict_pop_missing; [reflexivity|].
  intros Hin. apply (named_keys (model solver) max_start_offset) in Hin.
  contradiction.
Qed.

Lemma run_needs_objective_value_witness :
  run (fun _ => sat) (fun _ => [(f_ 0 0, 0); (b_ 0 0, 1)])
      (fresh 1 1 [1] 1 1 strict)
  = Raise (KeyError "max_start_offset").
Proof.
  apply (run_needs_objective_value _ _ _ (problem 1 1 [1] 1 1 strict)).
  - apply encode_fresh. cbn. lia.
  - reflexivity.
  - cbn. intros [H|[H|[]]]; discriminate H.
Defined.

(** X13. When the solver answers [sat], the painter is handed the values of
    the model under the names of their variables, in the order of the model
    and without the objective variable; no two of them have the same name. *)
Theorem run_hands_over_schedule (check : Optimize -> CheckSatResult)
    (model : Optimize -> list (const * Z)) (self : Simulator)
    (solver : Optimize) (l1 l2 : list (const * Z)) (v : Z) :
  encode self = Ok solver -> check solver = sat ->
  model solver = l1 ++ (max_start_offset, v) :: l2 ->
  NoDup (map fst (model solver)) ->
  let results := map (fun kv => (Z3.name (fst kv), snd kv)) (l1 ++ l2) in
  run check model self
  = Ok (mkOutcome ["Z3 Solver Solving..."; "Result: SAT"] (Some results))
  /\ NoDup (map fst results).
Proof.
  intros He Hc Hm Hnd results.
  rewrite (run_sat check model self solver He Hc).
  rewrite Hm in *. rewrite map_app in Hnd. cbn [map fst] in Hnd.
  pose proof (NoDup_remove_1 _ _ _ Hnd) as Hrest.
  apply NoDup_remove_2 in Hnd.
  rewrite map_app. cbn [map fst].
  change (Z3.name max_start_offset) with "max_start_offset".
  rewrite dict_pop_found.
  - cbn [Py.bind]. unfold results. rewrite map_app. split; [reflexivity|].
    rewrite <- map_app. apply named_keys_NoDup. rewrite map_app.
    exact Hrest.
  - intros Hin. apply (named_keys l1 max_start_offset) in Hin.
    apply Hnd. apply in_or_app. left. exact Hin.
Qed.

Lemma run_hands_over_schedule_witness :
  run (fun _ => sat)
      (fun _ => [(f_ 0 0, 0); (max_start_offset, 1); (b_ 0 0, 1)])
      (fresh 1 1 [1] 1 1 strict)
  = Ok (mkOutcome ["Z3 Solver Solving..."; "Result: SAT"]
          (Some [("f_0_0", 0); ("b_0_0", 1)])).
Proof.
  apply (run_hands_over_schedule (fun _ => sat)
           (fun _ => [(f_ 0 0, 0); (max_start_offset, 1); (b_ 0 0, 1)])
           (fresh 1 1 [1] 1 1 strict) (problem 1 1 [1] 1 1 strict)
           [(f_ 0 0, 0)] [(b_ 0 0, 1)] 1).
  - apply encode_fresh. cbn. lia.
  - reflexivity.
  - reflexivity.
  - cbn. repeat constructor; cbn; intuition discriminate.
Defined.

(** ** What the painter draws *)

Lemma setitem_fresh {V} (k : Z) (v : V) (d : list (Z * V)) :
  (forall kv, In kv d -> fst kv <> k) -> Gui.setitem k v d = d ++ [(k, v)].
Proof.
  induction d as [|[k' v'] d IH]; cbn [Gui.setitem app]; intros H;
    [reflexivity|].
  destruct (Z.eqb_spec k' k) as [E|_].
  - exfalso. apply (H (k', v')); [left; reflexivity | exact E].
  - rewrite IH; [reflexivity|]. intros kv Hkv. apply H. right. exact Hkv.
Qed.

Lemma numbered_app (first : Z) (l1 l2 : list placed) :
  numbered first (l1 ++ l2)
  = numbered first l1 ++ numbered (first + 2 * Py.len l1) l2.
Proof.
  revert first. induction l1 as [|pb l1 IH]; intros first;
    cbn [numbered app].
  - f_equal. unfold Py.len. cbn. lia.
  - rewrite IH. do 3 f_equal. unfold Py.len. cbn [List.length]. lia.
Qed.

Lemma numbered_bounds (first : Z) (l : list placed) (ib : Z * placed) :
  In ib (numbered first l) ->
  first <= fst ib /\ fst ib + 2 <= first + 2 * Py.len l /\ In (snd ib) l.
Proof.
  revert first. induction l as [|pb l IH]; intros first;
    cbn [numbered In]; [intros []|].
  unfold Py.len. cbn [List.length]. intros [<-|H].
  - cbn [fst snd]. repeat split; [lia | lia | left; reflexivity].
  - apply IH in H. unfold Py.len in H.
    repeat split; [lia | lia | right; tauto].
Qed.

Lemma length_picture (sigma : assignment) (P Df Db W : Z)
    (hl : placed -> bool) (blocks : list placed) :
  0 <= P ->
  Py.len (picture sigma P Df Db W hl blocks) = P + 2 * Py.len blocks.
Proof.
  intros HP. unfold picture, Py.len.
  rewrite length_app, length_map, length_range.
  rewrite (length_flat_map_const _ _ 2%nat) by reflexivity. lia.
Qed.

Lemma timelines_drawn (self : Painter.SchedulingPainter) (W : Z)
    (l : list Z) (canvas : Tk.Canvas) :
  fold_left (fun c pid => Painter.draw_timeline self W pid c) l canvas
  = Tk.mkCanvas (Tk.width canvas) (Tk.height canvas)
      (Tk.items canvas
       ++ map (fun pid =>
                 Tk.rectangle (Painter._pp_align self)
                   ((Painter._pp_height self + Painter._pp_align self) * pid
                    + 5)
                   (W - Painter._pp_align self)
                   ((Painter._pp_height self + Painter._pp_align self)
                    * (pid + 1) - 5)
                   "black" EmptyString [])
              l).
Proof.
  revert canvas. induction l as [|pid l IH]; intros canvas;
    cbn [fold_left map].
  - rewrite app_nil_r. destruct canvas; reflexivity.
  - rewrite IH. unfold Painter.draw_timeline, Tk.create.
    cbn [snd Tk.width Tk.height Tk.items]. rewrite <- app_assoc.
    reflexivity.
Qed.

Lemma len_snoc {A} (l : list A) (x : A) : Py.len (l ++ [x]) = Py.len l + 1.
Proof. unfold Py.len. rewrite length_app. cbn [List.length]. lia. Qed.

Lemma register_fresh {V} (f : Z * placed -> V) (first : Z)
    (done : list placed) (v : V) :
  Gui.setitem (first + 2 * Py.len done) v
    (map (fun ib => (fst ib, f ib)) (numbered first done))
  = map (fun ib => (fst ib, f ib)) (numbered first done)
    ++ [(first + 2 * Py.len done, v)].
Proof.
  apply setitem_fresh. intros kv Hkv. apply in_map_iff in Hkv.
  destruct Hkv as (ib & <- & Hib). apply numbered_bounds in Hib.
  cbn [fst]. lia.
Qed.

Lemma register_block_fresh (first : Z) (done : list placed) :
  let id := first + 2 * Py.len done in
  let d := flat_map (fun ib : Z * placed =>
                       [(fst ib, fst ib); (fst ib + 1, fst ib)])
                    (numbered first done) in
  Gui.setitem (id + 1) id (Gui.setitem id id d)
  = d ++ [(id, id); (id + 1, id)].
Proof.
  intros id d.
  assert (Hd : forall kv, In kv d -> fst kv < id).
  { intros kv Hkv. apply in_flat_map in Hkv.
    destruct Hkv as (ib & Hib & Hkv). apply numbered_bounds in Hib.
    destruct Hkv as [<-|[<-|[]]]; cbn [fst]; unfold id; lia. }
  rewrite (setitem_fresh id).
  - rewrite setitem_fresh.
    + rewrite <- app_assoc. reflexivity.
    + intros kv Hkv. apply in_app_or in Hkv.
      destruct Hkv as [Hkv|[<-|[]]]; [apply Hd in Hkv|cbn [fst]]; lia.
  - intros kv Hkv. apply Hd in Hkv. lia.
Qed.

Section Drawing.

Variables (sigma : assignment) (P Df Db W : Z).
Hypothesis HP : 0 <= P.

Let plain : placed -> bool := fun _ => false.

(** One turn of the loop over the data. *)
Lemma block_drawn (done : list placed) (pb : placed) :
  Painter.draw_block
    (Z3.name (block_const pb), sigma (block_const pb) * 10)
    (painter_with P Df Db plain done,
     Tk.mkCanvas W (60 * P) (picture sigma P Df Db W plain done))
  = Gui.Ok (painter_with P Df Db plain (done ++ [pb]),
            Tk.mkCanvas W (60 * P)
              (picture sigma P Df Db W plain (done ++ [pb]))).
Proof using HP.
  pose proof (length_picture sigma P Df Db W plain done HP) as Hlen.
  unfold Painter.draw_block.
  destruct pb as [pp [[|] mb]]; cbn [block_const fst snd];
    rewrite ?parse_forward, ?parse_backward; cbn [Gui.bind];
    unfold Tk.create; cbn [Tk.items Tk.width Tk.height fst snd];
    rewrite !len_snoc, Hlen;
    replace (P + 2 * Py.len done + 1) with (P + 1 + 2 * Py.len done)
      by lia;
    unfold painter_with, Painter.set_highlight_state,
      Painter.set_item2color, Painter.set_item2block,
      Painter.set_item2mid;
    cbn [Painter._pp_align Painter._pp_height Painter._forward_length
         Painter._backward_length Painter._highlight_state
         Painter._item2color Painter._item2block Painter._item2mid
         Painter._pp_size Painter._pixel_base];
    rewrite (register_fresh (fun ib => plain (snd ib))),
      (register_fresh (fun ib => colour (snd (snd ib)))),
      (register_fresh (fun ib => snd (snd (snd ib))));
    rewrite (register_block_fresh (P + 1) done);
    rewrite numbered_app; cbn [numbered];
    rewrite !map_app, flat_map_app; cbn [map flat_map fst snd app];
    f_equal; f_equal; f_equal;
    unfold picture; rewrite flat_map_app, <- !app_assoc;
    cbn [flat_map app]; do 2 f_equal;
    cbn [block_rectangle block_text fst snd start duration fwd bwd letter];
    unfold shown_fill, plain, fwd, bwd; cbn [colour fst snd];
    (f_equal; [f_equal; lia|]); f_equal; f_equal.
  - replace (10 + sigma (f_ mb pp) * 10
             + (10 + sigma (f_ mb pp) * 10 + Df * 10))
      with ((10 + 10 * sigma (f_ mb pp) + 5 * Df) * 2) by lia.
    apply Z.div_mul. lia.
  - replace ((50 + 10) * pp + 5 + ((50 + 10) * (pp + 1) - 5))
      with ((60 * pp + 30) * 2) by lia.
    apply Z.div_mul. lia.
  - replace (10 + sigma (b_ mb pp) * 10
             + (10 + sigma (b_ mb pp) * 10 + Db * 10))
      with ((10 + 10 * sigma (b_ mb pp) + 5 * Db) * 2) by lia.
    apply Z.div_mul. lia.
  - replace ((50 + 10) * pp + 5 + ((50 + 10) * (pp + 1) - 5))
      with ((60 * pp + 30) * 2) by lia.
    apply Z.div_mul. lia.
Qed.

(** The loop over the data. *)
Lemma blocks_drawn (todo done : list placed) :
  Gui.for_ (map (fun kv => (fst kv, snd kv * 10)) (results_of sigma todo))
    Painter.draw_block
    (painter_with P Df Db plain done,
     Tk.mkCanvas W (60 * P) (picture sigma P Df Db W plain done))
  = Gui.Ok (painter_with P Df Db plain (done ++ todo),
            Tk.mkCanvas W (60 * P)
              (picture sigma P Df Db W plain (done ++ todo))).
Proof using HP.
  revert done. induction todo as [|pb todo IH]; intros done.
  - rewrite app_nil_r. reflexivity.
  - unfold results_of, entries in *. cbn [map Gui.for_ fst snd].
    rewrite block_drawn. cbn [Gui.bind]. rewrite IH, <- app_assoc.
    reflexivity.
Qed.

End Drawing.

Lemma maximum_scale (l : list Z) (k : Z) :
  0 <= k -> l <> [] -> maximum (map (fun v => v * k) l) = maximum l * k.
Proof.
  intros Hk Hl.
  assert (Hm : map (fun v => v * k) l <> [])
    by (destruct l; [contradiction | discriminate]).
  apply Z.le_antisymm.
  - pose proof (maximum_in _ Hm) as Hin. apply in_map_iff in Hin.
    destruct Hin as (v & <- & Hv). pose proof (maximum_ge l v Hv). nia.
  - apply maximum_ge. apply in_map_iff. exists (maximum l).
    split; [reflexivity|]. apply maximum_in. exact Hl.
Qed.

(** The starts that a list of blocks is drawn from. *)
Lemma results_values (sigma : assignment) (blocks : list placed) :
  map snd (results_of sigma blocks)
  = map (fun pb => sigma (block_const pb)) blocks.
Proof. unfold results_of, entries. rewrite !map_map. reflexivity. Qed.

(** [_draw] on the starts of a list of blocks. *)
Lemma draw_blocks (sigma : assignment) (P M : Z) (Cap : list Z) (Df Db : Z)
    (st : strategy) (blocks : list placed) :
  0 <= P -> blocks <> [] ->
  let latest := maximum (map (fun pb => sigma (block_const pb)) blocks) in
  _draw (fresh P M Cap Df Db st) (results_of sigma blocks)
  = Gui.Ok (painter_with P Df Db (fun _ => false) blocks,
            window_with sigma P Df Db (10 * (latest + Db) + 20)
              "(start,end)" (fun _ => false) blocks
              (Py.str (latest + Db))).
Proof.
  intros HP Hne latest. unfold _draw, Painter.draw, Painter.__init__.
  cbn [Painter._pp_size Painter._pp_height Painter._pp_align
       Painter._pixel_base Painter._forward_length Painter._backward_length
       Painter.pp_size Painter.pp_height Painter.pp_align
       Painter.pixel_base Painter.forward_length Painter.backward_length
       fresh _pp_size _forward_length _backward_length].
  rewrite map_map. cbn [snd].
  assert (Hmax : Gui.max (map (fun x : string * Z => snd x * 10)
                              (results_of sigma blocks))
                 = Gui.Ok (latest * 10)).
  { rewrite <- (map_map snd (fun v => v * 10)), results_values.
    unfold latest. destruct blocks as [|pb blocks]; [contradiction|].
    rewrite <- (maximum_scale _ 10) by (try lia; discriminate).
    reflexivity. }
  rewrite Hmax. cbn [Gui.bind]. unfold Py.floordiv.
  change (10 =? 0) with false. cbv iota. cbn [Gui.lift Gui.bind].
  replace ((latest * 10 + Db * 10) / 10) with (latest + Db)
    by (symmetry; rewrite <- Z.mul_add_distr_r; apply Z.div_mul; lia).
  unfold Tk.create, Tk.new_Canvas. cbn [Tk.items Tk.width Tk.height app].
  rewrite timelines_drawn.
  cbn [Tk.items Tk.width Tk.height app Painter._pp_align
       Painter._pp_height].
  replace (latest * 10 + Db * 10 + 2 * 10) with (10 * (latest + Db) + 20)
    by lia.
  pose proof (blocks_drawn sigma P Df Db (10 * (latest + Db) + 20) HP
                blocks []) as Hloop.
  cbn [app] in Hloop. unfold picture in Hloop at 1.
  cbn [flat_map] in Hloop. rewrite app_nil_r in Hloop.
  unfold timeline in Hloop.
  change (50 + 10) with 60.
  change (painter_with P Df Db (fun _ => false) [])
    with (Painter.mkSchedulingPainter P 50 10 10 (Df * 10) (Db * 10)
            [] [] [] []) in Hloop.
  rewrite Hloop. cbn [Gui.bind]. unfold window_with, labels.
  replace (10 * (latest + Db) + 20 - 10 - 137)
    with (10 * (latest + Db) + 20 - 147) by lia.
  replace (10 * (latest + Db) + 20 - 10 - 37)
    with (10 * (latest + Db) + 20 - 47) by lia.
  reflexivity.
Qed.

(** ** When [draw] fails *)



(** ** The picture of a feasible schedule *)

Section Shown.

Variables (sigma : assignment) (P M : Z) (Cap : list Z) (Df Db : Z)
  (st : strategy) (blocks : list placed).
Hypothesis HP : 1 <= P.
Hypothesis HM : 1 <= M.
Hypothesis HDf : 0 <= Df.
Hypothesis HDb : 0 <= Db.
Hypothesis Hfeasible : feasible sigma P M Df Db Cap st.
Hypothesis Hblocks : all_blocks P M blocks.

Lemma start_const (pb : placed) :
  sigma (block_const pb) = start sigma (fst pb) (snd pb).
Proof. destruct pb as [pp [[|] mb]]; reflexivity. Qed.

Lemma blocks_nonempty : blocks <> [].
Proof using HP HM Hblocks.
  intros E. destruct Hblocks as (_ & H).
  assert (Hin : In (0, (forward, 0)) blocks)
    by (apply H; cbn [fst snd]; lia).
  rewrite E in Hin. destruct Hin.
Qed.

Lemma block_ends_in_time (pb : placed) :
  In pb blocks ->
  0 <= start sigma (fst pb) (snd pb)
  /\ start sigma (fst pb) (snd pb) + duration Df Db (snd pb)
     <= makespan sigma P M Db
  /\ start sigma (fst pb) (snd pb) <= maximum (backward_starts sigma P M).
Proof using HP HM HDf HDb Hfeasible Hblocks.
  intros Hin. destruct Hblocks as (_ & Hall). apply Hall in Hin.
  destruct Hin as (Hpp & Hmb).
  destruct Hfeasible as (Hsign & Hord & _).
  destruct pb as [pp [d mb]]. cbn [fst snd] in *.
  destruct (Hsign pp mb Hpp Hmb) as (Hf & Hb).
  pose proof (ordered_handoff sigma Df Db P st mb pp HDf HDb
                (Hord mb Hmb) Hpp) as Hh.
  assert (Hlast : bwd sigma pp mb <= maximum (backward_starts sigma P M)).
  { apply maximum_ge. apply in_backward_starts. exists pp, mb.
    repeat split; lia. }
  rewrite makespan_eq by lia.
  destruct d; cbn [start duration fst snd]; lia.
Qed.

Lemma latest_start :
  maximum (map (fun pb => sigma (block_const pb)) blocks)
  = maximum (backward_starts sigma P M).
Proof using HP HM HDf HDb Hfeasible Hblocks.
  assert (Hne : map (fun pb => sigma (block_const pb)) blocks <> []).
  { pose proof blocks_nonempty as H. destruct blocks;
      [contradiction | discriminate]. }
  apply Z.le_antisymm.
  - pose proof (maximum_in _ Hne) as Hin. apply in_map_iff in Hin.
    destruct Hin as (pb & <- & Hpb). rewrite start_const.
    apply block_ends_in_time. exact Hpb.
  - assert (Hb : backward_starts sigma P M <> [])
      by (apply backward_starts_nonempty; lia).
    pose proof (maximum_in _ Hb) as Hin. apply in_backward_starts in Hin.
    destruct Hin as (pp & mb & Hpp & Hmb & ->). apply maximum_ge.
    apply in_map_iff. exists (pp, (backward, mb)). split; [reflexivity|].
    apply Hblocks. cbn [fst snd]. lia.
Qed.

Lemma feasible_drawn :
  _draw (fresh P M Cap Df Db st) (results_of sigma blocks)
  = Gui.Ok (painter_with P Df Db (fun _ => false) blocks,
            window_with sigma P Df Db (10 * makespan sigma P M Db + 20)
              "(start,end)" (fun _ => false) blocks
              (Py.str (makespan sigma P M Db))).
Proof using HP HM HDf HDb Hfeasible Hblocks.
  rewrite draw_blocks by (try lia; apply blocks_nonempty).
  rewrite latest_start, <- makespan_eq by lia. reflexivity.
Qed.

Lemma blocks_inside (pb : placed) :
  In pb blocks ->
  inside (block_rectangle sigma Df Db (colour (snd pb)) pb)
         (timeline (10 * makespan sigma P M Db + 20) (fst pb)).
Proof using HP HM HDf HDb Hfeasible Hblocks.
  intros Hin. pose proof (block_ends_in_time pb Hin) as (H0 & H1 & _).
  destruct pb as [pp b]. cbn [block_rectangle timeline inside fst snd] in *.
  lia.
Qed.

Lemma blocks_apart (pb1 pb2 : placed) (fill1 fill2 : string) :
  In pb1 blocks -> In pb2 blocks -> pb1 <> pb2 ->
  apart (block_rectangle sigma Df Db fill1 pb1)
        (block_rectangle sigma Df Db fill2 pb2).
Proof using Hfeasible Hblocks.
  intros H1 H2 Hne. destruct Hblocks as (_ & Hall).
  apply Hall in H1, H2. destruct H1 as (Hpp1 & Hmb1), H2 as (Hpp2 & Hmb2).
  destruct pb1 as [pp1 b1], pb2 as [pp2 b2].
  cbn [block_rectangle apart fst snd] in *.
  destruct (Z.eq_dec pp1 pp2) as [->|Hpp]; [|lia].
  destruct Hfeasible as (_ & _ & Hdis & _).
  assert (Hb : b1 <> b2) by congruence.
  destruct (Hdis pp2 b1 b2 Hpp2 Hmb1 Hmb2 Hb) as [H|H]; lia.
Qed.

End Shown.

(** X15. The picture of a feasible schedule is to scale. The window is as wide
    as the makespan and as high as the number of stages; each block is drawn
    in the timeline of its stage from ten times its start to ten times its
    end, and no two blocks overlap. *)
Theorem picture_to_scale (sigma : assignment) (P M : Z) (Cap : list Z)
    (Df Db : Z) (st : strategy) (blocks : list placed) :
  1 <= P -> 1 <= M -> 0 <= Df -> 0 <= Db ->
  feasible sigma P M Df Db Cap st ->
  all_blocks P M blocks ->
  let width := 10 * makespan sigma P M Db + 20 in
  _draw (fresh P M Cap Df Db st) (results_of sigma blocks)
  = Gui.Ok (painter_with P Df Db (fun _ => false) blocks,
            window_with sigma P Df Db width "(start,end)" (fun _ => false)
              blocks (Py.str (makespan sigma P M Db)))
  /\ (forall pb, In pb blocks ->
        inside (block_rectangle sigma Df Db (colour (snd pb)) pb)
               (timeline width (fst pb)))
  /\ (forall pb1 pb2, In pb1 blocks -> In pb2 blocks -> pb1 <> pb2 ->
        apart (block_rectangle sigma Df Db (colour (snd pb1)) pb1)
              (block_rectangle sigma Df Db (colour (snd pb2)) pb2)).
Proof.
  intros HP HM HDf HDb Hf Hb width. split; [|split].
  - apply (feasible_drawn sigma P M Cap Df Db st blocks); assumption.
  - intros pb. apply (blocks_inside sigma P M Cap Df Db st blocks);
      assumption.
  - intros pb1 pb2.
    apply (blocks_apart sigma P M Cap Df Db st blocks); assumption.
Qed.

Lemma single_feasible : feasible single_schedule 1 1 1 1 [1] strict.
Proof.
  apply (satisfies_problem single_schedule 1 1 [1] 1 1 strict);
    [lia | reflexivity].
Qed.

Lemma single_blocks :
  all_blocks 1 1 [(0, (forward, 0)); (0, (backward, 0))].
Proof.
  split.
  - repeat constructor; cbn [In]; intuition discriminate.
  - intros [pp [d mb]]. cbn [In fst snd]. split.
    + intros [H|[H|[]]]; injection H as <- _ <-; lia.
    + intros (Hpp & Hmb). assert (pp = 0) as -> by lia.
      assert (mb = 0) as -> by lia. destruct d; tauto.
Qed.

Lemma picture_to_scale_witness :
  _draw (fresh 1 1 [1] 1 1 strict) [("f_0_0", 0); ("b_0_0", 1)]
  = Gui.Ok
      (painter_with 1 1 1 (fun _ => false)
         [(0, (forward, 0)); (0, (backward, 0))],
       window_with single_schedule 1 1 1 40 "(start,end)" (fun _ => false)
         [(0, (forward, 0)); (0, (backward, 0))] "2").
Proof.
  exact (proj1 (picture_to_scale single_schedule 1 1 [1] 1 1 strict
                  [(0, (forward, 0)); (0, (backward, 0))]
                  ltac:(lia) ltac:(lia) ltac:(lia) ltac:(lia)
                  single_feasible single_blocks)).
Defined.

(** ** From the answer of the solver to the window *)

Lemma feasible_makespan_least (P M : Z) (Cap : list Z) (Df Db : Z)
    (st : strategy) (sigma sigma' : assignment) :
  1 <= P <= Py.len Cap -> 1 <= M ->
  optimal sigma (problem P M Cap Df Db st) ->
  feasible sigma' P M Df Db Cap st ->
  makespan sigma P M Db <= makespan sigma' P M Db.
Proof.
  intros HP HM Hopt Hf.
  destruct (optimal_makespan P M Cap Df Db st ltac:(lia) HM sigma Hopt)
    as (_ & H).
  apply (H (set_max sigma' (maximum (backward_starts sigma' P M)))).
  apply satisfies_problem; [lia|]. split.
  - apply feasible_set_max. exact Hf.
  - intros pp mb Hpp Hmb. cbn [set_max].
    apply (maximum_ge (backward_starts sigma' P M)).
    apply in_backward_starts. exists pp, mb. repeat split; lia.
Qed.

Lemma block_const_not_objective (blocks : list placed) (sigma : assignment) :
  ~ In max_start_offset (map fst (entries sigma blocks)).
Proof.
  unfold entries. rewrite map_map. cbn [fst]. intros H.
  apply in_map_iff in H. destruct H as ([pp [[|] mb]] & E & _);
    discriminate E.
Qed.

(** X16. When the solver answers [sat] with an optimal model, [run] prints the
    two lines and draws the schedule of the model; the time that the window
    shows as MinExecutionTime is the makespan of that schedule, and no
    feasible schedule has a smaller one. *)
Theorem window_shows_minimum (check : Optimize -> CheckSatResult)
    (model : Optimize -> list (const * Z)) (sigma : assignment)
    (P M : Z) (Cap : list Z) (Df Db : Z) (st : strategy)
    (before after : list placed) :
  1 <= P <= Py.len Cap -> 1 <= M -> 0 <= Df -> 0 <= Db ->
  check (problem P M Cap Df Db st) = sat ->
  model (problem P M Cap Df Db st)
  = entries sigma before
    ++ (max_start_offset, sigma max_start_offset) :: entries sigma after ->
  all_blocks P M (before ++ after) ->
  optimal sigma (problem P M Cap Df Db st) ->
  run_and_draw check model (fresh P M Cap Df Db st)
  = Gui.Ok
      (["Z3 Solver Solving..."; "Result: SAT"],
       Some (painter_with P Df Db (fun _ => false) (before ++ after),
             window_with sigma P Df Db (10 * makespan sigma P M Db + 20)
               "(start,end)" (fun _ => false) (before ++ after)
               (Py.str (makespan sigma P M Db))))
  /\ forall sigma', feasible sigma' P M Df Db Cap st ->
       makespan sigma P M Db <= makespan sigma' P M Db.
Proof.
  intros HP HM HDf HDb Hc Hm Hb Hopt. split.
  - unfold run_and_draw.
    rewrite (run_sat check model _ (problem P M Cap Df Db st))
      by (try apply encode_fresh; assumption).
    rewrite Hm, map_app. cbn [map fst snd].
    change (Z3.name max_start_offset) with "max_start_offset".
    rewrite dict_pop_found.
    + cbn [Py.bind Gui.lift Gui.bind drawn printed].
      rewrite <- map_app.
      unfold entries. rewrite <- map_app.
      fold (entries sigma (before ++ after)).
      fold (results_of sigma (before ++ after)).
      rewrite (feasible_drawn sigma P M Cap Df Db st); try assumption;
        try lia.
      * reflexivity.
      * destruct Hopt as (Hs & _).
        apply satisfies_problem in Hs; [|lia]. apply Hs.
    + intros Hin.
      apply (named_keys (entries sigma before) max_start_offset) in Hin.
      apply (block_const_not_objective before sigma). exact Hin.
  - intros sigma'. apply feasible_makespan_least; assumption.
Qed.

Lemma window_shows_minimum_witness :
  run_and_draw (fun _ => sat)
    (fun _ => [(f_ 0 0, 0); (max_start_offset, 1); (b_ 0 0, 1)])
    (fresh 1 1 [1] 1 1 strict)
  = Gui.Ok
      (["Z3 Solver Solving..."; "Result: SAT"],
       Some (painter_with 1 1 1 (fun _ => false)
               [(0, (forward, 0)); (0, (backward, 0))],
             window_with single_schedule 1 1 1 40 "(start,end)"
               (fun _ => false) [(0, (forward, 0)); (0, (backward, 0))]
               "2")).
Proof.
  exact (proj1 (window_shows_minimum (fun _ => sat)
                  (fun _ => [(f_ 0 0, 0); (max_start_offset, 1);
                             (b_ 0 0, 1)])
                  single_schedule 1 1 [1] 1 1 strict
                  [(0, (forward, 0))] [(0, (backward, 0))]
                  ltac:(cbn; lia) ltac:(lia) ltac:(lia) ltac:(lia)
                  eq_refl eq_refl single_blocks single_schedule_optimal)).
Defined.

(** ** Clicks *)

Lemma placed_eqb_spec (a b : placed) : reflect (a = b) (placed_eqb a b).
Proof.
  destruct a as [pp1 [d1 mb1]], b as [pp2 [d2 mb2]].
  unfold placed_eqb. cbn [fst snd].
  destruct (Z.eqb_spec pp1 pp2) as [->|H]; cbn [andb];
    [|constructor; congruence].
  destruct (Z.eqb_spec mb1 mb2) as [->|H]; cbn [andb];
    [|constructor; congruence].
  destruct d1, d2; constructor; congruence.
Qed.

Lemma str_inj (a b : Z) : Py.str a = Py.str b -> a = b.
Proof.
  intros E. apply (f_equal Str.int) in E. rewrite !int_str in E.
  injection E as ->. reflexivity.
Qed.

Lemma split_tag (pid mid : Z) (b : block) :
  Str.split (Painter.tag_of pid mid (letter b)) "_"
  = ["p"; Py.str pid; "m"; Py.str mid; letter b]%string.
Proof.
  unfold Painter.tag_of.
  change ("p_" ++ Py.str pid ++ "_m_" ++ Py.str mid ++ "_" ++ letter b)%string
    with (String "p" (String "_"
            (Py.str pid
             ++ String "_" (String "m" (String "_"
                  (Py.str mid ++ String "_" (letter b))))))%string).
  cbn [Str.split]. change (Ascii.eqb "p" "_") with false.
  change (Ascii.eqb "_" "_") with true. cbv iota.
  rewrite (proj1 (split_str pid _)). cbn [Str.split].
  change (Ascii.eqb "m" "_") with false.
  change (Ascii.eqb "_" "_") with true. cbv iota.
  rewrite (proj1 (split_str mid _)).
  destruct b as [[|] mb]; reflexivity.
Qed.

Lemma tag_inj (pb1 pb2 : placed) :
  Painter.tag_of (fst pb1) (snd (snd pb1)) (letter (snd pb1))
  = Painter.tag_of (fst pb2) (snd (snd pb2)) (letter (snd pb2)) ->
  pb1 = pb2.
Proof.
  intros E. apply (f_equal (fun s => Str.split s "_")) in E.
  rewrite !split_tag in E. injection E as E1 E2 E3.
  apply str_inj in E1, E2.
  destruct pb1 as [pp1 [d1 mb1]], pb2 as [pp2 [d2 mb2]].
  cbn [fst snd] in *. subst.
  destruct d1, d2; try reflexivity; discriminate E3.
Qed.

Lemma len_cons {A} (x : A) (l : list A) : Py.len (x :: l) = 1 + Py.len l.
Proof. unfold Py.len. cbn [List.length]. lia. Qed.

Lemma len_nonneg {A} (l : list A) : 0 <= Py.len l.
Proof. unfold Py.len. lia. Qed.

Lemma rectangle_id_split (first : Z) (pre post : list placed) (q : placed) :
  ~ In q pre ->
  rectangle_id first (pre ++ q :: post) q = first + 2 * Py.len pre.
Proof.
  revert first. induction pre as [|p pre IH]; intros first Hq;
    cbn [app rectangle_id].
  - destruct (placed_eqb_spec q q); [|congruence]. cbn. lia.
  - destruct (placed_eqb_spec p q) as [->|_].
    + exfalso. apply Hq. left. reflexivity.
    + rewrite IH by (intros H; apply Hq; right; exact H).
      rewrite len_cons. lia.
Qed.

Section Registered.

Context {V : Type} (f : Z * placed -> V).

Let entry (ib : Z * placed) : Z * V := (fst ib, f ib).

Lemma getitem_registered (first : Z) (pre post : list placed) (q : placed) :
  Gui.getitem (map entry (numbered first (pre ++ q :: post)))
              (first + 2 * Py.len pre)
  = Gui.Ok (f (first + 2 * Py.len pre, q)).
Proof.
  revert first. induction pre as [|p pre IH]; intros first;
    cbn [app numbered map Gui.getitem entry fst].
  - replace (first + 2 * Py.len []) with first by (cbn; lia).
    rewrite Z.eqb_refl. reflexivity.
  - rewrite len_cons. pose proof (len_nonneg pre).
    destruct (Z.eqb_spec first (first + 2 * (1 + Py.len pre))); [lia|].
    replace (first + 2 * (1 + Py.len pre)) with (first + 2 + 2 * Py.len pre)
      by lia.
    apply IH.
Qed.

Lemma contains_registered (first : Z) (pre post : list placed)
    (q : placed) :
  Gui.contains (map entry (numbered first (pre ++ q :: post)))
               (first + 2 * Py.len pre) = true.
Proof.
  unfold Gui.contains. apply existsb_exists.
  exists (first + 2 * Py.len pre, f (first + 2 * Py.len pre, q)).
  split; [|cbn [fst]; apply Z.eqb_refl].
  rewrite numbered_app, map_app. apply in_or_app. right. left.
  reflexivity.
Qed.

Lemma setitem_registered (first : Z) (pre post : list placed) (q : placed)
    (v : V) :
  Gui.setitem (first + 2 * Py.len pre) v
    (map entry (numbered first (pre ++ q :: post)))
  = map entry (numbered first pre)
    ++ (first + 2 * Py.len pre, v)
       :: map entry (numbered (first + 2 * Py.len pre + 2) post).
Proof.
  revert first. induction pre as [|p pre IH]; intros first;
    cbn [app numbered map Gui.setitem entry fst].
  - replace (first + 2 * Py.len []) with first by (cbn; lia).
    rewrite Z.eqb_refl. reflexivity.
  - rewrite len_cons. pose proof (len_nonneg pre).
    destruct (Z.eqb_spec first (first + 2 * (1 + Py.len pre))); [lia|].
    replace (first + 2 * (1 + Py.len pre)) with (first + 2 + 2 * Py.len pre)
      by lia.
    rewrite IH. reflexivity.
Qed.

End Registered.

Lemma getitem_item2block (first : Z) (pre post : list placed) (q : placed) :
  let d := flat_map (fun ib : Z * placed =>
                       [(fst ib, fst ib); (fst ib + 1, fst ib)])
                    (numbered first (pre ++ q :: post)) in
  let id := first + 2 * Py.len pre in
  Gui.getitem d id = Gui.Ok id /\ Gui.getitem d (id + 1) = Gui.Ok id.
Proof.
  revert first. induction pre as [|p pre IH]; intros first d id;
    unfold d, id; cbn [app numbered flat_map Gui.getitem fst].
  - replace (first + 2 * Py.len []) with first by (cbn; lia).
    rewrite Z.eqb_refl.
    destruct (Z.eqb_spec first (first + 1)); [lia|].
    rewrite Z.eqb_refl. split; reflexivity.
  - rewrite len_cons. pose proof (len_nonneg pre).
    repeat match goal with
           | |- context [?a =? ?b] =>
               destruct (Z.eqb_spec a b); [lia|]
           end.
    replace (first + 2 * (1 + Py.len pre)) with (first + 2 + 2 * Py.len pre)
      by lia.
    apply IH.
Qed.

Lemma getitem_item2block_below (first : Z) (l : list placed) (k : Z) :
  k < first ->
  Gui.getitem (flat_map (fun ib : Z * placed =>
                           [(fst ib, fst ib); (fst ib + 1, fst ib)])
                        (numbered first l)) k
  = Gui.Raise (Gui.ItemKeyError k).
Proof.
  revert first. induction l as [|p l IH]; intros first Hk;
    cbn [numbered flat_map app Gui.getitem fst]; [reflexivity|].
  repeat match goal with
         | |- context [?a =? ?b] => destruct (Z.eqb_spec a b); [lia|]
         end.
  apply IH. lia.
Qed.

Lemma nth_error_middle {A} (l1 l2 : list A) (x : A) :
  nth_error (l1 ++ x :: l2) (List.length l1) = Some x.
Proof. induction l1 as [|y l1 IH]; [reflexivity | exact IH]. Qed.

Lemma replace_nth_middle {A} (l1 l2 : list A) (x y : A) :
  replace_nth (List.length l1) y (l1 ++ x :: l2) = l1 ++ y :: l2.
Proof.
  induction l1 as [|z l1 IH]; [reflexivity|].
  cbn [List.length app replace_nth]. rewrite IH. reflexivity.
Qed.

Lemma range2_cons (a : Z) (n : nat) :
  Py.range2 a (a + Z.of_nat (S n))
  = a :: Py.range2 (a + 1) (a + 1 + Z.of_nat n).
Proof.
  rewrite !range2_eq.
  replace (Z.to_nat (a + Z.of_nat (S n) - a)) with (S n) by lia.
  replace (Z.to_nat (a + 1 + Z.of_nat n - (a + 1))) with n by lia.
  cbn [seq map]. f_equal; [lia|].
  rewrite <- seq_shift, map_map. apply map_ext. intros k. lia.
Qed.

Section Tags.

Variable tag : string.

Let found (a : Z) (l : list Tk.item) : list Z :=
  map fst (filter (fun p => Tk.has_tag tag (snd p))
                  (combine (Py.range2 a (a + Py.len l)) l)).

Lemma found_cons (a : Z) (x : Tk.item) (l : list Tk.item) :
  found a (x :: l)
  = (if Tk.has_tag tag x then [a] else []) ++ found (a + 1) l.
Proof.
  unfold found, Py.len. cbn [List.length]. rewrite range2_cons.
  cbn [combine filter snd]. destruct (Tk.has_tag tag x); reflexivity.
Qed.

Lemma found_none (a : Z) (l : list Tk.item) :
  (forall y, In y l -> Tk.has_tag tag y = false) -> found a l = [].
Proof.
  revert a. induction l as [|x l IH]; intros a H;
    [unfold found; rewrite combine_nil; reflexivity|].
  rewrite found_cons, (H x) by (left; reflexivity).
  apply IH. intros y Hy. apply H. right. exact Hy.
Qed.

Lemma found_single (a : Z) (l1 l2 : list Tk.item) (x : Tk.item) :
  (forall y, In y l1 -> Tk.has_tag tag y = false) ->
  Tk.has_tag tag x = true ->
  (forall y, In y l2 -> Tk.has_tag tag y = false) ->
  found a (l1 ++ x :: l2) = [a + Py.len l1].
Proof.
  revert a. induction l1 as [|y l1 IH]; intros a H1 Hx H2; cbn [app].
  - rewrite found_cons, Hx, found_none by exact H2. cbn. f_equal. lia.
  - rewrite found_cons, (H1 y) by (left; reflexivity). cbn [app].
    rewrite IH; try assumption.
    + rewrite len_cons. f_equal. lia.
    + intros z Hz. apply H1. right. exact Hz.
Qed.

Lemma find_withtag_single (w h : Z) (l1 l2 : list Tk.item) (x : Tk.item) :
  (forall y, In y l1 -> Tk.has_tag tag y = false) ->
  Tk.has_tag tag x = true ->
  (forall y, In y l2 -> Tk.has_tag tag y = false) ->
  Tk.find_withtag tag (Tk.mkCanvas w h (l1 ++ x :: l2)) = [1 + Py.len l1].
Proof.
  intros H1 Hx H2. unfold Tk.find_withtag. cbn [Tk.items].
  replace (Py.len (l1 ++ x :: l2) + 1) with (1 + Py.len (l1 ++ x :: l2))
    by lia.
  apply (found_single 1); assumption.
Qed.

End Tags.

Lemma painter_ext (P Df Db : Z) (hl1 hl2 : placed -> bool)
    (l : list placed) :
  (forall r, In r l -> hl1 r = hl2 r) ->
  painter_with P Df Db hl1 l = painter_with P Df Db hl2 l.
Proof.
  intros H. unfold painter_with. f_equal. apply map_ext_in.
  intros ib Hib. apply numbered_bounds in Hib.
  rewrite (H (snd ib)) by tauto. reflexivity.
Qed.

Section Canvas.

Variables (sigma : assignment) (P Df Db W : Z).
Hypothesis HP : 0 <= P.

Let drawn (hl : placed -> bool) (l : list placed) : list Tk.item :=
  flat_map (fun pb => [block_rectangle sigma Df Db (shown_fill hl pb) pb;
                       block_text sigma Df Db pb]) l.

Let before (hl : placed -> bool) (pre : list placed) : list Tk.item :=
  map (timeline W) (Py.range P) ++ drawn hl pre.

Lemma picture_split (hl : placed -> bool) (pre post : list placed)
    (q : placed) :
  picture sigma P Df Db W hl (pre ++ q :: post)
  = before hl pre
    ++ block_rectangle sigma Df Db (shown_fill hl q) q
       :: block_text sigma Df Db q :: drawn hl post.
Proof.
  unfold picture, before, drawn. rewrite flat_map_app, <- app_assoc.
  reflexivity.
Qed.

Lemma length_before (hl : placed -> bool) (pre : list placed) :
  List.length (before hl pre) = Z.to_nat (P + 2 * Py.len pre).
Proof using HP.
  unfold before, drawn. rewrite length_app, length_map, length_range.
  rewrite (length_flat_map_const _ _ 2%nat) by reflexivity.
  unfold Py.len. lia.
Qed.

Lemma len_before (hl : placed -> bool) (pre : list placed) :
  Py.len (before hl pre) = P + 2 * Py.len pre.
Proof using HP.
  unfold Py.len at 1. rewrite length_before.
  pose proof (len_nonneg pre). lia.
Qed.

Lemma drawn_ext (hl1 hl2 : placed -> bool) (l : list placed) :
  (forall r, In r l -> hl1 r = hl2 r) -> drawn hl1 l = drawn hl2 l.
Proof.
  induction l as [|r l IH]; intros H; [reflexivity|].
  unfold drawn in *. cbn [flat_map]. unfold shown_fill at 1 3.
  rewrite (H r) by (left; reflexivity). cbn [app]. do 2 f_equal.
  apply IH. intros r' Hr'. apply H. right. exact Hr'.
Qed.

Lemma picture_ext (hl1 hl2 : placed -> bool) (l : list placed) :
  (forall r, In r l -> hl1 r = hl2 r) ->
  picture sigma P Df Db W hl1 l = picture sigma P Df Db W hl2 l.
Proof. intros H. unfold picture. f_equal. apply (drawn_ext _ _ _ H). Qed.

Lemma lookup_rectangle (hl : placed -> bool) (pre post : list placed)
    (q : placed) :
  Tk.lookup (Tk.mkCanvas W (60 * P)
               (picture sigma P Df Db W hl (pre ++ q :: post)))
            (P + 1 + 2 * Py.len pre)
  = Some (block_rectangle sigma Df Db (shown_fill hl q) q).
Proof using HP.
  unfold Tk.lookup. cbn [Tk.items]. pose proof (len_nonneg pre).
  destruct (Z.leb_spec (P + 1 + 2 * Py.len pre) 0); [lia|].
  replace (Z.to_nat (P + 1 + 2 * Py.len pre - 1))
    with (List.length (before hl pre))
    by (rewrite length_before; lia).
  rewrite picture_split. apply nth_error_middle.
Qed.

(** Filling the rectangle of one block. *)
Lemma fill_rectangle (hl : placed -> bool) (pre post : list placed)
    (q : placed) (fill : string) :
  ~ In q pre -> ~ In q post ->
  fill = shown_fill (toggled (placed_eqb q) hl) q ->
  Tk.itemconfig_fill (P + 1 + 2 * Py.len pre) fill
    (Tk.mkCanvas W (60 * P)
       (picture sigma P Df Db W hl (pre ++ q :: post)))
  = Tk.mkCanvas W (60 * P)
      (picture sigma P Df Db W (toggled (placed_eqb q) hl)
         (pre ++ q :: post)).
Proof using HP.
  intros Hpre Hpost ->. unfold Tk.itemconfig_fill.
  rewrite lookup_rectangle. destruct q as [pp b].
  cbn [block_rectangle]. unfold Tk.update. cbn [Tk.items Tk.width Tk.height].
  f_equal.
  replace (Z.to_nat (P + 1 + 2 * Py.len pre - 1))
    with (List.length (before hl pre))
    by (rewrite length_before; pose proof (len_nonneg pre); lia).
  rewrite !picture_split. cbn [block_rectangle].
  rewrite replace_nth_middle. unfold before.
  assert (Hagree : forall l, ~ In (pp, b) l ->
            drawn (toggled (placed_eqb (pp, b)) hl) l = drawn hl l).
  { intros l Hl. apply drawn_ext. intros r Hr. unfold toggled.
    destruct (placed_eqb_spec (pp, b) r) as [<-|_];
      [contradiction | reflexivity]. }
  rewrite !Hagree by assumption. reflexivity.
Qed.

Lemma find_rectangle (hl : placed -> bool) (pre post : list placed)
    (q : placed) :
  ~ In q pre -> ~ In q post ->
  Tk.find_withtag
    (Painter.tag_of (fst q) (snd (snd q)) (letter (snd q)))
    (Tk.mkCanvas W (60 * P)
       (picture sigma P Df Db W hl (pre ++ q :: post)))
  = [P + 1 + 2 * Py.len pre].
Proof using HP.
  intros Hpre Hpost. rewrite picture_split.
  assert (Hother : forall l, ~ In q l ->
            forall y, In y (drawn hl l) ->
              Tk.has_tag (Painter.tag_of (fst q) (snd (snd q))
                            (letter (snd q))) y = false).
  { intros l Hl y Hy. unfold drawn in Hy. apply in_flat_map in Hy.
    destruct Hy as (r & Hr & [<-|[<-|[]]]).
    - destruct r as [pp b]. cbn [block_rectangle Tk.has_tag existsb].
      rewrite orb_false_r. apply String.eqb_neq. intros E.
      apply (tag_inj q (pp, b)) in E. subst q. contradiction.
    - destruct r as [pp b]. reflexivity. }
  rewrite find_withtag_single.
  - rewrite len_before. f_equal. lia.
  - intros y Hy. unfold before in Hy. apply in_app_or in Hy.
    destruct Hy as [Hy|Hy].
    + apply in_map_iff in Hy. destruct Hy as (pid & <- & _). reflexivity.
    + apply (Hother pre Hpre). exact Hy.
  - destruct q as [pp b]. cbn [block_rectangle Tk.has_tag existsb fst snd].
    rewrite String.eqb_refl. reflexivity.
  - intros y [<-|Hy].
    + destruct q as [pp b]. reflexivity.
    + apply (Hother post Hpost). exact Hy.
Qed.

End Canvas.

Lemma gui_for_append {A B} (e : A -> Gui.result B) (g : A -> B)
    (l : list A) :
  (forall x, In x l -> e x = Gui.Ok (g x)) ->
  forall acc,
    Gui.for_ l (fun x acc => c <~ e x;; Gui.Ok (acc ++ [c])) acc
    = Gui.Ok (acc ++ map g l).
Proof.
  induction l as [|x l IH]; intros H acc; cbn [Gui.for_ map].
  - rewrite app_nil_r. reflexivity.
  - rewrite (H x) by (left; reflexivity). cbn [Gui.bind].
    rewrite IH by (intros y Hy; apply H; right; exact Hy).
    rewrite <- app_assoc. reflexivity.
Qed.

Lemma gui_for_collect {A B} (g : A -> B) (l : list A) (acc : list B) :
  Gui.for_ l (fun x acc => Gui.Ok (acc ++ [g x])) acc
  = Gui.Ok (acc ++ map g l).
Proof.
  revert acc. induction l as [|x l IH]; intros acc; cbn [Gui.for_ map].
  - rewrite app_nil_r. reflexivity.
  - cbn [Gui.bind]. rewrite IH, <- app_assoc. reflexivity.
Qed.

Lemma toggles_fold (qs : list placed) (hl : placed -> bool) (r : placed) :
  NoDup qs ->
  fold_left (fun h q => toggled (placed_eqb q) h) qs hl r
  = if existsb (placed_eqb r) qs then negb (hl r) else hl r.
Proof.
  revert hl. induction qs as [|q qs IH]; intros hl Hnd;
    cbn [fold_left existsb]; [reflexivity|].
  inversion Hnd as [|? ? Hq Hqs]; subst. rewrite IH by exact Hqs.
  unfold toggled at 1 2.
  destruct (placed_eqb_spec q r) as [->|Hne].
  - destruct (placed_eqb_spec r r); [|congruence]. cbn [orb].
    destruct (existsb (placed_eqb r) qs) eqn:E; [|reflexivity].
    apply existsb_exists in E. destruct E as (x & Hx & E).
    destruct (placed_eqb_spec r x); [subst; contradiction | discriminate].
  - destruct (placed_eqb_spec r q); [congruence|]. reflexivity.
Qed.

(** The blocks of a microbatch, in the order of the tags that
    [_trigger_hook] looks for. *)
Lemma microbatch_tags (l : list Z) (mb : Z) :
  map (fun p : Z * string => Painter.tag_of (fst p) mb (snd p))
      (flat_map (fun pid => [(pid, "f"%string); (pid, "b"%string)]) l)
  = map (fun q : placed =>
           Painter.tag_of (fst q) (snd (snd q)) (letter (snd q)))
        (flat_map (fun pid => [(pid, (forward, mb)); (pid, (backward, mb))])
                  l).
Proof.
  induction l as [|pid l IH]; [reflexivity|].
  cbn [flat_map app map]. rewrite IH. reflexivity.
Qed.

Lemma microbatch_blocks_NoDup (l : list Z) (mb : Z) :
  NoDup l ->
  NoDup (flat_map (fun pid => [(pid, (forward, mb)); (pid, (backward, mb))])
                  l).
Proof.
  induction l as [|pid l IH]; intros H; cbn [flat_map app];
    [constructor|].
  inversion H as [|? ? Hpid Hl]; subst.
  assert (Hnot : forall d, ~ In (pid, (d, mb))
                   (flat_map (fun pid0 => [(pid0, (forward, mb));
                                           (pid0, (backward, mb))]) l)).
  { intros d Hin. apply in_flat_map in Hin.
    destruct Hin as (p & Hp & [E|[E|[]]]); injection E as E _;
      subst; contradiction. }
  constructor.
  - intros [E|Hin]; [discriminate E | exact (Hnot _ Hin)].
  - constructor; [apply Hnot | apply IH; exact Hl].
Qed.

Lemma in_microbatch_blocks (P mb : Z) (r : placed) :
  existsb (placed_eqb r)
    (flat_map (fun pid => [(pid, (forward, mb)); (pid, (backward, mb))])
              (Py.range P))
  = (0 <=? fst r) && (fst r <? P) && (snd (snd r) =? mb).
Proof.
  destruct ((0 <=? fst r) && (fst r <? P) && (snd (snd r) =? mb)) eqn:E.
  - apply andb_prop in E. destruct E as (E & Emb).
    apply andb_prop in E. destruct E as (E0 & EP).
    apply existsb_exists. exists r. split.
    + apply in_flat_map. exists (fst r). split; [apply in_range; lia|].
      destruct r as [pp [[|] m]]; cbn [fst snd] in *;
        assert (m = mb) as -> by lia; [left | right; left]; reflexivity.
    + destruct (placed_eqb_spec r r); congruence.
  - destruct (existsb (placed_eqb r) _) eqn:E'; [|reflexivity].
    apply existsb_exists in E'. destruct E' as (x & Hx & Ex).
    destruct (placed_eqb_spec r x); [subst x | discriminate].
    apply in_flat_map in Hx. destruct Hx as (pid & Hpid & Hr).
    apply in_range in Hpid.
    destruct Hr as [<-|[<-|[]]]; cbn [fst snd] in E;
      rewrite Z.eqb_refl in E;
      destruct (Z.leb_spec 0 pid), (Z.ltb_spec pid P); try lia;
      discriminate E.
Qed.

Section Clicks.

Variables (sigma : assignment) (P M Df Db W : Z) (blocks : list placed).
Hypothesis HP : 0 <= P.
Hypothesis Hblocks : all_blocks P M blocks.

Let state (hl : placed -> bool) : Painter.SchedulingPainter * Tk.Canvas :=
  (painter_with P Df Db hl blocks,
   Tk.mkCanvas W (60 * P) (picture sigma P Df Db W hl blocks)).

Lemma block_split (q : placed) :
  In q blocks ->
  exists pre post,
    blocks = pre ++ q :: post /\ ~ In q pre /\ ~ In q post
    /\ rectangle_id (P + 1) blocks q = P + 1 + 2 * Py.len pre.
Proof using Hblocks.
  intros Hq. destruct (in_split _ _ Hq) as (pre & post & E).
  destruct Hblocks as (Hnd & _). rewrite E in Hnd.
  pose proof (NoDup_remove_2 _ _ _ Hnd) as Hnot.
  assert (Hpre : ~ In q pre)
    by (intros H; apply Hnot; apply in_or_app; left; exact H).
  assert (Hpost : ~ In q post)
    by (intros H; apply Hnot; apply in_or_app; right; exact H).
  exists pre, post. repeat split; try assumption.
  rewrite E. apply rectangle_id_split. exact Hpre.
Qed.

Lemma toggled_registered {V} (g : bool -> V)
    (hl : placed -> bool) (pre post : list placed) (q : placed)
    (first : Z) :
  ~ In q pre -> ~ In q post ->
  map (fun ib : Z * placed =>
         (fst ib, g (toggled (placed_eqb q) hl (snd ib))))
      (numbered first (pre ++ q :: post))
  = map (fun ib : Z * placed => (fst ib, g (hl (snd ib))))
        (numbered first pre)
    ++ (first + 2 * Py.len pre, g (negb (hl q)))
       :: map (fun ib : Z * placed => (fst ib, g (hl (snd ib))))
              (numbered (first + 2 * Py.len pre + 2) post).
Proof.
  intros Hpre Hpost. rewrite numbered_app, map_app. cbn [numbered map].
  assert (Hagree : forall a l, ~ In q l ->
            map (fun ib : Z * placed =>
                   (fst ib, g (toggled (placed_eqb q) hl (snd ib))))
                (numbered a l)
            = map (fun ib : Z * placed => (fst ib, g (hl (snd ib))))
                  (numbered a l)).
  { intros a l Hl. apply map_ext_in. intros ib Hib.
    apply numbered_bounds in Hib. unfold toggled.
    destruct (placed_eqb_spec q (snd ib)) as [E|_]; [|reflexivity].
    subst q. tauto. }
  rewrite !Hagree by assumption. cbn [fst snd]. unfold toggled at 1.
  destruct (placed_eqb_spec q q); [|congruence]. reflexivity.
Qed.

(** [_highlight_and_resume_block] on the rectangle of a block. *)
Lemma block_toggled (hl : placed -> bool) (q : placed) :
  In q blocks ->
  Painter._highlight_and_resume_block (rectangle_id (P + 1) blocks q)
    (state hl)
  = Gui.Ok (state (toggled (placed_eqb q) hl)).
Proof using HP Hblocks.
  intros Hq. destruct (block_split q Hq) as (pre & post & E & Hpre & Hpost
                                             & ->).
  unfold state. rewrite E.
  unfold Painter._highlight_and_resume_block, painter_with.
  cbn [Painter._highlight_state].
  rewrite (getitem_registered (fun ib => hl (snd ib))). cbn [Gui.bind snd].
  pose proof (fill_rectangle sigma P Df Db W HP hl pre post q) as Hfill.
  destruct (hl q) eqn:Ehl; unfold Painter.set_highlight_state;
    cbn [Painter._highlight_state Painter._item2color Painter._pp_size
         Painter._pp_height Painter._pp_align Painter._pixel_base
         Painter._forward_length Painter._backward_length
         Painter._item2block Painter._item2mid].
  - rewrite (getitem_registered (fun ib => colour (snd (snd ib)))).
    cbn [Gui.bind snd]. rewrite Hfill; try assumption.
    + rewrite (setitem_registered (fun ib => hl (snd ib))).
      rewrite (toggled_registered (fun b => b)) by assumption.
      rewrite Ehl. reflexivity.
    + unfold shown_fill, toggled. destruct (placed_eqb_spec q q);
        [|congruence]. rewrite Ehl. reflexivity.
  - rewrite Hfill; try assumption.
    + rewrite (setitem_registered (fun ib => hl (snd ib))).
      rewrite (toggled_registered (fun b => b)) by assumption.
      rewrite Ehl. reflexivity.
    + unfold shown_fill, toggled. destruct (placed_eqb_spec q q);
        [|congruence]. rewrite Ehl. reflexivity.
Qed.

Lemma blocks_toggled (qs : list placed) (hl : placed -> bool) :
  incl qs blocks ->
  Gui.for_ (map (rectangle_id (P + 1) blocks) qs)
    Painter._highlight_and_resume_block (state hl)
  = Gui.Ok (state (fold_left (fun h q => toggled (placed_eqb q) h) qs hl)).
Proof using HP Hblocks.
  revert hl. induction qs as [|q qs IH]; intros hl Hincl;
    cbn [map Gui.for_ fold_left]; [reflexivity|].
  rewrite block_toggled by (apply Hincl; left; reflexivity).
  cbn [Gui.bind]. apply IH. intros x Hx. apply Hincl. right. exact Hx.
Qed.

Lemma rectangles_found (hl : placed -> bool) (qs : list placed)
    (acc : list Z) :
  incl qs blocks ->
  Gui.for_
    (map (fun q : placed =>
            Painter.tag_of (fst q) (snd (snd q)) (letter (snd q))) qs)
    (fun tag found_so_far =>
       if negb (Py.len (Tk.find_withtag tag (snd (state hl))) =? 0) then
         item <~ Gui.lift
                   (Py.getitem (Tk.find_withtag tag (snd (state hl))) 0);;
         Gui.Ok (found_so_far ++ [item])
       else Gui.Ok found_so_far)
    acc
  = Gui.Ok (acc ++ map (rectangle_id (P + 1) blocks) qs).
Proof using HP Hblocks.
  revert acc. induction qs as [|q qs IH]; intros acc Hincl;
    cbn [map Gui.for_].
  - rewrite app_nil_r. reflexivity.
  - destruct (block_split q (Hincl q (or_introl eq_refl)))
      as (pre & post & E & Hpre & Hpost & Hid).
    assert (Hfound : Tk.find_withtag
                       (Painter.tag_of (fst q) (snd (snd q))
                          (letter (snd q)))
                       (snd (state hl))
                     = [rectangle_id (P + 1) blocks q]).
    { unfold state. cbn [snd]. rewrite Hid, E.
      apply find_rectangle; assumption. }
    rewrite Hfound.
    change (Py.len [rectangle_id (P + 1) blocks q] =? 0) with false.
    change (Py.getitem [rectangle_id (P + 1) blocks q] 0)
      with (Ok (rectangle_id (P + 1) blocks q)).
    cbn [negb Gui.lift Gui.bind]. rewrite IH.
    + rewrite <- app_assoc. reflexivity.
    + intros x Hx. apply Hincl. right. exact Hx.
Qed.

(** A click on the rectangle of a block or on its number. *)
Lemma hook_on_block (hl : placed -> bool) (coordinates time : string)
    (q : placed) (clicked : Z) :
  In q blocks ->
  clicked = rectangle_id (P + 1) blocks q
  \/ clicked = rectangle_id (P + 1) blocks q + 1 ->
  let hl' := toggled (fun r => snd (snd r) =? snd (snd q)) hl in
  Painter._trigger_hook [clicked]
    (painter_with P Df Db hl blocks,
     window_with sigma P Df Db W coordinates hl blocks time)
  = Gui.Ok
      (painter_with P Df Db hl' blocks,
       window_with sigma P Df Db W
         ("(" ++ Py.str (Z.min (start sigma (fst q) (snd q))
                               (start sigma (fst q) (snd q)
                                + duration Df Db (snd q)))
          ++ ","
          ++ Py.str (Z.max (start sigma (fst q) (snd q))
                           (start sigma (fst q) (snd q)
                            + duration Df Db (snd q)))
          ++ ")")
         hl' blocks time).
Proof using HP Hblocks.
  intros Hq Hclicked hl'.
  destruct (block_split q Hq) as (pre & post & E & Hpre & Hpost & Hid).
  set (id := rectangle_id (P + 1) blocks q) in *.
  assert (Hblock : Gui.getitem (Painter._item2block
                                  (painter_with P Df Db hl blocks)) clicked
                   = Gui.Ok id).
  { unfold painter_with. cbn [Painter._item2block]. rewrite E, Hid in *.
    destruct (getitem_item2block (P + 1) pre post q) as (H1 & H2).
    destruct Hclicked as [->| ->]; assumption. }
  assert (Hstate : Gui.contains (Painter._highlight_state
                                   (painter_with P Df Db hl blocks)) id
                   = true).
  { unfold painter_with. cbn [Painter._highlight_state]. rewrite E, Hid.
    apply (contains_registered (fun ib => hl (snd ib))). }
  assert (Hmid : Gui.getitem (Painter._item2mid
                                (painter_with P Df Db hl blocks)) id
                 = Gui.Ok (snd (snd q))).
  { unfold painter_with. cbn [Painter._item2mid]. rewrite E, Hid.
    apply (getitem_registered (fun ib => snd (snd (snd ib)))). }
  assert (Hcoords : Tk.coords id
                      (Tk.mkCanvas W (60 * P)
                         (picture sigma P Df Db W hl blocks))
                    = [10 + 10 * Z.min (start sigma (fst q) (snd q))
                                       (start sigma (fst q) (snd q)
                                        + duration Df Db (snd q));
                       60 * fst q + 5;
                       10 + 10 * Z.max (start sigma (fst q) (snd q))
                                       (start sigma (fst q) (snd q)
                                        + duration Df Db (snd q));
                       60 * (fst q + 1) - 5]).
  { unfold Tk.coords. rewrite E, Hid, lookup_rectangle by exact HP.
    destruct q as [pp b]. cbn [block_rectangle fst snd].
    f_equal; [lia|]. f_equal; [lia|]. f_equal; [lia|]. f_equal. lia. }
  assert (Hfirst : forall a b c d : Z, Py.getitem [a; b; c; d] 0 = Ok a)
    by reflexivity.
  assert (Hthird : forall a b c d : Z, Py.getitem [a; b; c; d] 2 = Ok c)
    by reflexivity.
  assert (Hscale : forall x, Py.floordiv (10 + 10 * x - 10) 10 = Ok x).
  { intros x. unfold Py.floordiv. change (10 =? 0) with false. cbv iota.
    replace (10 + 10 * x - 10) with (x * 10) by lia.
    rewrite Z.div_mul by lia. reflexivity. }
  assert (Halign : Painter._pp_align (painter_with P Df Db hl blocks) = 10)
    by reflexivity.
  assert (Hbase : Painter._pixel_base (painter_with P Df Db hl blocks) = 10)
    by reflexivity.
  assert (Hsize : Painter._pp_size (painter_with P Df Db hl blocks) = P)
    by reflexivity.
  unfold Painter._trigger_hook, window_with.
  cbn [Painter.main_canvas Painter.label_canvas Painter.coords_label].
  change (Py.len [clicked] =? 0) with false. cbv iota.
  change (Py.getitem [clicked] 0) with (Ok clicked).
  cbn [Gui.lift Gui.bind]. rewrite Hblock. cbn [Gui.bind].
  rewrite Hstate. cbn [negb]. cbv iota zeta.
  rewrite Hcoords, Hmid, Halign, Hbase, Hsize, Hfirst, Hthird.
  cbn [Gui.lift Gui.bind]. rewrite !Hscale. cbn [Gui.lift Gui.bind].
  unfold Tk.itemconfig_text, Tk.lookup, labels. cbn [Tk.items].
  change (4 <=? 0) with false. cbv iota.
  change (Z.to_nat (4 - 1)) with 3%nat. cbn [nth_error].
  unfold Tk.update. cbn [Tk.items Tk.width Tk.height replace_nth Gui.bind].
  rewrite gui_for_collect. cbn [app Gui.bind].
  rewrite (microbatch_tags (Py.range P) (snd (snd q))).
  pose proof (rectangles_found hl
                (flat_map (fun pid => [(pid, (forward, snd (snd q)));
                                       (pid, (backward, snd (snd q)))])
                          (Py.range P)) []) as Hfound.
  cbn [app] in Hfound. unfold state in Hfound. cbn [snd] in Hfound.
  assert (Hincl : incl (flat_map (fun pid => [(pid, (forward, snd (snd q)));
                                              (pid, (backward, snd (snd q)))])
                                 (Py.range P)) blocks).
  { intros r Hr. apply in_flat_map in Hr. destruct Hr as (pid & Hpid & Hr).
    apply in_range in Hpid. apply Hblocks. apply Hblocks in Hq.
    destruct Hr as [<-|[<-|[]]]; cbn [fst snd]; lia. }
  rewrite Hfound by exact Hincl. cbn [Gui.bind].
  pose proof (blocks_toggled _ hl Hincl) as Htoggled.
  unfold state in Htoggled. rewrite Htoggled. cbn [Gui.bind].
  assert (Hagree : forall r, In r blocks ->
            fold_left (fun h q0 => toggled (placed_eqb q0) h)
              (flat_map (fun pid => [(pid, (forward, snd (snd q)));
                                     (pid, (backward, snd (snd q)))])
                        (Py.range P)) hl r
            = hl' r).
  { intros r Hr.
    rewrite toggles_fold by (apply microbatch_blocks_NoDup, range_NoDup).
    rewrite in_microbatch_blocks. unfold hl', toggled.
    apply Hblocks in Hr. destruct Hr as (Hpp & _).
    destruct (Z.leb_spec 0 (fst r)), (Z.ltb_spec (fst r) P); try lia.
    reflexivity. }
  rewrite (painter_ext P Df Db _ hl' blocks Hagree).
  rewrite (picture_ext sigma P Df Db W _ hl' blocks Hagree).
  reflexivity.
Qed.

End Clicks.

(** ** What a click does to the window drawn *)

Lemma drawn_window (sigma : assignment) (P M : Z) (Cap : list Z) (Df Db : Z)
    (st : strategy) (blocks : list placed)
    (shown : Painter.SchedulingPainter * Painter.Window) :
  0 <= P -> blocks <> [] ->
  _draw (fresh P M Cap Df Db st) (results_of sigma blocks) = Gui.Ok shown ->
  exists width time,
    shown = (painter_with P Df Db (fun _ => false) blocks,
             window_with sigma P Df Db width "(start,end)" (fun _ => false)
               blocks time).
Proof.
  intros HP Hne H. rewrite draw_blocks in H by assumption.
  injection H as <-. eexists _, _. reflexivity.
Qed.

Lemma first_click (sigma : assignment) (P M Df Db W : Z)
    (blocks : list placed) (coordinates time : string) (pb : placed)
    (clicked : Z) :
  all_blocks P M blocks -> In pb blocks ->
  0 <= duration Df Db (snd pb) ->
  clicked = rectangle_id (P + 1) blocks pb
  \/ clicked = rectangle_id (P + 1) blocks pb + 1 ->
  Painter._trigger_hook [clicked]
    (painter_with P Df Db (fun _ => false) blocks,
     window_with sigma P Df Db W coordinates (fun _ => false) blocks time)
  = Gui.Ok
      (painter_with P Df Db (fun r => snd (snd r) =? snd (snd pb)) blocks,
       window_with sigma P Df Db W
         ("(" ++ Py.str (start sigma (fst pb) (snd pb)) ++ ","
          ++ Py.str (start sigma (fst pb) (snd pb)
                     + duration Df Db (snd pb))
          ++ ")")
         (fun r => snd (snd r) =? snd (snd pb)) blocks time).
Proof.
  intros Hb Hpb Hd Hc.
  assert (HP : 0 <= P) by (apply Hb in Hpb; lia).
  rewrite (hook_on_block sigma P M Df Db W blocks HP Hb _ _ _ pb)
    by assumption.
  rewrite Z.min_l, Z.max_r by lia.
  assert (Hagree : forall r, In r blocks ->
            toggled (fun r0 => snd (snd r0) =? snd (snd pb))
                    (fun _ => false) r
            = (snd (snd r) =? snd (snd pb))).
  { intros r _. unfold toggled. destruct (snd (snd r) =? snd (snd pb));
      reflexivity. }
  rewrite (painter_ext P Df Db _ _ blocks Hagree).
  unfold window_with. rewrite (picture_ext sigma P Df Db W _ _ blocks Hagree).
  reflexivity.
Qed.

Lemma second_click (sigma : assignment) (P M Df Db W : Z)
    (blocks : list placed) (coordinates time : string) (pb pb' : placed)
    (clicked : Z) :
  all_blocks P M blocks -> In pb' blocks ->
  snd (snd pb') = snd (snd pb) ->
  clicked = rectangle_id (P + 1) blocks pb'
  \/ clicked = rectangle_id (P + 1) blocks pb' + 1 ->
  exists coordinates',
    Painter._trigger_hook [clicked]
      (painter_with P Df Db (fun r => snd (snd r) =? snd (snd pb)) blocks,
       window_with sigma P Df Db W coordinates
         (fun r => snd (snd r) =? snd (snd pb)) blocks time)
    = Gui.Ok
        (painter_with P Df Db (fun _ => false) blocks,
         window_with sigma P Df Db W coordinates' (fun _ => false) blocks
           time).
Proof.
  intros Hb Hpb Hsame Hc.
  assert (HP : 0 <= P) by (apply Hb in Hpb; lia).
  eexists.
  rewrite (hook_on_block sigma P M Df Db W blocks HP Hb _ _ _ pb')
    by assumption.
  assert (Hagree : forall r, In r blocks ->
            toggled (fun r0 => snd (snd r0) =? snd (snd pb'))
                    (fun r0 => snd (snd r0) =? snd (snd pb)) r
            = false).
  { intros r _. unfold toggled. rewrite Hsame.
    destruct (snd (snd r) =? snd (snd pb)); reflexivity. }
  rewrite (painter_ext P Df Db _ _ blocks Hagree).
  unfold window_with. rewrite (picture_ext sigma P Df Db W _ _ blocks Hagree).
  reflexivity.
Qed.

(** X17. With durations that are not negative, a click on a block, or on
    its number, writes the start and the end of the block on the label of
    the coordinates and turns the blocks of its microbatch, forward and
    backward at every stage, yellow; the rest of the window stays as
    drawn. *)
Theorem click_highlights_microbatch (sigma : assignment) (P M : Z)
    (Cap : list Z) (Df Db : Z) (st : strategy) (blocks : list placed)
    (pb : placed) (clicked : Z)
    (shown : Painter.SchedulingPainter * Painter.Window) :
  0 <= Df -> 0 <= Db ->
  all_blocks P M blocks -> In pb blocks ->
  clicked = rectangle_id (P + 1) blocks pb
  \/ clicked = rectangle_id (P + 1) blocks pb + 1 ->
  _draw (fresh P M Cap Df Db st) (results_of sigma blocks) = Gui.Ok shown ->
  exists width time,
    shown = (painter_with P Df Db (fun _ => false) blocks,
             window_with sigma P Df Db width "(start,end)" (fun _ => false)
               blocks time)
    /\ Painter._trigger_hook [clicked] shown
       = Gui.Ok
           (painter_with P Df Db (fun r => snd (snd r) =? snd (snd pb))
              blocks,
            window_with sigma P Df Db width
              ("(" ++ Py.str (start sigma (fst pb) (snd pb)) ++ ","
               ++ Py.str (start sigma (fst pb) (snd pb)
                          + duration Df Db (snd pb))
               ++ ")")
              (fun r => snd (snd r) =? snd (snd pb)) blocks time).
Proof.
  intros HDf HDb Hb Hpb Hc Hd.
  assert (HP : 0 <= P) by (apply Hb in Hpb; lia).
  assert (Hne : blocks <> []) by (intros E; rewrite E in Hpb; destruct Hpb).
  destruct (drawn_window sigma P M Cap Df Db st blocks shown HP Hne Hd)
    as (width & time & ->).
  exists width, time. split; [reflexivity|].
  apply (first_click sigma P M Df Db width blocks); try assumption.
  destruct pb as [pp [[|] mb]]; cbn [duration fst snd]; assumption.
Qed.

(** X18. A second click, on any block of the same microbatch, gives the blocks
    their colours back: the painter and the main canvas are as they were
    drawn. *)
Theorem second_click_resumes (sigma : assignment) (P M : Z)
    (Cap : list Z) (Df Db : Z) (st : strategy) (blocks : list placed)
    (pb pb' : placed) (clicked clicked' : Z)
    (shown : Painter.SchedulingPainter * Painter.Window) :
  all_blocks P M blocks -> In pb blocks -> In pb' blocks ->
  snd (snd pb') = snd (snd pb) ->
  clicked = rectangle_id (P + 1) blocks pb
  \/ clicked = rectangle_id (P + 1) blocks pb + 1 ->
  clicked' = rectangle_id (P + 1) blocks pb'
  \/ clicked' = rectangle_id (P + 1) blocks pb' + 1 ->
  _draw (fresh P M Cap Df Db st) (results_of sigma blocks) = Gui.Ok shown ->
  exists once twice,
    Painter._trigger_hook [clicked] shown = Gui.Ok once
    /\ Painter._trigger_hook [clicked'] once = Gui.Ok twice
    /\ fst twice = fst shown
    /\ Painter.main_canvas (snd twice) = Painter.main_canvas (snd shown).
Proof.
  intros Hb Hpb Hpb' Hsame Hc Hc' Hd.
  assert (HP : 0 <= P) by (apply Hb in Hpb; lia).
  assert (Hne : blocks <> []) by (intros E; rewrite E in Hpb; destruct Hpb).
  destruct (drawn_window sigma P M Cap Df Db st blocks shown HP Hne Hd)
    as (width & time & ->).
  destruct (second_click sigma P M Df Db width blocks
              ("(" ++ Py.str (Z.min (start sigma (fst pb) (snd pb))
                                    (start sigma (fst pb) (snd pb)
                                     + duration Df Db (snd pb)))
               ++ ","
               ++ Py.str (Z.max (start sigma (fst pb) (snd pb))
                                (start sigma (fst pb) (snd pb)
                                 + duration Df Db (snd pb)))
               ++ ")")
              time pb pb' clicked' Hb Hpb' Hsame Hc')
    as (coordinates' & Hsecond).
  eexists _, _. split; [|split].
  - rewrite (hook_on_block sigma P M Df Db width blocks HP Hb _ _ _ pb)
      by assumption.
    assert (Hagree : forall r, In r blocks ->
              toggled (fun r0 => snd (snd r0) =? snd (snd pb))
                      (fun _ => false) r
              = (snd (snd r) =? snd (snd pb))).
    { intros r _. unfold toggled. destruct (snd (snd r) =? snd (snd pb));
        reflexivity. }
    rewrite (painter_ext P Df Db _ _ blocks Hagree).
    unfold window_with.
    rewrite (picture_ext sigma P Df Db width _ _ blocks Hagree).
    reflexivity.
  - exact Hsecond.
  - split; reflexivity.
Qed.

(** X19. The timeline of a stage is not among the items that the painter keeps
    track of: a click that tkinter reports on it ends in the [KeyError] of
    [_item2block]. *)
Theorem click_on_timeline_fails (sigma : assignment) (P M : Z)
    (Cap : list Z) (Df Db : Z) (st : strategy) (blocks : list placed)
    (pid : Z) (shown : Painter.SchedulingPainter * Painter.Window) :
  0 <= pid < P -> blocks <> [] ->
  _draw (fresh P M Cap Df Db st) (results_of sigma blocks) = Gui.Ok shown ->
  (exists width,
     Tk.lookup (Painter.main_canvas (snd shown)) (pid + 1)
     = Some (timeline width pid))
  /\ Painter._trigger_hook [pid + 1] shown
     = Gui.Raise (Gui.ItemKeyError (pid + 1)).
Proof.
  intros Hpid Hne Hd.
  destruct (drawn_window sigma P M Cap Df Db st blocks shown
              ltac:(lia) Hne Hd) as (width & time & ->).
  split.
  - exists width. unfold window_with, Tk.lookup.
    cbn [snd Painter.main_canvas Tk.items].
    destruct (Z.leb_spec (pid + 1) 0); [lia|].
    replace (Z.to_nat (pid + 1 - 1)) with (Z.to_nat pid) by lia.
    unfold picture. rewrite nth_error_app1
      by (rewrite length_map, length_range; lia).
    rewrite nth_error_map, range_eq, nth_error_map, nth_error_seq.
    destruct (Nat.ltb_spec (Z.to_nat pid) (Z.to_nat P)); [|lia].
    cbn [option_map Nat.add]. rewrite Z2Nat.id by lia. reflexivity.
  - unfold Painter._trigger_hook.
    change (Py.len [pid + 1] =? 0) with false. cbv iota.
    change (Py.getitem [pid + 1] 0) with (Ok (pid + 1)).
    cbn [Gui.lift Gui.bind]. unfold painter_with at 1.
    cbn [Painter._item2block].
    rewrite getitem_item2block_below by lia. reflexivity.
Qed.

Lemma single_drawn :
  _draw (fresh 1 1 [1] 1 1 strict)
        (results_of single_schedule [(0, (forward, 0)); (0, (backward, 0))])
  = Gui.Ok
      (painter_with 1 1 1 (fun _ => false)
         [(0, (forward, 0)); (0, (backward, 0))],
       window_with single_schedule 1 1 1 40 "(start,end)" (fun _ => false)
         [(0, (forward, 0)); (0, (backward, 0))] "2").
Proof.
  exact (draw_blocks single_schedule 1 1 [1] 1 1 strict
           [(0, (forward, 0)); (0, (backward, 0))]
           ltac:(lia) ltac:(discriminate)).
Qed.

Lemma click_highlights_microbatch_witness :
  exists width time,
    (painter_with 1 1 1 (fun _ => false)
       [(0, (forward, 0)); (0, (backward, 0))],
     window_with single_schedule 1 1 1 40 "(start,end)" (fun _ => false)
       [(0, (forward, 0)); (0, (backward, 0))] "2")
    = (painter_with 1 1 1 (fun _ => false)
         [(0, (forward, 0)); (0, (backward, 0))],
       window_with single_schedule 1 1 1 width "(start,end)"
         (fun _ => false) [(0, (forward, 0)); (0, (backward, 0))] time)
    /\ Painter._trigger_hook [3]
         (painter_with 1 1 1 (fun _ => false)
            [(0, (forward, 0)); (0, (backward, 0))],
          window_with single_schedule 1 1 1 40 "(start,end)"
            (fun _ => false) [(0, (forward, 0)); (0, (backward, 0))] "2")
       = Gui.Ok
           (painter_with 1 1 1 (fun r => snd (snd r) =? 0)
              [(0, (forward, 0)); (0, (backward, 0))],
            window_with single_schedule 1 1 1 width "(0,1)"
              (fun r => snd (snd r) =? 0)
              [(0, (forward, 0)); (0, (backward, 0))] time).
Proof.
  exact (click_highlights_microbatch single_schedule 1 1 [1] 1 1 strict
           [(0, (forward, 0)); (0, (backward, 0))] (0, (forward, 0)) 3 _
           ltac:(lia) ltac:(lia)
           single_blocks (or_introl eq_refl) (or_intror eq_refl)
           single_drawn).
Defined.

Lemma second_click_resumes_witness :
  exists once twice,
    Painter._trigger_hook [2]
      (painter_with 1 1 1 (fun _ => false)
         [(0, (forward, 0)); (0, (backward, 0))],
       window_with single_schedule 1 1 1 40 "(start,end)" (fun _ => false)
         [(0, (forward, 0)); (0, (backward, 0))] "2")
    = Gui.Ok once
    /\ Painter._trigger_hook [4] once = Gui.Ok twice
    /\ fst twice
       = painter_with 1 1 1 (fun _ => false)
           [(0, (forward, 0)); (0, (backward, 0))]
    /\ Painter.main_canvas (snd twice)
       = Tk.mkCanvas 40 60
           (picture single_schedule 1 1 1 40 (fun _ => false)
              [(0, (forward, 0)); (0, (backward, 0))]).
Proof.
  exact (second_click_resumes single_schedule 1 1 [1] 1 1 strict
           [(0, (forward, 0)); (0, (backward, 0))]
           (0, (forward, 0)) (0, (backward, 0)) 2 4 _
           single_blocks (or_introl eq_refl) (or_intror (or_introl eq_refl))
           eq_refl (or_introl eq_refl) (or_introl eq_refl) single_drawn).
Defined.

Lemma click_on_timeline_fails_witness :
  (exists width,
     Tk.lookup
       (Tk.mkCanvas 40 60
          (picture single_schedule 1 1 1 40 (fun _ => false)
             [(0, (forward, 0)); (0, (backward, 0))]))
       1
     = Some (timeline width 0))
  /\ Painter._trigger_hook [1]
       (painter_with 1 1 1 (fun _ => false)
          [(0, (forward, 0)); (0, (backward, 0))],
        window_with single_schedule 1 1 1 40 "(start,end)" (fun _ => false)
          [(0, (forward, 0)); (0, (backward, 0))] "2")
     = Gui.Raise (Gui.ItemKeyError 1).
Proof.
  exact (click_on_timeline_fails single_schedule 1 1 [1] 1 1 strict
           [(0, (forward, 0)); (0, (backward, 0))] 0 _
           ltac:(lia) ltac:(discriminate) single_drawn).
Defined.

(** X20. When the model holds nothing but the objective variable, as it does
    when there is no microbatch, [run] has nothing to draw and ends in the
    [ValueError] of [max]. *)
Theorem nothing_to_draw (check : Optimize -> CheckSatResult)
    (model : Optimize -> list (const * Z)) (self : Simulator)
    (solver : Optimize) (v : Z) :
  encode self = Ok solver -> check solver = sat ->
  model solver = [(max_start_offset, v)] ->
  run_and_draw check model self = Gui.Raise Gui.ValueError.
Proof.
  intros He Hc Hm. unfold run_and_draw.
  rewrite (run_sat check model self solver He Hc), Hm. reflexivity.
Qed.

Lemma nothing_to_draw_witness :
  encode_config (config_of 1 0 [1] 1 1 strict)
  = Ok (mkOptimize [] [Int max_start_offset])
  /\ run_and_draw (fun _ => sat) (fun _ => [(max_start_offset, 0)])
       (fresh 1 0 [1] 1 1 strict)
     = Gui.Raise Gui.ValueError.
Proof.
  split; [reflexivity|].
  apply (nothing_to_draw _ _ _ (mkOptimize [] [Int max_start_offset]) 0);
    reflexivity.
Defined.

(** ** Two stages *)

Lemma two_stage_ordered (sigma : assignment) (Df Db mb : Z) :
  ordered sigma 2 Df Db full_interleaving mb
  <-> ordered sigma 2 Df Db double_interleaving mb.
Proof.
  split.
  - cbn [ordered]. intros (perm & Hperm & Hc).
    change (Py.range 2) with [0; 1] in *. cbn [rev app].
    apply Permutation_length_2_inv in Hperm.
    destruct Hperm as [-> | ->]; [left | right]; exact Hc.
  - apply ordered_relax. cbn. lia.
Qed.

Lemma two_stage_feasible (sigma : assignment) (M : Z) (Cap : list Z)
    (Df Db : Z) :
  feasible sigma 2 M Df Db Cap full_interleaving
  <-> feasible sigma 2 M Df Db Cap double_interleaving.
Proof.
  unfold feasible. split; intros (H1 & H2 & H3 & H4);
    (split; [exact H1|]); (split; [|split; [exact H3 | exact H4]]);
    intros mb Hmb; apply two_stage_ordered; apply H2; exact Hmb.
Qed.

(** X21. With two stages the orderings of the stages are the two that
    double interleaving allows, so the two interleaving strategies encode
    problems with the same solutions and the same optimal solutions. *)
Theorem two_stage_interleavings_agree (M : Z) (Cap : list Z) (Df Db : Z) :
  2 <= Py.len Cap ->
  encode_config (config_of 2 M Cap Df Db double_interleaving)
  = Ok (problem 2 M Cap Df Db double_interleaving)
  /\ encode_config (config_of 2 M Cap Df Db full_interleaving)
     = Ok (problem 2 M Cap Df Db full_interleaving)
  /\ forall sigma,
       (Z3.satisfies sigma (problem 2 M Cap Df Db double_interleaving)
        <-> Z3.satisfies sigma (problem 2 M Cap Df Db full_interleaving))
       /\ (optimal sigma (problem 2 M Cap Df Db double_interleaving)
           <-> optimal sigma (problem 2 M Cap Df Db full_interleaving)).
Proof.
  intros HCap.
  assert (Hsat : forall sigma,
            Z3.satisfies sigma (problem 2 M Cap Df Db double_interleaving)
            <-> Z3.satisfies sigma (problem 2 M Cap Df Db full_interleaving)).
  { intros sigma. rewrite !satisfies_problem by lia.
    rewrite two_stage_feasible. reflexivity. }
  split; [apply encode_config_of; lia|].
  split; [apply encode_config_of; lia|].
  intros sigma. split; [apply Hsat|].
  unfold optimal. rewrite Hsat. cbn [problem objectives].
  split; intros (Hs & Hopt); (split; [exact Hs|]); intros sigma' Hs';
    apply Hopt; apply Hsat; exact Hs'.
Qed.

Lemma two_stage_interleavings_agree_witness :
  Z3.satisfies (serial_schedule 2 1 1 1)
    (problem 2 1 [1; 1] 1 1 double_interleaving)
  <-> Z3.satisfies (serial_schedule 2 1 1 1)
        (problem 2 1 [1; 1] 1 1 full_interleaving).
Proof.
  destruct (two_stage_interleavings_agree 1 [1; 1] 1 1) as (_ & _ & H).
  - cbn. lia.
  - apply (H (serial_schedule 2 1 1 1)).
Defined.
